(** * Frameworke: a shallow embedding of selected framework code

    The development follows the JavaScript and TypeScript sources of the
    repository.  Every module embeds one source unit and then states what
    that unit does:

    - [Js]           : the JavaScript primitives the sources rely on
                       (string methods, thrown errors);
    - [ViewExplorer] : packages/view/frame/index.js ([formatCollection],
                       [sentenceCase], [slugCase], [joinPath]);
    - [Markup]       : the markup builder ([toMarkup], [makeMarkup]);
    - [InitView]     : packages/client/lib/makers/initView.js (the
                       component object and its lifecycle);
    - [Store]        : the [Store] class ([connect], [disconnect]);
    - [MapComponent] : the keyed list ([update] and its animation frame);
    - [Router]       : the router store ([onRouteChange]);
    - [Spring]       : the spring animation helper;
    - [StateFn]      : the function-style state container ([state],
                       [state.immut]);
    - [StateMap]     : [state.map] and [state.filter], with the
                       notification loop of their source;
    - [SetActiveView]: [setActiveView] of the view explorer frame, with
                       helpers/initService.js;
    - [WatchComponent]: components/Watch.js and the helpers [when] and
                       [unless] of h.js;
    - [RouterFirst]  : the router store of the class-based generation;
    - [ViewExplorerProps], [MarkupProps], [InitViewProps], [StoreProps],
      [MapComponentProps], [RouterProps], [SpringProps]: further
      functions of the units above ([ctx.ref], [connectManual], the
      amplitude measurer, ...) and further properties.

    Conventions.  The variables of a closure or the fields of an instance
    are a record, and a method is a function on that record.  A thrown
    exception is a [Throw] of the type [result].  A callback registered by
    user code is known by a number and is opaque: the model records that
    it is invoked, in a trace, and nothing of what it does.  A callback
    handed to [requestAnimationFrame] is queued and run by a separate
    function.  Objects with identity (components, handles, DOM nodes) are
    numbers. *)

From Stdlib Require Import String Ascii List Bool Arith ZArith Lia Reals Lra.
From Stdlib Require Import DecimalString Permutation Sorted.
Import ListNotations.

Set Implicit Arguments.
Set Warnings "-register-all".

(* ===================================================================== *)
(** * JavaScript primitives *)
(* ===================================================================== *)

Module Js.

Local Open Scope string_scope.

(** A thrown JavaScript exception: its constructor and its message. *)
Inductive JsError : Type :=
| TypeError (msg : string)
| Error (msg : string).

(** The outcome of a call that may throw. *)
Inductive result (A : Type) : Type :=
| Ok (a : A)
| Throw (e : JsError).

Arguments Ok {A} a.
Arguments Throw {A} e.

Definition bind {A B : Type} (r : result A) (k : A -> result B) : result B :=
  match r with
  | Ok a => k a
  | Throw e => Throw e
  end.

Definition isOk {A : Type} (r : result A) : bool :=
  match r with Ok _ => true | Throw _ => false end.

(** ** Characters (the ASCII range; identifiers and paths of the view
    explorer are ASCII) *)

Definition NUL : ascii := Ascii.zero.


Definition isLower (c : ascii) : bool :=
  Nat.leb 97 (nat_of_ascii c) && Nat.leb (nat_of_ascii c) 122.

Definition isDigit (c : ascii) : bool :=
  Nat.leb 48 (nat_of_ascii c) && Nat.leb (nat_of_ascii c) 57.



Definition toUpperChar (c : ascii) : ascii :=
  if isLower c then ascii_of_nat (nat_of_ascii c - 32) else c.

(** ** String methods *)


(** [String.prototype.toUpperCase]. *)
Fixpoint toUpperCase (s : string) : string :=
  match s with
  | EmptyString => EmptyString
  | String c rest => String (toUpperChar c) (toUpperCase rest)
  end.

(** [s.charAt(i)]: the empty string when [i] is out of range, which is
    [None] here. *)
Definition charAt (s : string) (i : nat) : option ascii := String.get i s.



Fixpoint dropChars (n : nat) (s : string) : string :=
  match n, s with
  | 0, _ => s
  | S _, EmptyString => EmptyString
  | S m, String _ rest => dropChars m rest
  end.


(** [s.slice(start)]. *)
Definition sliceFrom (s : string) (start : nat) : string := dropChars start s.

(** The replacement text of [replace] is a template even when the search
    value is a string: [$$] stands for a dollar sign, [$&] for the matched
    text, [$`] for the part of the input before the match and [$'] for the
    part after it.  A string search has no capture groups, so [$1] and the
    like stand for themselves, as does a dollar sign before any other
    character or at the end. *)
Fixpoint expandReplacement (matched before after template : string) : string :=
  match template with
  | EmptyString => EmptyString
  | String d rest =>
      if Ascii.eqb d "$" then
        match rest with
        | EmptyString => String d EmptyString
        | String c rest' =>
            if Ascii.eqb c "$" then
              String "$" (expandReplacement matched before after rest')
            else if Ascii.eqb c "&" then
              matched ++ expandReplacement matched before after rest'
            else if Ascii.eqb c "`" then
              before ++ expandReplacement matched before after rest'
            else if Ascii.eqb c "'" then
              after ++ expandReplacement matched before after rest'
            else String d (expandReplacement matched before after rest)
        end
      else String d (expandReplacement matched before after rest)
  end.

(** The search for the first occurrence of [search]; [before] is the part
    of the input already passed. *)
Fixpoint replaceFrom (search replacement before input : string) : string :=
  if String.prefix search input
  then
    let after := dropChars (String.length search) input in
    expandReplacement search before after replacement ++ after
  else match input with
       | EmptyString => EmptyString
       | String c rest =>
           String c
             (replaceFrom search replacement (before ++ String c EmptyString)
                rest)
       end.

(** [input.replace(search, replacement)] when [search] is a string (not a
    regular expression) and [replacement] is a string: only the first
    occurrence is replaced, by the expanded replacement template. *)
Definition replaceString (search replacement input : string) : string :=
  replaceFrom search replacement EmptyString input.

(** [s.split(sep)] for a one-character separator. *)
Fixpoint split (sep : ascii) (s : string) : list string :=
  match s with
  | EmptyString => [EmptyString]
  | String c rest =>
      if Ascii.eqb c sep then EmptyString :: split sep rest
      else match split sep rest with
           | w :: ws => String c w :: ws
           | [] => [String c EmptyString]
           end
  end.


End Js.

(* ===================================================================== *)
(** * The view explorer frame: packages/view/frame/index.js *)
(* ===================================================================== *)

Module ViewExplorer.

Import Js.
Local Open Scope string_scope.

(** ** Name derivation *)





(** [while (result.charAt(start) === "\0") start++]. The loop runs at most
    [fuel] times, and [String.length result] steps always reach a character
    that is not NUL or the end of the string. *)
Fixpoint trimStart (fuel : nat) (result : string) (start : nat) : nat :=
  match fuel with
  | 0 => start
  | S fuel' =>
      match charAt result start with
      | Some c => if Ascii.eqb c NUL then trimStart fuel' result (S start) else start
      | None => start
      end
  end.






(** ** Collections *)

(** A template produced by [h(...)]; the frame only stores it. *)
Record Template : Type := { template_id : nat }.

(** The second argument of [helpers.service(name, service, config)]. *)
Inductive ServiceArg : Type :=
| ServiceFunction (fn : nat) (options : option nat)
| ServiceObject (obj : nat)
| ServiceInvalid (typeof : string).

(** An entry of the [services] object of one view. *)
Inductive ServiceEntry : Type :=
| ServiceFn (fn : nat) (options : option nat)
| ServiceConst (obj : nat).

(** What a view function does with the [helpers] object it receives, in
    the order it does it. *)
Inductive HelperCall : Type :=
| SetName (value : string)
| SetDescription (value : string)
| CallService (name : string) (service : ServiceArg)
| CallAttribute (name : string)
| CallAction (name : string)
| CallRender (built : Template).




Record View : Type := {
  id : nat;
  path : string;
  name : string;
  description : option string;
  attributes : list string;
  services : list (string * ServiceEntry);
  actions : list string;
  template : Template
}.

Record Collection : Type := {
  collection_path : string;
  views : list View
}.

(** [relativePath.replace(/\.view\.[jt]sx?$/, "")]: the match has to reach
    the end of the string. *)
Definition viewSuffixes : list string :=
  [".view.js"; ".view.jsx"; ".view.ts"; ".view.tsx"].

Fixpoint stripViewSuffix (s : string) : string :=
  if existsb (String.eqb s) viewSuffixes then EmptyString
  else match s with
       | EmptyString => EmptyString
       | String c rest => String c (stripViewSuffix rest)
       end.

(** [services[name] = entry]. *)
Fixpoint setService (name : string) (entry : ServiceEntry)
    (services : list (string * ServiceEntry)) : list (string * ServiceEntry) :=
  match services with
  | [] => [(name, entry)]
  | (n, e) :: rest =>
      if String.eqb n name then (n, entry) :: rest
      else (n, e) :: setService name entry rest
  end.

(** The mutable locals of one iteration of the loop over [fns]. *)
Record Helpers : Type := {
  h_name : string;
  h_description : option string;
  h_services : list (string * ServiceEntry);
  h_template : option Template
}.

Definition applyCall (h : Helpers) (c : HelperCall) : result Helpers :=
  match c with
  | SetName v =>
      Ok {| h_name := v; h_description := h_description h;
            h_services := h_services h; h_template := h_template h |}
  | SetDescription v =>
      Ok {| h_name := h_name h; h_description := Some v;
            h_services := h_services h; h_template := h_template h |}
  | CallService n (ServiceFunction fn options) =>
      Ok {| h_name := h_name h; h_description := h_description h;
            h_services := setService n (ServiceFn fn options) (h_services h);
            h_template := h_template h |}
  | CallService n (ServiceObject obj) =>
      Ok {| h_name := h_name h; h_description := h_description h;
            h_services := setService n (ServiceConst obj) (h_services h);
            h_template := h_template h |}
  | CallService n (ServiceInvalid ty) =>
      Throw (TypeError ("Expected service '" ++ n
                        ++ "' to be a function or object. Got: " ++ ty))
  | CallAttribute _ => Ok h
  | CallAction _ => Ok h
  | CallRender t =>
      Ok {| h_name := h_name h; h_description := h_description h;
            h_services := h_services h; h_template := Some t |}
  end.

Fixpoint applyCalls (h : Helpers) (cs : list HelperCall) : result Helpers :=
  match cs with
  | [] => Ok h
  | c :: rest => bind (applyCall h c) (fun h' => applyCalls h' rest)
  end.





(** ** Notions used in the statements *)




(** ** The trimming loops terminate *)

Lemma charAt_beyond (s : string) (i : nat) :
  String.length s <= i -> charAt s i = None.
Proof.
  unfold charAt. revert i. induction s as [|c rest IH]; intros i Hi; simpl.
  - reflexivity.
  - destruct i as [|i']; simpl in *; [lia|]. apply IH. lia.
Qed.

(** The fuel given to [trimStart] suffices: with the characters from
    [start] on as fuel the loop has ended, and more fuel changes nothing. *)
Lemma trimStart_fuel (result : string) (fuel start extra : nat) :
  String.length result <= start + fuel ->
  trimStart (fuel + extra) result start = trimStart fuel result start.
Proof.
  revert start. induction fuel as [|fuel IH]; intros start Hlen; simpl.
  - destruct extra as [|extra]; simpl; [reflexivity|].
    now rewrite charAt_beyond by lia.
  - destruct (charAt result start) as [c|]; [|reflexivity].
    destruct (Ascii.eqb c NUL); [|reflexivity].
    apply IH. lia.
Qed.

(** ** Properties of the name derivation *)






(** *** An identifier is one token *)












(** ** Properties of [formatCollection] *)


End ViewExplorer.

(* ===================================================================== *)
(** * The markup builder: [toMarkup] and [makeMarkup] (markup.ts) *)
(* ===================================================================== *)

Module Markup.

Import Js.
Local Open Scope string_scope.

(** The [value] attribute of a ["$text"] node: a string, a number or a
    readable (by its identity). *)
Inductive TextValue : Type :=
| TextString (s : string)
| TextNumber (n : Z)
| TextReadable (readable : nat).

(** [Markup.type]: a tag name or a view function (by its identity). *)
Inductive MarkupType : Type :=
| Tag (tag : string)
| ViewType (view : nat).

Inductive Attributes : Type :=
| AttributesUndefined
| AttributesText (value : TextValue)
| AttributesObject (obj : nat).

(** An object carrying the [MARKUP] symbol. *)
Inductive Markup : Type :=
| mkMarkup (type : MarkupType) (attributes : Attributes) (children : list Markup).

(** A value passed as a child: the cases are the ones the tests of
    [toMarkup] tell apart.  [ROther] is any other value (an object without
    the [MARKUP] symbol, a function, a symbol, NaN, ...), with the text
    that a template literal gives for it. *)
Inductive Renderable : Type :=
| RNull
| RUndefined
| RBoolean (b : bool)
| RString (s : string)
| RNumber (n : Z)
| RReadable (readable : nat)
| RMarkup (m : Markup)
| RArray (items : list Renderable)
| ROther (text : string).

(** [Array.prototype.flat(Infinity)]: arrays are replaced by their
    elements, at every depth, in order. *)
Fixpoint flat (x : Renderable) : list Renderable :=
  match x with
  | RArray items => flat_map flat items
  | _ => [x]
  end.

Definition flatInfinity (xs : list Renderable) : list Renderable :=
  flat_map flat xs.

(** The filter [(x) => x !== null && x !== undefined && x !== false]. *)
Definition kept (x : Renderable) : bool :=
  match x with
  | RNull | RUndefined | RBoolean false => false
  | _ => true
  end.

(** [makeMarkup("$text", { value: x })]: no children are passed, and
    [toMarkup([])] is the empty array. *)
Definition textMarkup (value : TextValue) : Markup :=
  mkMarkup (Tag "$text") (AttributesText value) [].

(** The text of [`${x}`] in the error message (arrays never reach it). *)
Definition show (x : Renderable) : string :=
  match x with
  | RNull => "null"
  | RUndefined => "undefined"
  | RBoolean true => "true"
  | RBoolean false => "false"
  | RString s => s
  | RNumber _ => "<number>"
  | RReadable _ => "[object Object]"
  | RMarkup _ => "[object Object]"
  | RArray _ => "<array>"
  | ROther text => text
  end.

(** The callback of [.map(...)] in [toMarkup]. *)
Definition toMarkupItem (x : Renderable) : result Markup :=
  match x with
  | RMarkup m => Ok m
  | RString s => Ok (textMarkup (TextString s))
  | RNumber n => Ok (textMarkup (TextNumber n))
  | RReadable r => Ok (textMarkup (TextReadable r))
  | _ => Throw (TypeError ("Unexpected child type. Got: " ++ show x))
  end.

(** [xs.map(f)] for a callback that may throw: the first exception ends
    the loop. *)
Fixpoint mapResult {A B : Type} (f : A -> result B) (xs : list A) : result (list B) :=
  match xs with
  | [] => Ok []
  | x :: rest =>
      bind (f x) (fun y => bind (mapResult f rest) (fun ys => Ok (y :: ys)))
  end.

Definition toMarkup (renderables : Renderable) : result (list Markup) :=
  let renderables :=
    match renderables with
    | RArray items => items
    | x => [x]
    end in
  mapResult toMarkupItem (filter kept (flatInfinity renderables)).

(** [makeMarkup(type, attributes, ...children)]. *)
Definition makeMarkup (type : MarkupType) (attributes : Attributes)
    (children : list Renderable) : result Markup :=
  bind (toMarkup (RArray children)) (fun cs => Ok (mkMarkup type attributes cs)).

(** ** Properties *)

Definition isArray (x : Renderable) : bool :=
  match x with RArray _ => true | _ => false end.





(** Induction on renderables that goes through the items of an array. *)
Lemma Renderable_nested_ind (P : Renderable -> Prop) :
  P RNull -> P RUndefined -> (forall b, P (RBoolean b)) ->
  (forall s, P (RString s)) -> (forall n, P (RNumber n)) ->
  (forall r, P (RReadable r)) -> (forall m, P (RMarkup m)) ->
  (forall items, Forall P items -> P (RArray items)) ->
  (forall t, P (ROther t)) ->
  forall x, P x.
Proof.
  intros Hnull Hundef Hbool Hstr Hnum Hread Hmark Harr Hother.
  fix IH 1. intros [ | | b | s | n | r | m | items | t].
  - exact Hnull.
  - exact Hundef.
  - apply Hbool.
  - apply Hstr.
  - apply Hnum.
  - apply Hread.
  - apply Hmark.
  - apply Harr. induction items as [|y ys IHys]; constructor.
    + apply IH.
    + exact IHys.
  - apply Hother.
Qed.

Lemma flat_no_array (x : Renderable) :
  Forall (fun y => isArray y = false) (flat x).
Proof.
  induction x using Renderable_nested_ind; simpl;
    try (constructor; [reflexivity | constructor]).
  induction H as [|y ys Hy _ IH]; simpl; [constructor|].
  apply Forall_app. split; assumption.
Qed.

Lemma flatInfinity_no_array (xs : list Renderable) :
  Forall (fun y => isArray y = false) (flatInfinity xs).
Proof.
  induction xs as [|x rest IH]; simpl; [constructor|].
  apply Forall_app. split; [apply flat_no_array | exact IH].
Qed.








End Markup.

(* ===================================================================== *)
(** * Component instances: packages/client/lib/makers/initView.js *)
(* ===================================================================== *)

Module InitView.

Import Js.

(** The value of [element] after the setup function ran: a view (the
    result of [template.init]), a DOM node, or [null]. *)
Inductive Element : Type :=
| ElementView (view : nat)
| ElementDOM (node : nat)
| ElementNull.

(** The four lifecycle phases. *)
Inductive Hook : Type :=
| BeforeConnect
| AfterConnect
| BeforeDisconnect
| AfterDisconnect.

(** An entry of [afterConnectCallbacks]: a callback registered with
    [ctx.afterConnect], or the closure that [ctx.observe] pushes while the
    component is not connected. *)
Inductive AfterConnectCallback : Type :=
| Registered (callback : nat)
| StartObserver (observer : nat).

(** What the component does to the outside, in order.  [InsertBefore node
    parent after] is the call
    [parent.insertBefore(node, after ? after.nextSibling : null)]. *)
Inductive Event : Type :=
| Called (hook : Hook) (callback : nat)
| ObserverStarted (observer : nat)
| ViewConnect (view : nat) (parent : nat) (after : option nat)
| InsertBefore (node : nat) (parent : nat) (after : option nat)
| ViewDisconnect (view : nat)
| RemoveChild (node : nat)
| TransitionOutCalled
| Unsubscribed (subscription : nat).

(** The closure variables of [initView] that [connect] and [disconnect]
    read and write.  [transitionOutCallback] is [Some true] when the
    registered callback returns a promise, [Some false] when it returns
    something else.  [pendingTransitions] counts the [promise.then]
    continuations that have not run yet.  [parentNode] is
    [element.parentNode] when [element] is a DOM node: the node it is a
    child of, [None] for [null]. *)
Record Component : Type := {
  element : Element;
  beforeConnectCallbacks : list nat;
  afterConnectCallbacks : list AfterConnectCallback;
  beforeDisconnectCallbacks : list nat;
  afterDisconnectCallbacks : list nat;
  subscriptions : list nat;
  transitionOutCallback : option bool;
  isConnected : bool;
  pendingTransitions : nat;
  parentNode : option nat
}.

Definition withConnected (b : bool) (c : Component) : Component :=
  {| element := element c;
     beforeConnectCallbacks := beforeConnectCallbacks c;
     afterConnectCallbacks := afterConnectCallbacks c;
     beforeDisconnectCallbacks := beforeDisconnectCallbacks c;
     afterDisconnectCallbacks := afterDisconnectCallbacks c;
     subscriptions := subscriptions c;
     transitionOutCallback := transitionOutCallback c;
     isConnected := b;
     pendingTransitions := pendingTransitions c;
     parentNode := parentNode c |}.

Definition withSubscriptions (subs : list nat) (c : Component) : Component :=
  {| element := element c;
     beforeConnectCallbacks := beforeConnectCallbacks c;
     afterConnectCallbacks := afterConnectCallbacks c;
     beforeDisconnectCallbacks := beforeDisconnectCallbacks c;
     afterDisconnectCallbacks := afterDisconnectCallbacks c;
     subscriptions := subs;
     transitionOutCallback := transitionOutCallback c;
     isConnected := isConnected c;
     pendingTransitions := pendingTransitions c;
     parentNode := parentNode c |}.

Definition withPending (n : nat) (c : Component) : Component :=
  {| element := element c;
     beforeConnectCallbacks := beforeConnectCallbacks c;
     afterConnectCallbacks := afterConnectCallbacks c;
     beforeDisconnectCallbacks := beforeDisconnectCallbacks c;
     afterDisconnectCallbacks := afterDisconnectCallbacks c;
     subscriptions := subscriptions c;
     transitionOutCallback := transitionOutCallback c;
     isConnected := isConnected c;
     pendingTransitions := n;
     parentNode := parentNode c |}.

Definition withParentNode (p : option nat) (c : Component) : Component :=
  {| element := element c;
     beforeConnectCallbacks := beforeConnectCallbacks c;
     afterConnectCallbacks := afterConnectCallbacks c;
     beforeDisconnectCallbacks := beforeDisconnectCallbacks c;
     afterDisconnectCallbacks := afterDisconnectCallbacks c;
     subscriptions := subscriptions c;
     transitionOutCallback := transitionOutCallback c;
     isConnected := isConnected c;
     pendingTransitions := pendingTransitions c;
     parentNode := p |}.

(** ** The context object *)

(** [ctx.beforeConnect(callback)] and its three siblings. *)
Definition register (hook : Hook) (callback : nat) (c : Component) : Component :=
  {| element := element c;
     beforeConnectCallbacks :=
       match hook with
       | BeforeConnect => beforeConnectCallbacks c ++ [callback]
       | _ => beforeConnectCallbacks c
       end;
     afterConnectCallbacks :=
       match hook with
       | AfterConnect => afterConnectCallbacks c ++ [Registered callback]
       | _ => afterConnectCallbacks c
       end;
     beforeDisconnectCallbacks :=
       match hook with
       | BeforeDisconnect => beforeDisconnectCallbacks c ++ [callback]
       | _ => beforeDisconnectCallbacks c
       end;
     afterDisconnectCallbacks :=
       match hook with
       | AfterDisconnect => afterDisconnectCallbacks c ++ [callback]
       | _ => afterDisconnectCallbacks c
       end;
     subscriptions := subscriptions c;
     transitionOutCallback := transitionOutCallback c;
     isConnected := isConnected c;
     pendingTransitions := pendingTransitions c;
     parentNode := parentNode c |}.

(** [ctx.observe(...)]: started at once when connected, otherwise queued
    as an after-connect callback. *)
Definition observe (observer : nat) (c : Component) : Component * list Event :=
  if isConnected c
  then (withSubscriptions (subscriptions c ++ [observer]) c,
        [ObserverStarted observer])
  else ({| element := element c;
           beforeConnectCallbacks := beforeConnectCallbacks c;
           afterConnectCallbacks := afterConnectCallbacks c ++ [StartObserver observer];
           beforeDisconnectCallbacks := beforeDisconnectCallbacks c;
           afterDisconnectCallbacks := afterDisconnectCallbacks c;
           subscriptions := subscriptions c;
           transitionOutCallback := transitionOutCallback c;
           isConnected := isConnected c;
           pendingTransitions := pendingTransitions c;
           parentNode := parentNode c |}, []).

(** ** The component object *)

(** [element.connect(parent, after)] or
    [parent.insertBefore(element, after ? after.nextSibling : null)].
    [after], when given, is a child of [parent], as the documentation of
    [connect] asks, so the insertion succeeds; the inserted node then has
    [parent] as its parent node, wherever it was before. *)
Definition mount (parent : nat) (after : option nat) (c : Component)
    : Component * list Event :=
  match element c with
  | ElementView v => (c, [ViewConnect v parent after])
  | ElementDOM n => (withParentNode (Some parent) c, [InsertBefore n parent after])
  | ElementNull => (c, [])
  end.

(** [element.disconnect()] or [element.parentNode.removeChild(element)];
    the latter reads a property of [null] when the node has no parent. *)
Definition unmount (c : Component) : result (Component * list Event) :=
  match element c with
  | ElementView v => Ok (c, [ViewDisconnect v])
  | ElementDOM n =>
      match parentNode c with
      | Some _ => Ok (withParentNode None c, [RemoveChild n])
      | None => Throw (TypeError "null has no property removeChild"%string)
      end
  | ElementNull => Ok (c, [])
  end.

(** [for (const callback of afterConnectCallbacks) callback()]. *)
Fixpoint runAfterConnect (callbacks : list AfterConnectCallback)
    (subs : list nat) : list nat * list Event :=
  match callbacks with
  | [] => (subs, [])
  | Registered cb :: rest =>
      let '(subs', evs) := runAfterConnect rest subs in
      (subs', Called AfterConnect cb :: evs)
  | StartObserver o :: rest =>
      let '(subs', evs) := runAfterConnect rest (subs ++ [o]) in
      (subs', ObserverStarted o :: evs)
  end.

(** [component.connect(parent, after = null)]. *)
Definition connect (parent : nat) (after : option nat) (c : Component)
    : Component * list Event :=
  let wasConnected := isConnected c in
  let before :=
    if wasConnected then []
    else map (Called BeforeConnect) (beforeConnectCallbacks c) in
  let '(c, mounted) := mount parent after c in
  let c := withConnected true c in
  if wasConnected then (c, before ++ mounted)
  else
    let '(subs, evs) := runAfterConnect (afterConnectCallbacks c) (subscriptions c) in
    (withSubscriptions subs c, before ++ mounted ++ evs).

(** What a call leaves behind: the closure variables, the trace, and the
    exception when the call ends by throwing one (what it did before
    stays). *)
Definition Outcome : Type := (Component * list Event * option JsError)%type.

(** The statements shared by both branches of [disconnect] after the
    before-disconnect callbacks: unmount, clear the flag, run the
    after-disconnect callbacks, unsubscribe. *)
Definition teardown (c : Component) : Outcome :=
  match unmount c with
  | Throw e => (c, [], Some e)
  | Ok (c1, unmounted) =>
      (withSubscriptions [] (withConnected false c1),
       unmounted
       ++ map (Called AfterDisconnect) (afterDisconnectCallbacks c)
       ++ map Unsubscribed (subscriptions c),
       None)
  end.

(** [component.disconnect({ allowTransitionOut = false } = {})]. *)
Definition disconnect (allowTransitionOut : bool) (c : Component) : Outcome :=
  if isConnected c then
    match allowTransitionOut, transitionOutCallback c with
    | true, Some returnsPromise =>
        if returnsPromise then
          (withPending (S (pendingTransitions c)) c,
           TransitionOutCalled
           :: map (Called BeforeDisconnect) (beforeDisconnectCallbacks c),
           None)
        else
          (c, [TransitionOutCalled],
           Some (TypeError "transitionOut callback must return a promise."%string))
    | _, _ =>
        let '(c', evs, thrown) := teardown c in
        (c', map (Called BeforeDisconnect) (beforeDisconnectCallbacks c) ++ evs,
         thrown)
    end
  else (c, [], None).

(** The continuation passed to [promise.then] in [disconnect], run when
    a transition promise is fulfilled. *)
Definition transitionSettled (c : Component) : Outcome :=
  match pendingTransitions c with
  | 0 => (c, [], None)
  | S n => teardown (withPending n c)
  end.

(** ** Sequences of calls *)

(** What the framework and the promises do with the component object:
    [OpDisconnect] is [disconnect()] with the default
    [allowTransitionOut = false], [OpDisconnectWithTransition] is
    [disconnect({ allowTransitionOut: true })], and [OpTransitionEnd] is
    the fulfilment of one pending transition promise. *)
Inductive Op : Type :=
| OpConnect (parent : nat) (after : option nat)
| OpDisconnect
| OpDisconnectWithTransition
| OpTransitionEnd.

(** One call; an exception ends the call and is seen by the caller. *)
Definition step (op : Op) (c : Component) : Component * list Event :=
  match op with
  | OpConnect parent after => connect parent after c
  | OpDisconnect => fst (disconnect false c)
  | OpDisconnectWithTransition => fst (disconnect true c)
  | OpTransitionEnd => fst (transitionSettled c)
  end.

Fixpoint run (ops : list Op) (c : Component) : Component * list Event :=
  match ops with
  | [] => (c, [])
  | op :: rest =>
      let '(c1, evs1) := step op c in
      let '(c2, evs2) := run rest c1 in
      (c2, evs1 ++ evs2)
  end.

(** ** Observations on traces *)







(** No disconnect is asked for while a transition promise is pending. *)
Fixpoint orderly (ops : list Op) (c : Component) : bool :=
  match ops with
  | [] => true
  | op :: rest =>
      match op with
      | OpDisconnect | OpDisconnectWithTransition =>
          Nat.eqb (pendingTransitions c) 0
      | _ => true
      end
      && orderly rest (fst (step op c))
  end.

(** The component as [initView] returns it: not connected, and no
    transition under way. *)
Definition fresh (c : Component) : Component :=
  withPending 0 (withConnected false c).

(** [k] copies of [l], one after the other. *)
Fixpoint times {A : Type} (k : nat) (l : list A) : list A :=
  match k with
  | 0 => []
  | S k' => l ++ times k' l
  end.


(** ** Traces of the parts of a call *)









(** ** One call *)




















(** ** Orderly sequences *)












(** ** Examples *)

(** A component whose element is the view 7, with one callback for every
    phase (1, 2, 3 and 4) and a transition-out callback that returns a
    promise. *)
Definition exampleComponent : Component :=
  {| element := ElementView 7;
     beforeConnectCallbacks := [1];
     afterConnectCallbacks := [Registered 2];
     beforeDisconnectCallbacks := [3];
     afterDisconnectCallbacks := [4];
     subscriptions := [];
     transitionOutCallback := Some true;
     isConnected := false;
     pendingTransitions := 0;
     parentNode := None |}.

(** A [connect] while the transition promise is pending runs no callback;
    the promise then takes the component out, and the next [connect] runs
    the connect callbacks again. *)
Example connect_during_transition :
  orderly [OpConnect 0 None; OpDisconnectWithTransition; OpConnect 0 (Some 5);
           OpTransitionEnd; OpConnect 0 None] exampleComponent = true /\
  snd (run [OpConnect 0 None; OpDisconnectWithTransition; OpConnect 0 (Some 5);
            OpTransitionEnd; OpConnect 0 None] exampleComponent)
  = [Called BeforeConnect 1; ViewConnect 7 0 None; Called AfterConnect 2;
     TransitionOutCalled; Called BeforeDisconnect 3;
     ViewConnect 7 0 (Some 5);
     ViewDisconnect 7; Called AfterDisconnect 4;
     Called BeforeConnect 1; ViewConnect 7 0 None; Called AfterConnect 2].
Proof. split; reflexivity. Qed.

(** Why the statement on the disconnect callbacks is about orderly
    sequences: a second [disconnect] while the promise is pending runs the
    disconnect callbacks, and the promise runs the after-disconnect
    callbacks once more, on a component that is not connected any more. *)
Example disconnect_during_transition :
  orderly [OpConnect 0 None; OpDisconnectWithTransition; OpDisconnect;
           OpTransitionEnd] exampleComponent = false /\
  snd (run [OpConnect 0 None; OpDisconnectWithTransition; OpDisconnect;
            OpTransitionEnd] exampleComponent)
  = [Called BeforeConnect 1; ViewConnect 7 0 None; Called AfterConnect 2;
     TransitionOutCalled; Called BeforeDisconnect 3;
     Called BeforeDisconnect 3; ViewDisconnect 7; Called AfterDisconnect 4;
     ViewDisconnect 7; Called AfterDisconnect 4].
Proof. split; reflexivity. Qed.

End InitView.

(* ===================================================================== *)
(** * Stores: classes/Store.ts *)
(* ===================================================================== *)

Module Store.

Import Js.

Inductive Lifecycle : Type :=
| OnConnect
| OnDisconnect.

(** An entry of [#lifecycleCallbacks.onConnect]: a callback given to
    [ctx.onConnect], or the closure that [ctx.observe] pushes while the
    store is not connected. *)
Inductive ConnectCallback : Type :=
| Registered (callback : nat)
| StartObserver (observer : nat).

(** What the setup function does with its context. *)
Inductive SetupCall : Type :=
| CallOnConnect (callback : nat)
| CallOnDisconnect (callback : nat)
| CallObserve (observer : nat).

Inductive Event : Type :=
| SetupRun
| InputsConnect
| InputsDisconnect
| NodeInserted (parent : nat) (after : option nat)
| NodeRemoved
| OutletConnect (parent : nat) (after : option nat)
| OutletDisconnect
| Called (phase : Lifecycle) (callback : nat)
| ObserverStarted (observer : nat)
| Stopped (observer : nat).

(** The fields of a [Store] instance.  [attached] is the state of the
    base class (see [isConnected] below); [hashIsConnected] is the private
    field [#isConnected], written by [afterConnect] and
    [afterDisconnect].  [setup] lists what the setup function does each
    time [#initialize] runs it, [outputsAreObject] whether it returns an
    object. *)
Record Store : Type := {
  attached : bool;
  hashIsConnected : bool;
  onConnectCallbacks : list ConnectCallback;
  onDisconnectCallbacks : list nat;
  stopCallbacks : list nat;
  setup : list SetupCall;
  outputsAreObject : bool
}.

Definition withAttached (b : bool) (s : Store) : Store :=
  {| attached := b; hashIsConnected := hashIsConnected s;
     onConnectCallbacks := onConnectCallbacks s;
     onDisconnectCallbacks := onDisconnectCallbacks s;
     stopCallbacks := stopCallbacks s; setup := setup s;
     outputsAreObject := outputsAreObject s |}.

Definition withHashIsConnected (b : bool) (s : Store) : Store :=
  {| attached := attached s; hashIsConnected := b;
     onConnectCallbacks := onConnectCallbacks s;
     onDisconnectCallbacks := onDisconnectCallbacks s;
     stopCallbacks := stopCallbacks s; setup := setup s;
     outputsAreObject := outputsAreObject s |}.

Definition withStopCallbacks (stops : list nat) (s : Store) : Store :=
  {| attached := attached s; hashIsConnected := hashIsConnected s;
     onConnectCallbacks := onConnectCallbacks s;
     onDisconnectCallbacks := onDisconnectCallbacks s;
     stopCallbacks := stops; setup := setup s;
     outputsAreObject := outputsAreObject s |}.

(** ** The base class *)

(** Modelled from the spec: the base class [Connectable]
    (classes/Connectable.js) is not among the sources.  A DOM handle
    exposes "a boolean connected flag", and "disconnecting removes the node
    from its parent": the flag tells whether the handle's node is attached
    to a parent node.  (The subclasses that are among the sources read
    [this.isConnected] and never write it; they only insert and remove
    their node.) *)
Definition isConnected (s : Store) : bool := attached s.

(** Modelled from the spec: [Connectable.connect(parent, after)] inserts
    the handle's node under [parent]. *)
Definition superConnect (parent : nat) (after : option nat) (s : Store)
    : Store * list Event :=
  (withAttached true s, [NodeInserted parent after]).

(** Modelled from the spec: [Connectable.disconnect()] removes the node
    from its parent when it has one. *)
Definition superDisconnect (s : Store) : Store * list Event :=
  if attached s then (withAttached false s, [NodeRemoved]) else (s, []).

(** ** The store *)

(** One call of the setup function on the context object built by
    [#initialize]. *)
Definition applySetupCall (s : Store) (call : SetupCall) : Store * list Event :=
  match call with
  | CallOnConnect cb =>
      ({| attached := attached s; hashIsConnected := hashIsConnected s;
          onConnectCallbacks := onConnectCallbacks s ++ [Registered cb];
          onDisconnectCallbacks := onDisconnectCallbacks s;
          stopCallbacks := stopCallbacks s; setup := setup s;
          outputsAreObject := outputsAreObject s |}, [])
  | CallOnDisconnect cb =>
      ({| attached := attached s; hashIsConnected := hashIsConnected s;
          onConnectCallbacks := onConnectCallbacks s;
          onDisconnectCallbacks := onDisconnectCallbacks s ++ [cb];
          stopCallbacks := stopCallbacks s; setup := setup s;
          outputsAreObject := outputsAreObject s |}, [])
  | CallObserve o =>
      if isConnected s
      then (withStopCallbacks (stopCallbacks s ++ [o]) s, [ObserverStarted o])
      else ({| attached := attached s; hashIsConnected := hashIsConnected s;
               onConnectCallbacks := onConnectCallbacks s ++ [StartObserver o];
               onDisconnectCallbacks := onDisconnectCallbacks s;
               stopCallbacks := stopCallbacks s; setup := setup s;
               outputsAreObject := outputsAreObject s |}, [])
  end.

Fixpoint applySetup (s : Store) (calls : list SetupCall) : Store * list Event :=
  match calls with
  | [] => (s, [])
  | call :: rest =>
      let '(s1, evs1) := applySetupCall s call in
      let '(s2, evs2) := applySetup s1 rest in
      (s2, evs1 ++ evs2)
  end.

(** [#initialize(parent, after)] for a setup function that returns at
    once (no pending promise, so no loading content). *)
Definition initialize (s : Store) : result (Store * list Event) :=
  let '(s1, evs) := applySetup s (setup s) in
  if outputsAreObject s
  then Ok (s1, SetupRun :: evs)
  else Throw (TypeError "A store setup function must return an object."%string).

(** [beforeConnect()]. *)
Definition beforeConnect (s : Store) : Store * list Event := (s, [InputsConnect]).

(** [for (const callback of this.#lifecycleCallbacks.onConnect) callback()]. *)
Fixpoint runOnConnect (callbacks : list ConnectCallback) (stops : list nat)
    : list nat * list Event :=
  match callbacks with
  | [] => (stops, [])
  | Registered cb :: rest =>
      let '(stops', evs) := runOnConnect rest stops in
      (stops', Called OnConnect cb :: evs)
  | StartObserver o :: rest =>
      let '(stops', evs) := runOnConnect rest (stops ++ [o]) in
      (stops', ObserverStarted o :: evs)
  end.

(** [afterConnect()]. *)
Definition afterConnect (s : Store) : Store * list Event :=
  let s := withHashIsConnected true s in
  let '(stops, evs) := runOnConnect (onConnectCallbacks s) (stopCallbacks s) in
  (withStopCallbacks stops s, evs).

(** [beforeDisconnect()]: stops every active subscription, then
    disconnects the inputs. *)
Definition beforeDisconnect (s : Store) : Store * list Event :=
  (withStopCallbacks [] s, map Stopped (stopCallbacks s) ++ [InputsDisconnect]).

(** [afterDisconnect()]. *)
Definition afterDisconnect (s : Store) : Store * list Event :=
  (withHashIsConnected false s, map (Called OnDisconnect) (onDisconnectCallbacks s)).

(** [connect(parent, after)]. *)
Definition connect (parent : nat) (after : option nat) (s : Store)
    : result (Store * list Event) :=
  let wasConnected := isConnected s in
  bind (if negb wasConnected
        then bind (initialize s) (fun '(s1, evs1) =>
             let '(s2, evs2) := beforeConnect s1 in Ok (s2, evs1 ++ evs2))
        else Ok (s, [])) (fun '(s2, evsA) =>
  let '(s3, evsB) := superConnect parent after s2 in
  let evsC := [OutletConnect parent after] in
  let '(s4, evsD) := if negb wasConnected then afterConnect s3 else (s3, []) in
  Ok (s4, evsA ++ evsB ++ evsC ++ evsD)).

(** [disconnect()]. *)
Definition disconnect (s : Store) : Store * list Event :=
  let wasConnected := isConnected s in
  let '(s1, evsA) := if negb wasConnected then beforeDisconnect s else (s, []) in
  let evsB := [OutletDisconnect] in
  let '(s2, evsC) := superDisconnect s1 in
  let '(s3, evsD) := if negb wasConnected then afterDisconnect s2 else (s2, []) in
  (s3, evsA ++ evsB ++ evsC ++ evsD).

(** ** Properties *)

(** The observers that a trace shows as stopped, and the disconnect
    callbacks it shows as invoked. *)
Definition stoppedIn (evs : list Event) : list nat :=
  flat_map (fun e => match e with Stopped o => [o] | _ => [] end) evs.

Definition onDisconnectCalledIn (evs : list Event) : list nat :=
  flat_map (fun e => match e with Called OnDisconnect cb => [cb] | _ => [] end) evs.

(** A store whose setup function observes readable 1 and registers the
    disconnect callback 7; it has not been connected yet. *)
Definition freshStore : Store :=
  {| attached := false; hashIsConnected := false;
     onConnectCallbacks := []; onDisconnectCallbacks := [];
     stopCallbacks := [];
     setup := [CallObserve 1; CallOnDisconnect 7];
     outputsAreObject := true |}.

Lemma stoppedIn_app (a b : list Event) :
  stoppedIn (a ++ b) = stoppedIn a ++ stoppedIn b.
Proof. apply flat_map_app. Qed.

Lemma onDisconnectCalledIn_app (a b : list Event) :
  onDisconnectCalledIn (a ++ b) = onDisconnectCalledIn a ++ onDisconnectCalledIn b.
Proof. apply flat_map_app. Qed.

Lemma stoppedIn_Stopped (os : list nat) : stoppedIn (map Stopped os) = os.
Proof. induction os as [|o rest IH]; simpl; [reflexivity | now f_equal]. Qed.

Lemma stoppedIn_Called (phase : Lifecycle) (cbs : list nat) :
  stoppedIn (map (Called phase) cbs) = [].
Proof. induction cbs as [|cb rest IH]; simpl; [reflexivity | exact IH]. Qed.

Lemma onDisconnectCalledIn_Stopped (os : list nat) :
  onDisconnectCalledIn (map Stopped os) = [].
Proof. induction os as [|o rest IH]; simpl; [reflexivity | exact IH]. Qed.

Lemma onDisconnectCalledIn_Called (cbs : list nat) :
  onDisconnectCalledIn (map (Called OnDisconnect) cbs) = cbs.
Proof. induction cbs as [|cb rest IH]; simpl; [reflexivity | now f_equal]. Qed.

(** C4 (what the code does): [disconnect] tests [!wasConnected], as
    [connect] does.  On a connected store it therefore stops no
    subscription and invokes no disconnect callback (first part: the store
    obtained by connecting [freshStore]; second part: every connected
    store); both phases run only when [disconnect] is called on a store
    that is not connected (third part). *)
Theorem disconnect_runs_hooks_only_when_not_connected :
  (exists s,
     connect 0 None freshStore
       = Ok (s, [SetupRun; InputsConnect; NodeInserted 0 None;
                 OutletConnect 0 None; ObserverStarted 1]) /\
     isConnected s = true /\ stopCallbacks s = [1] /\
     onDisconnectCallbacks s = [7] /\
     snd (disconnect s) = [OutletDisconnect; NodeRemoved] /\
     stopCallbacks (fst (disconnect s)) = [1]) /\
  (forall s : Store,
     stoppedIn (snd (disconnect (withAttached true s))) = [] /\
     onDisconnectCalledIn (snd (disconnect (withAttached true s))) = [] /\
     stopCallbacks (fst (disconnect (withAttached true s))) = stopCallbacks s /\
     isConnected (fst (disconnect (withAttached true s))) = false) /\
  (forall s : Store,
     stoppedIn (snd (disconnect (withAttached false s))) = stopCallbacks s /\
     onDisconnectCalledIn (snd (disconnect (withAttached false s)))
       = onDisconnectCallbacks s).
Proof.
  split; [|split].
  - eexists. split; [reflexivity|]. repeat split.
  - intros s. repeat split.
  - intros s.
    assert (H : snd (disconnect (withAttached false s)) =
                (map Stopped (stopCallbacks s) ++ [InputsDisconnect])
                ++ [OutletDisconnect] ++ []
                ++ map (Called OnDisconnect) (onDisconnectCallbacks s))
      by reflexivity.
    rewrite H. split.
    + rewrite !stoppedIn_app, stoppedIn_Stopped, stoppedIn_Called.
      cbn. now rewrite !app_nil_r.
    + rewrite !onDisconnectCalledIn_app, onDisconnectCalledIn_Stopped,
        onDisconnectCalledIn_Called. reflexivity.
Qed.

End Store.

(* ===================================================================== *)
(** * The keyed list: [MapComponent] (elements/map.ts) *)
(* ===================================================================== *)

Module MapComponent.

Import Js.

(** A key is a string or a number.  [KeyNumber n] is a number other than
    [NaN], named by an integer (two such keys are the same number exactly
    when the integers are equal); [KeyNaN] is the number [NaN]. *)
Inductive Key : Type :=
| KeyNumber (n : Z)
| KeyNaN
| KeyString (s : string).

(** [a === b]: never true of a string and a number, and never true of
    [NaN], not even of [NaN] and itself. *)
Definition Key_eqb (a b : Key) : bool :=
  match a, b with
  | KeyNumber x, KeyNumber y => Z.eqb x y
  | KeyString x, KeyString y => String.eqb x y
  | _, _ => false
  end.

(** The comparison of [Array.prototype.includes] (SameValueZero): as
    [===], but [NaN] is the same as [NaN]. *)
Definition sameValueZero (a b : Key) : bool :=
  match a, b with
  | KeyNaN, KeyNaN => true
  | _, _ => Key_eqb a b
  end.

(** [MapStateItem]; a component is known by its identity. *)
Record MapStateItem : Type := {
  index : nat;
  key : Key;
  component : nat
}.

(** The entries of the local arrays [added], [removed] and [moved]. *)
Record Added : Type := { added_i : nat; added_key : Key }.
Record Removed : Type := { removed_i : nat; removed_key : Key }.
Record Moved : Type := { from : nat; to : nat; moved_key : Key }.

(** The callback given to [requestAnimationFrame] closes over [removed]
    and [newState]. *)
Record Frame : Type := {
  frame_removed : list Removed;
  frame_newState : list MapStateItem
}.

(** The calls made on the item components during a frame. *)
Inductive DomCall : Type :=
| Disconnect (c : nat)
| Connect (c : nat) (parent : option nat) (after : nat).

(** The instance fields; [nextComponent] is the identity that the next
    component constructed by [createItem] gets, [frames] the callbacks
    waiting for an animation frame, oldest first. *)
Record Handle : Type := {
  state : list MapStateItem;
  root : nat;
  parent : option nat;
  nextComponent : nat;
  frames : list Frame
}.

Section Update.

Variable T : Type.

(** The caller's key function. *)
Variable getKey : T -> Key.

(** [rootOf c] is [Some n] when the component [c] has an own property
    [root], the node [n]. *)
Variable rootOf : nat -> option nat.

(** [this.state.find((item) => item.key === key)]. *)
Definition findTracked (st : list MapStateItem) (k : Key) : option MapStateItem :=
  find (fun item => Key_eqb (key item) k) st.

(** The first loop of [update], from index [i] on. *)
Fixpoint classify (st : list MapStateItem) (newKeys : list Key) (i : nat)
    : list Added * list Moved :=
  match newKeys with
  | [] => ([], [])
  | k :: rest =>
      let '(added, moved) := classify st rest (S i) in
      match findTracked st k with
      | Some tracked =>
          if Nat.eqb (index tracked) i then (added, moved)
          else (added, {| from := index tracked; to := i; moved_key := k |} :: moved)
      | None => ({| added_i := i; added_key := k |} :: added, moved)
      end
  end.

(** The second loop: the tracked entries whose key [newKeys] lacks
    ([newKeys.includes(tracked.key)]). *)
Definition removedOf (st : list MapStateItem) (newKeys : list Key) : list Removed :=
  map (fun tracked => {| removed_i := index tracked; removed_key := key tracked |})
      (filter (fun tracked => negb (existsb (sameValueZero (key tracked)) newKeys))
              st).

(** The third loop, from index [i] on.  [next] is the identity of the next
    component that [createItem] constructs; the second component of the
    result lists the calls of [createItem], each with its argument and the
    component it returned.  The non-null assertion on the result of [find]
    is a property access on [undefined] when nothing is found. *)
Fixpoint buildState (st : list MapStateItem) (added : list Added)
    (items : list T) (i next : nat)
    : result (list MapStateItem * list (T * nat) * nat) :=
  match items with
  | [] => Ok ([], [], next)
  | x :: rest =>
      let k := getKey x in
      if existsb (fun a => Key_eqb (added_key a) k) added then
        bind (buildState st added rest (S i) (S next)) (fun '(newState, created, next') =>
        Ok ({| index := i; key := k; component := next |} :: newState,
            (x, next) :: created, next'))
      else
        match findTracked st k with
        | Some tracked =>
            bind (buildState st added rest (S i) next) (fun '(newState, created, next') =>
            Ok ({| index := i; key := k; component := component tracked |} :: newState,
                created, next'))
        | None =>
            Throw (TypeError "undefined has no property component"%string)
        end
  end.

(** [update(list)]: the new state is computed at once and handed, with
    [removed], to an animation-frame callback; [this.state] is not written
    here. *)
Definition update (items : list T) (h : Handle)
    : result (Handle * list (T * nat)) :=
  let newKeys := map getKey items in
  let '(added, moved) := classify (state h) newKeys 0 in
  let removed := removedOf (state h) newKeys in
  bind (buildState (state h) added items 0 (nextComponent h))
       (fun '(newState, created, next) =>
  Ok ({| state := state h; root := root h; parent := parent h;
         nextComponent := next;
         frames := frames h ++ [{| frame_removed := removed;
                                   frame_newState := newState |}] |},
      created)).

(** The first loop of the frame callback. *)
Definition unmountRemoved (st : list MapStateItem) (removed : list Removed)
    : list DomCall :=
  flat_map (fun entry =>
              match findTracked st (removed_key entry) with
              | Some item => [Disconnect (component item)]
              | None => []
              end) removed.

(** The second loop of the frame callback. *)
Fixpoint remount (parent : option nat) (previous : nat)
    (newState : list MapStateItem) : list DomCall :=
  match newState with
  | [] => []
  | item :: rest =>
      Connect (component item) parent previous
      :: remount parent
           (match rootOf (component item) with
            | Some r => r
            | None => previous
            end) rest
  end.

(** The browser runs the oldest waiting animation-frame callback. *)
Definition runFrame (h : Handle) : Handle * list DomCall :=
  match frames h with
  | [] => (h, [])
  | f :: waiting =>
      ({| state := frame_newState f; root := root h; parent := parent h;
          nextComponent := nextComponent h; frames := waiting |},
       unmountRemoved (state h) (frame_removed f)
       ++ remount (parent h) (root h) (frame_newState f))
  end.

(** ** The children of the parent node *)

(** Modelled from the spec: the class [Component] is not among the
    sources.  Connecting a component places its root node "after its
    predecessor's root node (or the list's own anchor node if first)":
    the node is taken out of the child list, if it is there, and put
    behind [after] (at the end when [after] is not a child). *)
Fixpoint insertAfter (n after : nat) (children : list nat) : list nat :=
  match children with
  | [] => [n]
  | x :: rest =>
      if Nat.eqb x after then x :: n :: rest
      else x :: insertAfter n after rest
  end.

(** Modelled from the spec: "disconnecting removes the node from its
    parent"; [Component.disconnect] is not among the sources either. *)
Definition removeNode (n : nat) (children : list nat) : list nat :=
  filter (fun x => negb (Nat.eqb x n)) children.

(** Modelled from the spec: the effect of one call on the child list of
    the parent node; disconnecting removes the component's root node. *)
Definition applyCall (children : list nat) (call : DomCall) : list nat :=
  match call with
  | Disconnect c =>
      match rootOf c with
      | Some n => removeNode n children
      | None => children
      end
  | Connect c _ after =>
      match rootOf c with
      | Some n => insertAfter n after (removeNode n children)
      | None => children
      end
  end.

Definition applyCalls (calls : list DomCall) (children : list nat) : list nat :=
  fold_left applyCall calls children.

(** ** Notions used in the statements *)

(** The state and the calls of [createItem] that the third loop computes,
    written without [added]: an item is looked up among the tracked
    entries, and a component is constructed when there is none. *)
Fixpoint nextState (st : list MapStateItem) (items : list T) (i next : nat)
    : list MapStateItem * list (T * nat) * nat :=
  match items with
  | [] => ([], [], next)
  | x :: rest =>
      match findTracked st (getKey x) with
      | Some tracked =>
          let '(newState, created, next') := nextState st rest (S i) next in
          ({| index := i; key := getKey x; component := component tracked |}
             :: newState, created, next')
      | None =>
          let '(newState, created, next') := nextState st rest (S i) (S next) in
          ({| index := i; key := getKey x; component := next |} :: newState,
           (x, next) :: created, next')
      end
  end.

(** The key and the component of an entry. *)
Definition binding (e : MapStateItem) : Key * nat := (key e, component e).

(** The key for which a call of [createItem] was made. *)
Definition createdKey (call : T * nat) : Key := getKey (fst call).

(** Pairwise distinct keys, none of them [NaN]. *)
Definition distinctKeys (keys : list Key) : Prop :=
  NoDup keys /\ ~ In KeyNaN keys.

(** The tracked states that updates with pairwise distinct keys lead to,
    each update being followed by its frame: distinct keys, distinct
    components, all of them constructed already, no frame waiting. *)
Definition settled (h : Handle) : Prop :=
  distinctKeys (map key (state h)) /\
  NoDup (map component (state h)) /\
  Forall (fun e => component e < nextComponent h) (state h) /\
  frames h = [].

(** ** Properties of [update] *)

Lemma Key_eqb_eq (a b : Key) :
  Key_eqb a b = true <-> a = b /\ a <> KeyNaN.
Proof.
  destruct a as [x| |x], b as [y| |y]; simpl; split;
    try (intros H; discriminate H);
    try (intros [H Hn]; try discriminate H; now destruct Hn).
  - intros H. apply Z.eqb_eq in H. subst. split; [reflexivity | discriminate].
  - intros [H _]. inversion H. apply Z.eqb_refl.
  - intros H. apply String.eqb_eq in H. subst.
    split; [reflexivity | discriminate].
  - intros [H _]. inversion H. apply String.eqb_refl.
Qed.

Lemma Key_eqb_refl (a : Key) : a <> KeyNaN -> Key_eqb a a = true.
Proof. intros H. now apply Key_eqb_eq. Qed.

Lemma Key_eqb_NaN (a : Key) : Key_eqb a KeyNaN = false.
Proof. now destruct a. Qed.

Lemma Key_eqb_sym (a b : Key) : Key_eqb a b = Key_eqb b a.
Proof.
  destruct a as [x| |x], b as [y| |y]; simpl; try reflexivity.
  - apply Z.eqb_sym.
  - apply String.eqb_sym.
Qed.

Lemma sameValueZero_eq (a b : Key) : sameValueZero a b = true <-> a = b.
Proof.
  destruct a as [x| |x], b as [y| |y]; simpl; split; intros H;
    try discriminate H; try reflexivity.
  - apply Z.eqb_eq in H. now subst.
  - inversion H. apply Z.eqb_refl.
  - apply String.eqb_eq in H. now subst.
  - inversion H. apply String.eqb_refl.
Qed.

(** [newKeys.includes(k)]. *)
Lemma includes_In (k : Key) (keys : list Key) :
  existsb (sameValueZero k) keys = true <-> In k keys.
Proof.
  rewrite existsb_exists. split.
  - intros [k' [Hin Heq]]. apply sameValueZero_eq in Heq. now subst.
  - intros Hin. exists k. split; [exact Hin | now apply sameValueZero_eq].
Qed.

(** [keys.some((x) => x === k)] for a key that is not [NaN]. *)
Lemma some_In (k : Key) (keys : list Key) :
  k <> KeyNaN -> (existsb (Key_eqb k) keys = true <-> In k keys).
Proof.
  intros Hk. rewrite existsb_exists. split.
  - intros [k' [Hin Heq]]. apply Key_eqb_eq in Heq. destruct Heq as [<- _].
    exact Hin.
  - intros Hin. exists k. split; [exact Hin | now apply Key_eqb_refl].
Qed.

Lemma findTracked_Some (st : list MapStateItem) (k : Key) (e : MapStateItem) :
  findTracked st k = Some e -> In e st /\ key e = k /\ k <> KeyNaN.
Proof.
  intros H. apply find_some in H. destruct H as [Hin Hk].
  apply Key_eqb_eq in Hk. destruct Hk as [Hk Hn].
  split; [exact Hin|]. split; [exact Hk | now rewrite <- Hk].
Qed.

Lemma findTracked_None (st : list MapStateItem) (k : Key) :
  k <> KeyNaN -> (findTracked st k = None <-> ~ In k (map key st)).
Proof.
  intros Hn. unfold findTracked. split.
  - intros H Hin. apply in_map_iff in Hin. destruct Hin as [e [Hk He]].
    pose proof (find_none _ _ H e He) as Hf. simpl in Hf.
    rewrite Hk, Key_eqb_refl in Hf by exact Hn. discriminate Hf.
  - intros Hnot. destruct (find _ st) as [e|] eqn:Hf; [|reflexivity].
    exfalso. apply Hnot. apply find_some in Hf. destruct Hf as [Hin Hk].
    apply Key_eqb_eq in Hk. destruct Hk as [Hk _]. subst k. now apply in_map.
Qed.

(** No tracked entry is found for [NaN]. *)
Lemma findTracked_NaN (st : list MapStateItem) : findTracked st KeyNaN = None.
Proof.
  unfold findTracked. induction st as [|e rest IH]; [reflexivity|].
  cbn [find]. now rewrite Key_eqb_NaN.
Qed.

(** With distinct tracked keys, the entry found for the key of a tracked
    entry is that entry. *)
Lemma findTracked_own (st : list MapStateItem) (e : MapStateItem) :
  NoDup (map key st) -> In e st -> key e <> KeyNaN ->
  findTracked st (key e) = Some e.
Proof.
  unfold findTracked. induction st as [|e0 rest IH]; intros Hnd Hin Hn;
    [destruct Hin|].
  simpl in *. inversion Hnd as [|? ? Hnotin Hnd']; subst.
  destruct Hin as [-> | Hin].
  - now rewrite Key_eqb_refl.
  - destruct (Key_eqb (key e0) (key e)) eqn:Hk.
    + exfalso. apply Key_eqb_eq in Hk. destruct Hk as [Hk _].
      apply Hnotin. rewrite Hk. now apply in_map.
    + now apply IH.
Qed.

(** A key other than [NaN] is in [added] exactly when it is a new key that
    is not tracked; [NaN] is never found in [added]. *)
Lemma classify_added (st : list MapStateItem) (newKeys : list Key) (i : nat) (k : Key) :
  k <> KeyNaN ->
  (existsb (fun a => Key_eqb (added_key a) k) (fst (classify st newKeys i)) = true
   <-> In k newKeys /\ findTracked st k = None).
Proof.
  intros Hn. revert i. induction newKeys as [|k0 rest IH]; intros i; simpl.
  - split; [discriminate | intros [[] _]].
  - specialize (IH (S i)). destruct (classify st rest (S i)) as [added moved].
    simpl in IH.
    destruct (findTracked st k0) as [tracked|] eqn:Hf.
    + assert (Hfst : fst (if Nat.eqb (index tracked) i then (added, moved)
                          else (added, {| from := index tracked; to := i;
                                          moved_key := k0 |} :: moved)) = added)
        by now destruct (Nat.eqb (index tracked) i).
      rewrite Hfst, IH. split.
      * intros [Hin Hnone]. split; [now right | exact Hnone].
      * intros [[-> | Hin] Hnone]; [congruence | now split].
    + simpl. rewrite orb_true_iff, IH. split.
      * intros [Hk | [Hin Hnone]].
        -- apply Key_eqb_eq in Hk. destruct Hk as [Hk _]. subst k0.
           split; [now left | exact Hf].
        -- split; [now right | exact Hnone].
      * intros [[-> | Hin] Hnone].
        -- left. now apply Key_eqb_refl.
        -- right. now split.
Qed.

Lemma added_NaN (added : list Added) :
  existsb (fun a => Key_eqb (added_key a) KeyNaN) added = false.
Proof.
  induction added as [|a rest IH]; [reflexivity|].
  cbn [existsb]. now rewrite Key_eqb_NaN.
Qed.

(** The third loop throws when it comes to an item whose key is [NaN]:
    the key is neither found in [added] nor among the tracked entries. *)
Lemma buildState_NaN (st : list MapStateItem) (added : list Added)
    (items : list T) (i next : nat) :
  In KeyNaN (map getKey items) ->
  buildState st added items i next
  = Throw (TypeError "undefined has no property component"%string).
Proof.
  revert i next. induction items as [|x rest IH]; intros i next Hin;
    [destruct Hin|].
  cbn [buildState]. cbn [map] in Hin.
  destruct (existsb (fun a => Key_eqb (added_key a) (getKey x)) added) eqn:Hex.
  - destruct Hin as [Hx | Hin].
    + rewrite Hx, added_NaN in Hex. discriminate Hex.
    + now rewrite IH.
  - destruct (findTracked st (getKey x)) as [tracked|] eqn:Hf; [|reflexivity].
    destruct Hin as [Hx | Hin].
    + rewrite Hx, findTracked_NaN in Hf. discriminate Hf.
    + now rewrite IH.
Qed.

Lemma buildState_nextState (st : list MapStateItem) (added : list Added)
    (items : list T) (i next : nat) :
  (forall x, In x items ->
     (existsb (fun a => Key_eqb (added_key a) (getKey x)) added = true
      <-> findTracked st (getKey x) = None)) ->
  buildState st added items i next = Ok (nextState st items i next).
Proof.
  revert i next. induction items as [|x rest IH]; intros i next Hadded; simpl;
    [reflexivity|].
  pose proof (Hadded x (or_introl eq_refl)) as Hx.
  assert (Hrest : forall y, In y rest ->
            (existsb (fun a => Key_eqb (added_key a) (getKey y)) added = true
             <-> findTracked st (getKey y) = None))
    by (intros y Hy; apply Hadded; now right).
  destruct (existsb (fun a => Key_eqb (added_key a) (getKey x)) added) eqn:Hex.
  - rewrite (proj1 Hx eq_refl). rewrite (IH (S i) (S next) Hrest). simpl.
    now destruct (nextState st rest (S i) (S next)) as [[ns cr] nx].
  - destruct (findTracked st (getKey x)) as [tracked|] eqn:Hf.
    + rewrite (IH (S i) next Hrest). simpl.
      now destruct (nextState st rest (S i) next) as [[ns cr] nx].
    + destruct Hx as [_ Hx]. discriminate (Hx eq_refl).
Qed.

(** When no key is [NaN], [update] does not throw: the entry that the
    non-null assertion relies on is there. *)
Lemma update_nextState (items : list T) (h : Handle) :
  ~ In KeyNaN (map getKey items) ->
  update items h =
  let '(newState, created, next) := nextState (state h) items 0 (nextComponent h) in
  Ok ({| state := state h; root := root h; parent := parent h;
         nextComponent := next;
         frames := frames h ++ [{| frame_removed := removedOf (state h) (map getKey items);
                                   frame_newState := newState |}] |},
      created).
Proof.
  intros Hn. unfold update.
  pose proof (classify_added (state h) (map getKey items) 0) as Hadd.
  destruct (classify (state h) (map getKey items) 0) as [added moved].
  simpl in Hadd.
  rewrite buildState_nextState.
  - simpl. now destruct (nextState _ _ _ _) as [[ns cr] nx].
  - intros x Hx.
    assert (Hk : getKey x <> KeyNaN)
      by (intros Heq; apply Hn; rewrite <- Heq; now apply in_map).
    rewrite (Hadd (getKey x) Hk). split; [tauto|].
    intros Hnone. split; [now apply in_map | exact Hnone].
Qed.

(** When some key is [NaN], [update] throws, whatever is tracked. *)
Lemma update_NaN (items : list T) (h : Handle) :
  In KeyNaN (map getKey items) ->
  update items h
  = Throw (TypeError "undefined has no property component"%string).
Proof.
  intros Hin. unfold update.
  destruct (classify (state h) (map getKey items) 0) as [added moved].
  now rewrite buildState_NaN.
Qed.

Lemma nextState_keys (st : list MapStateItem) (items : list T) (i next : nat) :
  map key (fst (fst (nextState st items i next))) = map getKey items.
Proof.
  revert i next. induction items as [|x rest IH]; intros i next; simpl;
    [reflexivity|].
  destruct (findTracked st (getKey x)) as [t|].
  - specialize (IH (S i) next).
    destruct (nextState st rest (S i) next) as [[ns cr] nx]. simpl in *.
    now f_equal.
  - specialize (IH (S i) (S next)).
    destruct (nextState st rest (S i) (S next)) as [[ns cr] nx]. simpl in *.
    now f_equal.
Qed.

Lemma nextState_indexes (st : list MapStateItem) (items : list T) (i next : nat) :
  map index (fst (fst (nextState st items i next))) = seq i (length items).
Proof.
  revert i next. induction items as [|x rest IH]; intros i next; simpl;
    [reflexivity|].
  destruct (findTracked st (getKey x)) as [t|].
  - specialize (IH (S i) next).
    destruct (nextState st rest (S i) next) as [[ns cr] nx]. simpl in *.
    now f_equal.
  - specialize (IH (S i) (S next)).
    destruct (nextState st rest (S i) (S next)) as [[ns cr] nx]. simpl in *.
    now f_equal.
Qed.

Lemma nextState_created (st : list MapStateItem) (items : list T) (i next : nat) :
  let '(newState, created, next') := nextState st items i next in
  map fst created
    = filter (fun x => negb (existsb (Key_eqb (getKey x)) (map key st))) items /\
  map snd created = seq next (length created) /\
  next' = next + length created.
Proof.
  revert i next. induction items as [|x rest IH]; intros i next; simpl.
  - repeat split. lia.
  - destruct (findTracked st (getKey x)) as [t|] eqn:Hf.
    + specialize (IH (S i) next).
      destruct (nextState st rest (S i) next) as [[ns cr] nx].
      destruct IH as [H1 [H2 H3]].
      apply findTracked_Some in Hf. destruct Hf as [Hin [Hk Hn]].
      assert (Hex : existsb (Key_eqb (getKey x)) (map key st) = true).
      { apply some_In; [exact Hn|]. rewrite <- Hk. now apply in_map. }
      rewrite Hex. simpl. auto.
    + specialize (IH (S i) (S next)).
      destruct (nextState st rest (S i) (S next)) as [[ns cr] nx].
      destruct IH as [H1 [H2 H3]].
      assert (Hex : existsb (Key_eqb (getKey x)) (map key st) = false).
      { destruct (existsb _ _) eqn:He; [|reflexivity].
        apply existsb_exists in He. destruct He as [k' [Hin' Heq]].
        apply Key_eqb_eq in Heq. destruct Heq as [<- Hn].
        apply (findTracked_None st Hn) in Hf. contradiction. }
      rewrite Hex. simpl. repeat split.
      * now f_equal.
      * now f_equal.
      * lia.
Qed.

(** Where the component of an entry of the new state comes from. *)
Lemma nextState_origin (st : list MapStateItem) (items : list T) (i next : nat) :
  let '(newState, created, next') := nextState st items i next in
  forall e', In e' newState ->
    In (key e') (map getKey items) /\
    ((exists t, findTracked st (key e') = Some t /\ component e' = component t)
     \/ (findTracked st (key e') = None /\
         next <= component e' < next' /\
         exists x, In (x, component e') created /\ getKey x = key e')).
Proof.
  revert i next. induction items as [|x rest IH]; intros i next; simpl.
  - intros e' [].
  - pose proof (nextState_created st rest (S i) next) as Hc1.
    pose proof (nextState_created st rest (S i) (S next)) as Hc2.
    destruct (findTracked st (getKey x)) as [t|] eqn:Hf.
    + specialize (IH (S i) next).
      destruct (nextState st rest (S i) next) as [[ns cr] nx].
      intros e' [<- | Hin]; simpl.
      * split; [now left|]. left. exists t. now split.
      * destruct (IH e' Hin) as [Hk Hor]. split; [now right | exact Hor].
    + specialize (IH (S i) (S next)).
      destruct (nextState st rest (S i) (S next)) as [[ns cr] nx].
      destruct Hc2 as [_ [_ Hnx]].
      intros e' [<- | Hin]; simpl.
      * split; [now left|]. right. split; [exact Hf|]. split; [lia|].
        exists x. split; [now left | reflexivity].
      * destruct (IH e' Hin) as [Hk Hor]. split; [now right|].
        destruct Hor as [Hl | [Hn [Hrange [y [Hy Hky]]]]]; [now left|].
        right. split; [exact Hn|]. split; [lia|].
        exists y. split; [now right | exact Hky].
Qed.

(** A tracked entry whose key is still present keeps its component. *)
Lemma nextState_reuses (st : list MapStateItem) (items : list T) (i next : nat)
    (e : MapStateItem) :
  NoDup (map key st) -> In e st -> key e <> KeyNaN ->
  In (key e) (map getKey items) ->
  In (binding e) (map binding (fst (fst (nextState st items i next)))).
Proof.
  intros Hnd He Hnan. revert i next.
  induction items as [|x rest IH]; intros i next Hin; simpl in *; [destruct Hin|].
  destruct (findTracked st (getKey x)) as [t|] eqn:Hf.
  - specialize (IH (S i) next).
    destruct (nextState st rest (S i) next) as [[ns cr] nx]. simpl in *.
    destruct Hin as [Hk | Hin].
    + left. rewrite Hk, (@findTracked_own st e Hnd He Hnan) in Hf.
      inversion Hf; subst t. unfold binding. simpl. now rewrite Hk.
    + right. now apply IH.
  - specialize (IH (S i) (S next)).
    destruct (nextState st rest (S i) (S next)) as [[ns cr] nx]. simpl in *.
    destruct Hin as [Hk | Hin].
    + exfalso. rewrite Hk, (@findTracked_own st e Hnd He Hnan) in Hf.
      discriminate Hf.
    + right. now apply IH.
Qed.

(** Every call of [createItem] supplies the component of the entry made
    for its item. *)
Lemma nextState_created_bound (st : list MapStateItem) (items : list T) (i next : nat) :
  let '(newState, created, next') := nextState st items i next in
  forall x c, In (x, c) created -> In (getKey x, c) (map binding newState).
Proof.
  revert i next. induction items as [|x0 rest IH]; intros i next; simpl.
  - intros x c [].
  - destruct (findTracked st (getKey x0)) as [t|].
    + specialize (IH (S i) next).
      destruct (nextState st rest (S i) next) as [[ns cr] nx].
      intros x c Hin. right. now apply IH.
    + specialize (IH (S i) (S next)).
      destruct (nextState st rest (S i) (S next)) as [[ns cr] nx].
      intros x c [Heq | Hin].
      * inversion Heq; subst. now left.
      * right. now apply IH.
Qed.

(** With distinct tracked keys the frame disconnects, for every removed
    entry, the component of that entry. *)
Lemma unmountRemoved_removedOf (st : list MapStateItem) (newKeys : list Key) :
  distinctKeys (map key st) ->
  unmountRemoved st (removedOf st newKeys)
  = map Disconnect
        (map component
             (filter (fun e => negb (existsb (sameValueZero (key e)) newKeys)) st)).
Proof.
  intros [Hnd Hnan]. unfold unmountRemoved, removedOf.
  assert (Hsub : forall l, (forall e, In e l -> In e st) ->
            flat_map (fun entry =>
                        match findTracked st (removed_key entry) with
                        | Some item => [Disconnect (component item)]
                        | None => []
                        end)
              (map (fun tracked => {| removed_i := index tracked;
                                      removed_key := key tracked |}) l)
            = map Disconnect (map component l)).
  { induction l as [|e rest IH]; intros Hl; simpl; [reflexivity|].
    assert (Hk : key e <> KeyNaN).
    { intros Heq. apply Hnan. rewrite <- Heq. apply in_map.
      apply Hl. now left. }
    rewrite (@findTracked_own st e Hnd (Hl e (or_introl eq_refl)) Hk). simpl.
    f_equal. apply IH. intros e' He'. apply Hl. now right. }
  apply Hsub. intros e He. apply filter_In in He. apply He.
Qed.

(** ** Properties of the frame pass on the child list *)

Lemma In_removeNode (n x : nat) (l : list nat) :
  In x (removeNode n l) <-> In x l /\ x <> n.
Proof.
  unfold removeNode. rewrite filter_In, negb_true_iff, Nat.eqb_neq. tauto.
Qed.

Lemma removeNode_app (n : nat) (a b : list nat) :
  removeNode n (a ++ b) = removeNode n a ++ removeNode n b.
Proof. apply filter_app. Qed.

Lemma removeNode_notin (n : nat) (l : list nat) :
  ~ In n l -> removeNode n l = l.
Proof.
  induction l as [|x rest IH]; intros Hn; simpl; [reflexivity|].
  destruct (Nat.eqb x n) eqn:Hx.
  - apply Nat.eqb_eq in Hx. exfalso. apply Hn. now left.
  - simpl. f_equal. apply IH. intros H. apply Hn. now right.
Qed.

Lemma insertAfter_app_notin (n after : nat) (a b : list nat) :
  ~ In after a -> insertAfter n after (a ++ b) = a ++ insertAfter n after b.
Proof.
  induction a as [|x rest IH]; intros Hn; simpl; [reflexivity|].
  destruct (Nat.eqb x after) eqn:Hx.
  - apply Nat.eqb_eq in Hx. exfalso. apply Hn. now left.
  - f_equal. apply IH. intros H. apply Hn. now right.
Qed.

Lemma insertAfter_head (n after : nat) (l : list nat) :
  insertAfter n after (after :: l) = after :: n :: l.
Proof. simpl. now rewrite Nat.eqb_refl. Qed.

(** The second loop of the frame puts the root nodes of the new entries
    behind [previous], in the order of the entries. *)
Lemma remount_chain (node : nat -> nat) (parent0 : option nat)
    (newState : list MapStateItem) :
  (forall c, rootOf c = Some (node c)) ->
  forall (previous : nat) (pre chain post : list nat),
    ~ In previous pre -> ~ In previous chain ->
    NoDup (map (fun e => node (component e)) newState) ->
    (forall e, In e newState ->
       node (component e) <> previous /\ ~ In (node (component e)) chain) ->
    exists pre' post',
      applyCalls (remount parent0 previous newState)
                 (pre ++ chain ++ previous :: post)
      = pre' ++ chain ++ previous
             :: map (fun e => node (component e)) newState ++ post'.
Proof.
  intros Hroot. induction newState as [|e rest IH];
    intros previous pre chain post Hpre Hchain Hnd Hfresh.
  - exists pre, post. reflexivity.
  - simpl. rewrite Hroot. unfold applyCalls. simpl.
    inversion Hnd as [|? ? Hnotin Hnd']; subst.
    destruct (Hfresh e (or_introl eq_refl)) as [Hne Hnc].
    set (n := node (component e)) in *.
    assert (Hstep : insertAfter n previous
                      (removeNode n (pre ++ chain ++ previous :: post))
                    = removeNode n pre ++ (chain ++ [previous]) ++ n :: removeNode n post).
    { rewrite !removeNode_app. rewrite (@removeNode_notin n chain Hnc).
      simpl. destruct (Nat.eqb previous n) eqn:Hpn;
        [apply Nat.eqb_eq in Hpn; congruence|]. simpl.
      rewrite insertAfter_app_notin
        by (intros H; apply In_removeNode in H; tauto).
      rewrite insertAfter_app_notin by exact Hchain.
      rewrite insertAfter_head. now rewrite <- app_assoc. }
    rewrite Hstep.
    destruct (IH n (removeNode n pre) (chain ++ [previous]) (removeNode n post))
      as [pre' [post' Heq]].
    + intros H. apply In_removeNode in H. tauto.
    + intros H. apply in_app_or in H. destruct H as [H | [H | []]];
        [contradiction | congruence].
    + exact Hnd'.
    + intros e' He'. split.
      * intros Heq. apply Hnotin. rewrite <- Heq.
        now apply (in_map (fun e => node (component e))).
      * intros H. destruct (Hfresh e' (or_intror He')) as [Hne' Hnc'].
        apply in_app_or in H. destruct H as [H | [H | []]];
          [contradiction | congruence].
    + exists pre', post'. unfold applyCalls in Heq. rewrite Heq.
      rewrite <- !app_assoc. reflexivity.
Qed.

(** Disconnecting item components leaves the anchor node where it is. *)
Lemma disconnects_keep (node : nat -> nat) (anchor : nat) (cs : list nat)
    (children : list nat) :
  (forall c, rootOf c = Some (node c)) ->
  (forall c, node c <> anchor) ->
  In anchor children ->
  In anchor (applyCalls (map Disconnect cs) children).
Proof.
  intros Hroot Hanchor. revert children.
  induction cs as [|c rest IH]; intros children Hin; [exact Hin|].
  unfold applyCalls. simpl. rewrite Hroot. apply IH.
  apply In_removeNode. split; [exact Hin|]. intros H. now apply (Hanchor c).
Qed.

Lemma NoDup_map_eq {A B : Type} (f : A -> B) (l : list A) (a b : A) :
  NoDup (map f l) -> In a l -> In b l -> f a = f b -> a = b.
Proof.
  induction l as [|x rest IH]; intros Hnd Ha Hb Hf; [destruct Ha|].
  simpl in Hnd. inversion Hnd as [|? ? Hnotin Hnd']; subst.
  destruct Ha as [-> | Ha], Hb as [-> | Hb].
  - reflexivity.
  - exfalso. apply Hnotin. rewrite Hf. now apply in_map.
  - exfalso. apply Hnotin. rewrite <- Hf. now apply in_map.
  - now apply IH.
Qed.

Lemma NoDup_map_filter (A B : Type) (g : A -> B) (keep : A -> bool)
    (xs : list A) (Hnd : NoDup (map g xs)) :
  NoDup (map g (filter keep xs)).
Proof.
  induction xs as [|x rest IH]; simpl; [constructor|].
  simpl in Hnd. inversion Hnd as [|? ? Hnotin Hnd']; subst.
  destruct (keep x); simpl; [|now apply IH].
  constructor; [|now apply IH].
  intros Hin. apply Hnotin. apply in_map_iff in Hin.
  destruct Hin as [y [Hy Hin]]. apply filter_In in Hin.
  rewrite <- Hy. apply in_map. apply Hin.
Qed.

Lemma NoDup_map_injective {A B : Type} (f : A -> B) (l : list A) :
  (forall a b, f a = f b -> a = b) -> NoDup l -> NoDup (map f l).
Proof.
  intros Hinj. induction 1 as [|x rest Hnotin _ IH]; simpl; constructor;
    [|exact IH].
  intros Hin. apply in_map_iff in Hin. destruct Hin as [y [Hy Hin]].
  apply Hinj in Hy. now subst.
Qed.

Lemma in_split_first (x : nat) (l : list nat) :
  In x l -> exists pre post, l = pre ++ x :: post /\ ~ In x pre.
Proof.
  induction l as [|y rest IH]; intros Hin; [destruct Hin|].
  destruct (Nat.eq_dec y x) as [-> | Hne].
  - exists [], rest. split; [reflexivity | intros []].
  - destruct Hin as [Heq | Hin]; [contradiction|].
    destruct (IH Hin) as [pre [post [Heq Hnot]]].
    exists (y :: pre), post. split; [simpl; now f_equal|].
    intros [H | H]; [contradiction | now apply Hnot].
Qed.

(** The components of the new state are pairwise distinct when the
    tracked ones are and none of them is a component yet to be
    constructed. *)
Lemma nextState_components (st : list MapStateItem) (items : list T) (i next : nat) :
  NoDup (map getKey items) ->
  NoDup (map key st) ->
  NoDup (map component st) ->
  Forall (fun e => component e < next) st ->
  NoDup (map component (fst (fst (nextState st items i next)))).
Proof.
  intros Hkeys Hst Hcomp. revert i next Hkeys.
  induction items as [|x rest IH]; intros i next Hkeys Hlt; simpl;
    [constructor|].
  simpl in Hkeys. inversion Hkeys as [|? ? Hnotin Hkeys']; subst.
  destruct (findTracked st (getKey x)) as [t|] eqn:Hf.
  - specialize (IH (S i) next Hkeys' Hlt).
    pose proof (nextState_origin st rest (S i) next) as Horigin.
    destruct (nextState st rest (S i) next) as [[ns cr] nx]. simpl in *.
    constructor; [|exact IH].
    intros Hin. apply in_map_iff in Hin. destruct Hin as [e' [Hc He']].
    destruct (Horigin e' He') as [Hk [[t' [Hf' Hc']] | [_ [Hrange _]]]].
    + apply findTracked_Some in Hf. destruct Hf as [Ht [Hkt _]].
      apply findTracked_Some in Hf'. destruct Hf' as [Ht' [Hkt' _]].
      assert (t' = t)
        by (apply (@NoDup_map_eq _ _ component st t' t Hcomp Ht' Ht); congruence).
      subst t'. apply Hnotin. now rewrite <- Hkt, Hkt'.
    + apply findTracked_Some in Hf. destruct Hf as [Ht _].
      rewrite Forall_forall in Hlt. specialize (Hlt t Ht). lia.
  - assert (Hlt' : Forall (fun e => component e < S next) st)
      by (eapply Forall_impl; [|exact Hlt]; simpl; intros; lia).
    specialize (IH (S i) (S next) Hkeys' Hlt').
    pose proof (nextState_origin st rest (S i) (S next)) as Horigin.
    destruct (nextState st rest (S i) (S next)) as [[ns cr] nx]. simpl in *.
    constructor; [|exact IH].
    intros Hin. apply in_map_iff in Hin. destruct Hin as [e' [Hc He']].
    destruct (Horigin e' He') as [Hk [[t' [Hf' Hc']] | [_ [Hrange _]]]].
    + apply findTracked_Some in Hf'. destruct Hf' as [Ht' _].
      rewrite Forall_forall in Hlt. specialize (Hlt t' Ht'). lia.
    + lia.
Qed.

Lemma settled_update (items : list T) (h : Handle) :
  distinctKeys (map getKey items) -> settled h ->
  exists h1 created,
    update items h = Ok (h1, created) /\ settled (fst (runFrame h1)).
Proof.
  intros [Hkeys Hnan] [[Hst Hstn] [Hcomp [Hlt Hframes]]].
  rewrite update_nextState by exact Hnan.
  pose proof (nextState_keys (state h) items 0 (nextComponent h)) as Hk.
  pose proof (nextState_created (state h) items 0 (nextComponent h)) as Hc.
  pose proof (nextState_origin (state h) items 0 (nextComponent h)) as Ho.
  pose proof (@nextState_components (state h) items 0 (nextComponent h)
                Hkeys Hst Hcomp Hlt) as Hn.
  destruct (nextState (state h) items 0 (nextComponent h)) as [[ns cr] nx].
  simpl in Hk, Hn. destruct Hc as [_ [_ Hnx]].
  eexists. eexists. split; [reflexivity|].
  unfold runFrame. cbn [frames]. rewrite Hframes. cbn [app fst].
  unfold settled, distinctKeys. cbn [state nextComponent frames frame_newState].
  split; [now rewrite Hk|]. split; [exact Hn|]. split; [|reflexivity].
  apply Forall_forall. intros e' He'.
  destruct (Ho e' He') as [_ [[t [Hf Hc']] | [_ [Hrange _]]]].
  - apply findTracked_Some in Hf. destruct Hf as [Ht _].
    rewrite Forall_forall in Hlt. specialize (Hlt t Ht). lia.
  - lia.
Qed.

(** C2 (amended): from a tracked state with no frame of an earlier update
    waiting, and with pairwise distinct keys none of which is [NaN], an
    update followed by its animation frame keeps the component of every
    key that stays, constructs one component for every new key,
    disconnects the component of every key that went away, and leaves the
    tracked entries, and the root nodes of their components behind the
    anchor, in the order of the new array. *)
Theorem update_reconciles_by_key (items : list T) (h : Handle) :
  distinctKeys (map getKey items) ->
  distinctKeys (map key (state h)) ->
  frames h = [] ->
  exists h1 created h2 calls,
    update items h = Ok (h1, created) /\
    state h1 = state h /\
    runFrame h1 = (h2, calls) /\
    frames h2 = [] /\
    map key (state h2) = map getKey items /\
    map index (state h2) = seq 0 (length items) /\
    (forall e, In e (state h) -> In (key e) (map getKey items) ->
       In (binding e) (map binding (state h2)) /\
       ~ In (key e) (map createdKey created)) /\
    map fst created
      = filter (fun x => negb (existsb (fun k => Key_eqb k (getKey x))
                                       (map key (state h))))
               items /\
    map snd created = seq (nextComponent h) (length created) /\
    NoDup (map createdKey created) /\
    (forall x c, In (x, c) created -> In (getKey x, c) (map binding (state h2))) /\
    calls = map Disconnect
              (map component
                 (filter (fun e => negb (existsb (fun k => Key_eqb k (key e))
                                                 (map getKey items)))
                         (state h)))
            ++ remount (parent h) (root h) (state h2) /\
    (forall (node : nat -> nat) (children : list nat),
       (forall c, rootOf c = Some (node c)) ->
       (forall a b, node a = node b -> a = b) ->
       (forall c, node c <> root h) ->
       NoDup (map component (state h)) ->
       Forall (fun e => component e < nextComponent h) (state h) ->
       In (root h) children ->
       exists pre post,
         applyCalls calls children
         = pre ++ root h :: map (fun e => node (component e)) (state h2) ++ post).
Proof.
  intros [Hkeys Hnan] [Hst Hstn] Hframes.
  rewrite update_nextState by exact Hnan.
  pose proof (nextState_keys (state h) items 0 (nextComponent h)) as Hk.
  pose proof (nextState_indexes (state h) items 0 (nextComponent h)) as Hi.
  pose proof (nextState_created (state h) items 0 (nextComponent h)) as Hc.
  pose proof (nextState_created_bound (state h) items 0 (nextComponent h)) as Hb.
  pose proof (fun e => @nextState_reuses (state h) items 0 (nextComponent h) e Hst)
    as Hr.
  pose proof (@nextState_components (state h) items 0 (nextComponent h) Hkeys Hst)
    as Hn.
  destruct (nextState (state h) items 0 (nextComponent h)) as [[ns cr] nx].
  simpl in Hk, Hi, Hr, Hn. destruct Hc as [Hc1 [Hc2 Hc3]].
  assert (Hsome : forall (k : Key) (keys : list Key),
            existsb (fun k' => Key_eqb k' k) keys = existsb (Key_eqb k) keys).
  { intros k keys. induction keys as [|k' rest IH]; [reflexivity|].
    cbn [existsb]. now rewrite IH, (Key_eqb_sym k' k). }
  assert (Hincl : forall e, In e (state h) ->
            existsb (Key_eqb (key e)) (map getKey items)
            = existsb (sameValueZero (key e)) (map getKey items)).
  { intros e He.
    assert (Hke : key e <> KeyNaN)
      by (intros Heq; apply Hstn; rewrite <- Heq; now apply in_map).
    destruct (existsb (sameValueZero (key e)) (map getKey items)) eqn:Hs.
    - apply some_In; [exact Hke | now apply includes_In].
    - destruct (existsb (Key_eqb (key e)) (map getKey items)) eqn:Hq;
        [|reflexivity].
      apply some_In in Hq; [|exact Hke]. apply includes_In in Hq. congruence. }
  assert (Hfilter :
            filter (fun e => negb (existsb (fun k => Key_eqb k (key e))
                                           (map getKey items))) (state h)
            = filter (fun e => negb (existsb (sameValueZero (key e))
                                             (map getKey items))) (state h)).
  { apply filter_ext_in. intros e He. now rewrite Hsome, Hincl. }
  eexists. exists cr. eexists. eexists.
  split; [reflexivity|]. split; [reflexivity|].
  split; [unfold runFrame; cbn [frames state root parent nextComponent];
          rewrite Hframes; reflexivity|].
  cbn [state root parent frame_removed frame_newState frames].
  assert (Hck : map createdKey cr = map getKey (map fst cr))
    by (now rewrite map_map).
  assert (Hc1' : map fst cr
                 = filter (fun x => negb (existsb (fun k => Key_eqb k (getKey x))
                                                  (map key (state h)))) items).
  { rewrite Hc1. apply filter_ext. intros x. now rewrite Hsome. }
  split; [reflexivity|].
  split; [exact Hk|]. split; [exact Hi|].
  split.
  { intros e He Hin.
    assert (Hke : key e <> KeyNaN)
      by (intros Heq; apply Hstn; rewrite <- Heq; now apply in_map).
    split; [now apply Hr|].
    rewrite Hck, Hc1. intros Hcr. apply in_map_iff in Hcr.
    destruct Hcr as [x [Hx Hfil]]. apply filter_In in Hfil.
    destruct Hfil as [_ Hneg]. apply negb_true_iff in Hneg.
    assert (Htrue : existsb (Key_eqb (getKey x)) (map key (state h)) = true).
    { rewrite Hx. apply some_In; [exact Hke | now apply in_map]. }
    congruence. }
  split; [exact Hc1'|]. split; [exact Hc2|].
  split; [rewrite Hck, Hc1; now apply NoDup_map_filter|].
  split; [exact Hb|].
  split; [rewrite Hfilter; now rewrite unmountRemoved_removedOf|].
  intros node children Hroot Hinj Hanchor Hcomp Hlt Hin.
  rewrite unmountRemoved_removedOf by (split; assumption).
  unfold applyCalls. rewrite fold_left_app.
  set (cs := map component _).
  pose proof (@disconnects_keep node (root h) cs children Hroot Hanchor Hin) as Hkeep.
  unfold applyCalls in Hkeep.
  destruct (in_split_first _ _ Hkeep) as [pre [post [Hsplit Hpre]]].
  rewrite Hsplit.
  destruct (@remount_chain node (parent h) ns Hroot (root h) pre [] post)
    as [pre' [post' Heq]].
  - exact Hpre.
  - intros [].
  - rewrite <- map_map with (f := component) (g := node).
    apply NoDup_map_injective; [exact Hinj | now apply Hn].
  - intros e _. split; [apply Hanchor | intros []].
  - exists pre', post'. exact Heq.
Qed.

End Update.

(** ** The example of the specification: items [{id: n}] keyed by [id] *)

(** An item [{id: n}] is the number [n]; its key is its id. *)
Definition idKey (n : Z) : Key := KeyNumber n.

(** The component with identity [c] has the root node [100 + c]. *)
Definition idRoot (c : nat) : option nat := Some (100 + c).

(** A list handle with anchor node 1 under the parent node 0, before the
    first update. *)
Definition emptyHandle : Handle :=
  {| state := []; root := 1; parent := Some 0; nextComponent := 0; frames := [] |}.

(** The handle after the update with [[{id:1},{id:2},{id:3}]] and its
    frame: the items have the components 0, 1 and 2. *)
Definition handle123 : Handle :=
  {| state := [ {| index := 0; key := KeyNumber 1; component := 0 |};
                {| index := 1; key := KeyNumber 2; component := 1 |};
                {| index := 2; key := KeyNumber 3; component := 2 |} ];
     root := 1; parent := Some 0; nextComponent := 3; frames := [] |}.

(** One update and the animation frame that follows it: the calls of
    [createItem], the handle, and the calls on the item components. *)
Definition updateAndFrame (items : list Z) (h : Handle)
    : result (list (Z * nat) * Handle * list DomCall) :=
  bind (update idKey items h) (fun '(h1, created) =>
  let '(h2, calls) := runFrame idRoot h1 in
  Ok (created, h2, calls)).

Example first_update :
  updateAndFrame [1; 2; 3]%Z emptyHandle
  = Ok ([(1%Z, 0); (2%Z, 1); (3%Z, 2)], handle123,
        [Connect 0 (Some 0) 1; Connect 1 (Some 0) 100; Connect 2 (Some 0) 101])
  /\ applyCalls idRoot
       [Connect 0 (Some 0) 1; Connect 1 (Some 0) 100; Connect 2 (Some 0) 101] [1]
     = [1; 100; 101; 102].
Proof. split; reflexivity. Qed.

(** Reordering to [[{id:3},{id:1},{id:2}]]: no component is constructed,
    and the root nodes end up in the order 3, 1, 2. *)
Example reorder_reuses_all_components :
  exists h2 calls,
    updateAndFrame [3; 1; 2]%Z handle123 = Ok ([], h2, calls) /\
    map binding (state h2) = [(KeyNumber 3, 2); (KeyNumber 1, 0); (KeyNumber 2, 1)] /\
    applyCalls idRoot calls [1; 100; 101; 102] = [1; 102; 100; 101].
Proof. eexists. eexists. split; [reflexivity|]. split; reflexivity. Qed.

(** Removing [{id:2}] and adding [{id:4}] in one update: the component of
    id 2 (component 1) is the only one disconnected, and one component
    (component 3) is constructed, for id 4. *)
Example remove_and_add_in_one_update :
  exists h2 rest,
    updateAndFrame [1; 3; 4]%Z handle123
    = Ok ([(4%Z, 3)], h2, Disconnect 1 :: rest) /\
    rest = [Connect 0 (Some 0) 1; Connect 2 (Some 0) 100; Connect 3 (Some 0) 102] /\
    map binding (state h2) = [(KeyNumber 1, 0); (KeyNumber 3, 2); (KeyNumber 4, 3)] /\
    applyCalls idRoot (Disconnect 1 :: rest) [1; 100; 101; 102] = [1; 100; 102; 103].
Proof. eexists. eexists. split; [reflexivity|]. repeat split. Qed.

Lemma distinctKeys_312 : distinctKeys (map idKey [3; 1; 2]%Z).
Proof.
  split; [|simpl; intuition discriminate].
  repeat (constructor; [simpl; intuition discriminate|]). constructor.
Defined.

Lemma distinctKeys_handle123 : distinctKeys (map key (state handle123)).
Proof.
  split; [|simpl; intuition discriminate].
  repeat (constructor; [simpl; intuition discriminate|]). constructor.
Defined.

(** The theorem at the reordering example. *)
Lemma update_reconciles_by_key_at_reorder :
  distinctKeys (map idKey [3; 1; 2]%Z) /\
  distinctKeys (map key (state handle123)) /\
  frames handle123 = [] /\
  exists h1 created h2 calls,
    update idKey [3; 1; 2]%Z handle123 = Ok (h1, created) /\
    runFrame idRoot h1 = (h2, calls) /\
    map key (state h2) = [KeyNumber 3; KeyNumber 1; KeyNumber 2] /\
    map fst created = [].
Proof.
  split; [exact distinctKeys_312|]. split; [exact distinctKeys_handle123|].
  split; [reflexivity|].
  destruct (@update_reconciles_by_key Z idKey idRoot [3; 1; 2]%Z handle123
              distinctKeys_312 distinctKeys_handle123 eq_refl)
    as [h1 [created [h2 [calls [Hu [_ [Hf [_ [Hk [_ [_ [Hc _]]]]]]]]]]]].
  exists h1, created, h2, calls.
  split; [exact Hu|]. split; [exact Hf|]. split; [exact Hk | exact Hc].
Defined.

(** C2 (as the claim states it, refuted).  The claim is made for every
    previous tracked state and every array with pairwise distinct keys.

    First, a tracked state with a frame still waiting: the list of the
    example, tracking the ids 1, 2 and 3, is updated with the ids 1 and 4
    twice before an animation frame.  The second update finds the same
    tracked state as the first.  Its deferred pass is the second frame,
    and that pass disconnects nothing, although the tracked ids 2 and 3
    are absent from the new array; after it the node 103 of the component
    that the first update constructed for id 4 is still among the
    children, behind the nodes of the two tracked components, so the
    connected components are not those of the new array.

    Second, an array whose only key is [NaN]: [update] throws, and no
    component is constructed for the new key. *)
Lemma update_refuted_by_pending_frame_and_NaN :
  (exists h1 h2 h3 calls1 h4 calls2,
     update idKey [1; 4]%Z handle123 = Ok (h1, [(4%Z, 3)]) /\
     state h1 = state handle123 /\
     length (frames h1) = 1 /\
     update idKey [1; 4]%Z h1 = Ok (h2, [(4%Z, 4)]) /\
     runFrame idRoot h2 = (h3, calls1) /\
     runFrame idRoot h3 = (h4, calls2) /\
     calls2 = [Connect 0 (Some 0) 1; Connect 4 (Some 0) 100] /\
     map binding (state h4) = [(KeyNumber 1, 0); (KeyNumber 4, 4)] /\
     applyCalls idRoot (calls1 ++ calls2) [1; 100; 101; 102]
       = [1; 100; 104; 103] /\
     applyCalls idRoot (calls1 ++ calls2) [1; 100; 101; 102]
       <> [1; 100; 104]) /\
  NoDup [KeyNaN] /\
  update (fun k : Key => k) [KeyNaN] emptyHandle
    = Throw (TypeError "undefined has no property component"%string).
Proof.
  split.
  - do 6 eexists.
    split; [reflexivity|]. split; [reflexivity|]. split; [reflexivity|].
    split; [reflexivity|]. split; [reflexivity|]. split; [reflexivity|].
    split; [reflexivity|]. split; [reflexivity|]. split; [reflexivity|].
    discriminate.
  - split; [repeat constructor; intros []|]. reflexivity.
Qed.

End MapComponent.

(* ===================================================================== *)
(** * The router store: stores/router.ts *)
(* ===================================================================== *)

Module Router.

Import Js.

(** A layer of a registered route: its numeric id and its markup. *)
Record RouteLayer : Type := {
  layer_id : nat;
  markup : nat
}.

(** "An active route layer whose markup has been initialized into a
    view": the id and the render handle. *)
Record ActiveLayer : Type := {
  id : nat;
  handle : nat
}.

(** [matched.meta.redirect] when it is not [null] or [undefined]. *)
Inductive Redirect : Type :=
| RedirectString (target : string)
| RedirectFunction
| RedirectOther.

(** The result of [matchRoutes] when a route matches. *)
Record Matched : Type := {
  matched_path : string;
  matched_pattern : string;
  matched_params : list (string * string);
  redirect : option Redirect;
  layers : option (list RouteLayer)
}.

Record Location : Type := {
  pathname : string;
  search : string
}.

(** The callback given to [requestAnimationFrame] in the layer loop closes
    over [activeLayer], [parentLayer] and [rendered]. *)
Record Frame : Type := {
  frame_activeLayer : option ActiveLayer;
  frame_parentLayer : option ActiveLayer;
  frame_rendered : nat
}.

(** The calls a frame makes on render handles; the parent [None] is
    [appContext.rootView]. *)
Inductive HandleCall : Type :=
| DisconnectHandle (h : nat)
| SetChildren (parent : option nat) (rendered : nat).

(** The closure variables of [RouterStore].  [queryObserved] tells whether
    the observer of [$$query] is subscribed, [nextHandle] is the identity
    of the handle that the next call of [renderMarkupToDOM] creates,
    [frames] are the callbacks waiting for an animation frame, [replaced]
    the arguments of the calls of [history.replace]. *)
Record RouterState : Type := {
  pattern : option string;
  path : string;
  params : list (string * string);
  query : list (string * string);
  isRouteChange : bool;
  queryObserved : bool;
  lastQuery : option string;
  activeLayers : list ActiveLayer;
  nextHandle : nat;
  frames : list Frame;
  replaced : list string
}.

Section OnRouteChange.

(** [matchRoutes(c.options.routes, pathname)] and [parseQueryParams], both
    of the library [@borf/bedrock]. *)
Variable matchRoutes : string -> option Matched.
Variable parseQueryParams : string -> list (string * string).

(** [activeLayers[activeLayers.length - 1]]. *)
Definition lastLayer (active : list ActiveLayer) : option ActiveLayer :=
  match active with
  | [] => None
  | _ => nth_error active (length active - 1)
  end.

(** [activeLayer?.id !== matchedLayer.id]. *)
Definition differs (activeLayer : option ActiveLayer) (matchedLayer : RouteLayer) : bool :=
  match activeLayer with
  | Some a => negb (Nat.eqb (id a) (layer_id matchedLayer))
  | None => true
  end.

(** The loop [for (let i = 0; i < layers.length; i++)], from index [i]
    on, on the variables it writes: [activeLayers], the queue of frame
    callbacks and the render counter. *)
Fixpoint diffLayers (matchedLayers : list RouteLayer) (i : nat)
    (active : list ActiveLayer) (queue : list Frame) (next : nat)
    : list ActiveLayer * list Frame * nat :=
  match matchedLayers with
  | [] => (active, queue, next)
  | matchedLayer :: rest =>
      let activeLayer := nth_error active i in
      if differs activeLayer matchedLayer then
        let active := firstn i active in
        let parentLayer := lastLayer active in
        let rendered := next in
        diffLayers rest (S i)
          (active ++ [{| id := layer_id matchedLayer; handle := rendered |}])
          (queue ++ [{| frame_activeLayer := activeLayer;
                        frame_parentLayer := parentLayer;
                        frame_rendered := rendered |}])
          (S next)
      else diffLayers rest (S i) active queue next
  end.

(** [path = path.replace(":" + key, matched.params[key].toString())] for
    every key of [matched.params]. *)
Definition substituteParams (target : string) (ps : list (string * string)) : string :=
  fold_left (fun p kv => replaceString (String ":" (fst kv)) (snd kv) p) ps target.

Definition option_string_eqb (a : option string) (b : string) : bool :=
  match a with
  | Some x => String.eqb x b
  | None => false
  end.

Definition same_query (a : option string) (b : string) : bool :=
  option_string_eqb a b.

(** The first statement of [onRouteChange]: the query parameters are
    parsed anew when the search string changed; the observer of [$$query]
    takes the flag [isRouteChange] back when it is notified. *)
Definition updateQuery (location : Location) (s : RouterState) : RouterState :=
  if same_query (lastQuery s) (search location) then s
  else {| pattern := pattern s; path := path s; params := params s;
          query := parseQueryParams (search location);
          isRouteChange := negb (queryObserved s);
          queryObserved := queryObserved s;
          lastQuery := Some (search location);
          activeLayers := activeLayers s; nextHandle := nextHandle s;
          frames := frames s; replaced := replaced s |}.

(** [onRouteChange({ location })], as far as its own statements go: a
    call of [history.replace] is recorded in [replaced].  The listener
    that the replace runs before it returns is added in
    [RouterProps.listen]. *)
Definition onRouteChange (location : Location) (s : RouterState)
    : result RouterState :=
  let s := updateQuery location s in
  match matchRoutes (pathname location) with
  | None =>
      Ok {| pattern := None;
            path := pathname location;
            params := [("wildcard"%string, pathname location)];
            query := query s; isRouteChange := isRouteChange s;
            queryObserved := queryObserved s; lastQuery := lastQuery s;
            activeLayers := activeLayers s; nextHandle := nextHandle s;
            frames := frames s; replaced := replaced s |}
  | Some matched =>
      match redirect matched with
      | Some (RedirectString target) =>
          Ok {| pattern := pattern s; path := path s; params := params s;
                query := query s; isRouteChange := isRouteChange s;
                queryObserved := queryObserved s; lastQuery := lastQuery s;
                activeLayers := activeLayers s; nextHandle := nextHandle s;
                frames := frames s;
                replaced := replaced s
                            ++ [substituteParams target (matched_params matched)] |}
      | Some RedirectFunction =>
          Throw (Error "Redirect functions aren't implemented yet."%string)
      | Some RedirectOther =>
          Throw (TypeError "Redirect must either be a path string or a function."%string)
      | None =>
          if option_string_eqb (pattern s) (matched_pattern matched) then
            Ok {| pattern := pattern s;
                  path := matched_path matched;
                  params := matched_params matched;
                  query := query s; isRouteChange := isRouteChange s;
                  queryObserved := queryObserved s; lastQuery := lastQuery s;
                  activeLayers := activeLayers s; nextHandle := nextHandle s;
                  frames := frames s; replaced := replaced s |}
          else
            match layers matched with
            | None =>
                Throw (TypeError "undefined has no property length"%string)
            | Some matchedLayers =>
                let '(active, queue, next) :=
                  diffLayers matchedLayers 0 (activeLayers s) (frames s)
                             (nextHandle s) in
                Ok {| pattern := Some (matched_pattern matched);
                      path := matched_path matched;
                      params := matched_params matched;
                      query := query s; isRouteChange := isRouteChange s;
                      queryObserved := queryObserved s; lastQuery := lastQuery s;
                      activeLayers := active; nextHandle := next;
                      frames := queue; replaced := replaced s |}
            end
      end
  end.

(** The body of one frame callback; [connected h] is the flag
    [handle.connected] of the handle [h] when the frame runs. *)
Definition runFrame (connected : nat -> bool) (f : Frame) : list HandleCall :=
  match frame_activeLayer f with
  | Some activeLayer =>
      if connected (handle activeLayer)
      then [DisconnectHandle (handle activeLayer)]
      else []
  | None => []
  end
  ++ [SetChildren (option_map handle (frame_parentLayer f)) (frame_rendered f)].

(** ** Properties of the layer loop *)

(** The index at which the loop, started at [i], first finds the active
    and the matched layer to differ; the index behind the last matched
    layer when it finds none. *)
Fixpoint firstMismatch (matchedLayers : list RouteLayer) (i : nat)
    (active : list ActiveLayer) : nat :=
  match matchedLayers with
  | [] => i
  | matchedLayer :: rest =>
      if differs (nth_error active i) matchedLayer then i
      else firstMismatch rest (S i) active
  end.

(** The layers pushed for [matchedLayers] once the stack was cut: each
    gets the next fresh handle. *)
Fixpoint freshLayers (matchedLayers : list RouteLayer) (next : nat)
    : list ActiveLayer :=
  match matchedLayers with
  | [] => []
  | l :: rest => {| id := layer_id l; handle := next |} :: freshLayers rest (S next)
  end.

(** The frames queued for them: nothing to disconnect, the parent is the
    layer pushed just before. *)
Fixpoint chainFrames (parentLayer : option ActiveLayer)
    (matchedLayers : list RouteLayer) (next : nat) : list Frame :=
  match matchedLayers with
  | [] => []
  | l :: rest =>
      {| frame_activeLayer := None; frame_parentLayer := parentLayer;
         frame_rendered := next |}
      :: chainFrames (Some {| id := layer_id l; handle := next |}) rest (S next)
  end.

(** The frame queued for the matched layer at index [j], given the index
    [k] of the first mismatch, the stacks before and after the loop and
    the render counter before the loop. *)
Definition frameFor (k j : nat) (active active' : list ActiveLayer) (next : nat)
    : Frame :=
  {| frame_activeLayer := if Nat.eqb j k then nth_error active k else None;
     frame_parentLayer :=
       match j with
       | 0 => None
       | S j' => nth_error active' j'
       end;
     frame_rendered := next + (j - k) |}.

Lemma lastLayer_snoc (active : list ActiveLayer) (a : ActiveLayer) :
  lastLayer (active ++ [a]) = Some a.
Proof.
  unfold lastLayer. destruct (active ++ [a]) eqn:Heq.
  - now destruct active.
  - rewrite <- Heq, length_app. simpl.
    replace (length active + 1 - 1) with (length active) by lia.
    rewrite nth_error_app2 by lia. now rewrite Nat.sub_diag.
Qed.

Lemma lastLayer_firstn (active : list ActiveLayer) (k : nat) :
  k <= length active ->
  lastLayer (firstn k active)
  = match k with 0 => None | S k' => nth_error active k' end.
Proof.
  intros Hk. destruct k as [|k']; [reflexivity|].
  unfold lastLayer. destruct (firstn (S k') active) eqn:Heq.
  - destruct active; [simpl in Hk; lia | discriminate Heq].
  - rewrite <- Heq, length_firstn, Nat.min_l by lia.
    replace (S k' - 1) with k' by lia.
    rewrite nth_error_firstn.
    destruct (k' <? S k') eqn:Hlt; [reflexivity|].
    apply Nat.ltb_ge in Hlt. lia.
Qed.

Lemma firstMismatch_ge (matchedLayers : list RouteLayer) (i : nat)
    (active : list ActiveLayer) :
  i <= firstMismatch matchedLayers i active <= i + length matchedLayers.
Proof.
  revert i. induction matchedLayers as [|l rest IH]; intros i; simpl; [lia|].
  destruct (differs (nth_error active i) l); [lia|].
  specialize (IH (S i)). lia.
Qed.

Lemma differs_false (activeLayer : option ActiveLayer) (l : RouteLayer) :
  differs activeLayer l = false ->
  exists a, activeLayer = Some a /\ id a = layer_id l.
Proof.
  destruct activeLayer as [a|]; simpl; [|discriminate].
  intros H. apply negb_false_iff, Nat.eqb_eq in H. now exists a.
Qed.

(** Before the first mismatch the active layer exists and has the id of
    the matched layer. *)
Lemma firstMismatch_prefix (matchedLayers : list RouteLayer) (i : nat)
    (active : list ActiveLayer) (j : nat) :
  i <= j < firstMismatch matchedLayers i active ->
  exists a l, nth_error active j = Some a /\
              nth_error matchedLayers (j - i) = Some l /\
              id a = layer_id l.
Proof.
  revert i. induction matchedLayers as [|l rest IH]; intros i; simpl; [lia|].
  destruct (differs (nth_error active i) l) eqn:Hd; [lia|].
  intros Hj. destruct (Nat.eq_dec j i) as [-> | Hne].
  - apply differs_false in Hd. destruct Hd as [a [Ha Hid]].
    exists a, l. rewrite Nat.sub_diag. now repeat split.
  - destruct (IH (S i)) as [a [l' [Ha [Hl Hid]]]]; [lia|].
    exists a, l'. replace (j - i) with (S (j - S i)) by lia. now repeat split.
Qed.

Lemma firstMismatch_le_length (matchedLayers : list RouteLayer) (i : nat)
    (active : list ActiveLayer) :
  i <= length active -> firstMismatch matchedLayers i active <= length active.
Proof.
  revert i. induction matchedLayers as [|l rest IH]; intros i Hi; simpl;
    [exact Hi|].
  destruct (differs (nth_error active i) l) eqn:Hd; [exact Hi|].
  apply IH. apply differs_false in Hd. destruct Hd as [a [Ha _]].
  assert (nth_error active i <> None) by congruence.
  apply nth_error_Some in H. lia.
Qed.

(** At the first mismatch, when there is one, the layers differ. *)
Lemma firstMismatch_differs (matchedLayers : list RouteLayer) (i : nat)
    (active : list ActiveLayer) (l : RouteLayer) :
  nth_error matchedLayers (firstMismatch matchedLayers i active - i) = Some l ->
  differs (nth_error active (firstMismatch matchedLayers i active)) l = true.
Proof.
  revert i. induction matchedLayers as [|l0 rest IH]; intros i; simpl.
  - rewrite Nat.sub_diag. discriminate.
  - destruct (differs (nth_error active i) l0) eqn:Hd.
    + rewrite Nat.sub_diag. simpl. intros H. inversion H; subst. exact Hd.
    + pose proof (firstMismatch_ge rest (S i) active) as Hge.
      replace (firstMismatch rest (S i) active - i)
        with (S (firstMismatch rest (S i) active - S i)) by lia.
      simpl. apply IH.
Qed.

(** Once the stack ends at the loop index, every further matched layer
    is rendered and pushed. *)
Lemma diffLayers_pushes (matchedLayers : list RouteLayer) (i : nat)
    (active : list ActiveLayer) (queue : list Frame) (next : nat) :
  length active = i ->
  diffLayers matchedLayers i active queue next
  = (active ++ freshLayers matchedLayers next,
     queue ++ chainFrames (lastLayer active) matchedLayers next,
     next + length matchedLayers).
Proof.
  revert i active queue next.
  induction matchedLayers as [|l rest IH]; intros i active queue next Hlen; simpl.
  - now rewrite !app_nil_r, Nat.add_0_r.
  - assert (Hnone : nth_error active i = None)
      by (apply nth_error_None; lia).
    rewrite Hnone. simpl.
    assert (Hfirst : firstn i active = active)
      by (apply firstn_all2; lia).
    rewrite Hfirst.
    rewrite (IH (S i)) by (rewrite length_app; simpl; lia).
    rewrite lastLayer_snoc, <- !app_assoc. simpl.
    f_equal. lia.
Qed.

(** The loop in closed form. *)
Lemma diffLayers_closed (matchedLayers : list RouteLayer) (i : nat)
    (active : list ActiveLayer) (queue : list Frame) (next : nat) :
  i <= length active ->
  diffLayers matchedLayers i active queue next
  = let k := firstMismatch matchedLayers i active in
    match skipn (k - i) matchedLayers with
    | [] => (active, queue, next)
    | l :: rest =>
        (firstn k active ++ freshLayers (l :: rest) next,
         queue ++ {| frame_activeLayer := nth_error active k;
                     frame_parentLayer := lastLayer (firstn k active);
                     frame_rendered := next |}
               :: chainFrames (Some {| id := layer_id l; handle := next |})
                              rest (S next),
         next + length (l :: rest))
    end.
Proof.
  revert i. induction matchedLayers as [|l rest IH]; intros i Hi; simpl.
  - now rewrite Nat.sub_diag.
  - destruct (differs (nth_error active i) l) eqn:Hd.
    + rewrite Nat.sub_diag. simpl.
      rewrite (@diffLayers_pushes rest (S i))
        by (rewrite length_app, length_firstn; simpl; lia).
      rewrite lastLayer_snoc, <- !app_assoc. simpl.
      f_equal. lia.
    + pose proof (firstMismatch_ge rest (S i) active) as Hge.
      replace (firstMismatch rest (S i) active - i)
        with (S (firstMismatch rest (S i) active - S i)) by lia.
      simpl. apply IH.
      apply differs_false in Hd. destruct Hd as [a [Ha _]].
      assert (H : nth_error active i <> None) by congruence.
      apply nth_error_Some in H. lia.
Qed.

Lemma nth_error_freshLayers (matchedLayers : list RouteLayer) (next j : nat) :
  nth_error (freshLayers matchedLayers next) j
  = option_map (fun l => {| id := layer_id l; handle := next + j |})
               (nth_error matchedLayers j).
Proof.
  revert next j. induction matchedLayers as [|l rest IH]; intros next j.
  - now destruct j.
  - destruct j as [|j']; simpl.
    + now rewrite Nat.add_0_r.
    + rewrite IH. now replace (S next + j') with (next + S j') by lia.
Qed.

Lemma nth_error_chainFrames (parentLayer : option ActiveLayer)
    (matchedLayers : list RouteLayer) (next j : nat) :
  nth_error (chainFrames parentLayer matchedLayers next) j
  = option_map
      (fun _ => {| frame_activeLayer := None;
                   frame_parentLayer :=
                     match j with
                     | 0 => parentLayer
                     | S j' => nth_error (freshLayers matchedLayers next) j'
                     end;
                   frame_rendered := next + j |})
      (nth_error matchedLayers j).
Proof.
  revert parentLayer next j.
  induction matchedLayers as [|l rest IH]; intros parentLayer next j.
  - now destruct j.
  - destruct j as [|j']; simpl.
    + now rewrite Nat.add_0_r.
    + rewrite IH. destruct (nth_error rest j'); simpl; [|reflexivity].
      destruct j' as [|j'']; simpl; do 2 f_equal; lia.
Qed.

Lemma length_freshLayers (matchedLayers : list RouteLayer) (next : nat) :
  length (freshLayers matchedLayers next) = length matchedLayers.
Proof.
  revert next. induction matchedLayers as [|l rest IH]; intros next; simpl;
    [reflexivity | now rewrite IH].
Qed.

Lemma length_chainFrames (parentLayer : option ActiveLayer)
    (matchedLayers : list RouteLayer) (next : nat) :
  length (chainFrames parentLayer matchedLayers next) = length matchedLayers.
Proof.
  revert parentLayer next.
  induction matchedLayers as [|l rest IH]; intros parentLayer next; simpl;
    [reflexivity | now rewrite IH].
Qed.

(** What the loop leaves behind, position by position. *)
Lemma diffLayers_positions (matchedLayers : list RouteLayer)
    (active : list ActiveLayer) (queue : list Frame) (next : nat) :
  let k := firstMismatch matchedLayers 0 active in
  let '(active', queue', next') := diffLayers matchedLayers 0 active queue next in
  (forall j, j < k -> nth_error active' j = nth_error active j) /\
  (k = length matchedLayers ->
     active' = active /\ queue' = queue /\ next' = next) /\
  (k < length matchedLayers -> length active' = length matchedLayers) /\
  (forall j l, k <= j -> nth_error matchedLayers j = Some l ->
     nth_error active' j
       = Some {| id := layer_id l; handle := next + (j - k) |} /\
     nth_error queue' (length queue + (j - k))
       = Some (frameFor k j active active' next)) /\
  firstn (length queue) queue' = queue /\
  length queue' = length queue + (length matchedLayers - k) /\
  next' = next + (length matchedLayers - k).
Proof.
  intros k.
  pose proof (firstMismatch_ge matchedLayers 0 active) as Hge. fold k in Hge.
  pose proof (@firstMismatch_le_length matchedLayers 0 active (Nat.le_0_l _)) as Hle.
  fold k in Hle.
  rewrite diffLayers_closed by lia. fold k. cbv zeta. rewrite Nat.sub_0_r.
  destruct (skipn k matchedLayers) as [|l rest] eqn:Hskip.
  - assert (Hk : k = length matchedLayers).
    { apply (f_equal (@length _)) in Hskip. rewrite length_skipn in Hskip.
      simpl in Hskip. lia. }
    split; [reflexivity|]. split; [now intros _|]. split; [lia|].
    split.
    { intros j l0 Hj Hl. exfalso.
      assert (H : nth_error matchedLayers j <> None) by congruence.
      apply nth_error_Some in H. lia. }
    split; [apply firstn_all|]. split; lia.
  - assert (Hlen : length matchedLayers = k + S (length rest)).
    { apply (f_equal (@length _)) in Hskip. rewrite length_skipn in Hskip.
      simpl in Hskip. lia. }
    assert (Hfirst : length (firstn k active) = k)
      by (rewrite length_firstn; lia).
    assert (Hfresh : length (freshLayers (l :: rest) next) = S (length rest))
      by apply length_freshLayers.
    assert (Hprefix : forall j, j < k ->
              nth_error (firstn k active ++ freshLayers (l :: rest) next) j
              = nth_error active j).
    { intros j Hj. rewrite nth_error_app1 by lia.
      rewrite nth_error_firstn.
      destruct (j <? k) eqn:Hlt; [reflexivity|].
      apply Nat.ltb_ge in Hlt. lia. }
    assert (Hnew : forall j l0, k <= j -> nth_error matchedLayers j = Some l0 ->
              nth_error (firstn k active ++ freshLayers (l :: rest) next) j
              = Some {| id := layer_id l0; handle := next + (j - k) |}).
    { intros j l0 Hj Hl. rewrite nth_error_app2 by lia. rewrite Hfirst.
      rewrite nth_error_freshLayers, <- Hskip, nth_error_skipn.
      replace (k + (j - k)) with j by lia. now rewrite Hl. }
    split; [exact Hprefix|]. split; [lia|].
    split; [intros _; rewrite length_app, Hfirst, Hfresh; lia|].
    split.
    { intros j l0 Hj Hl. split; [now apply Hnew|].
      rewrite nth_error_app2 by lia.
      replace (length queue + (j - k) - length queue) with (j - k) by lia.
      unfold frameFor.
      destruct (Nat.eq_dec j k) as [-> | Hne].
      - rewrite Nat.sub_diag, Nat.eqb_refl. simpl.
        rewrite lastLayer_firstn by lia. rewrite Nat.add_0_r.
        destruct k as [|k']; [reflexivity|].
        assert (Hp : nth_error (firstn (S k') active
                                ++ freshLayers (l :: rest) next) k'
                     = nth_error active k') by (apply Hprefix; lia).
        simpl in Hp. simpl. now rewrite Hp.
      - destruct (j - k) as [|m] eqn:Hm; [lia|]. simpl.
        rewrite nth_error_chainFrames.
        assert (Hrest : nth_error rest m = Some l0).
        { assert (H : nth_error (skipn k matchedLayers) (S m) = Some l0).
          { rewrite nth_error_skipn. now replace (k + S m) with j by lia. }
          rewrite Hskip in H. exact H. }
        rewrite Hrest. simpl.
        assert (Hjk : Nat.eqb j k = false) by (apply Nat.eqb_neq; lia).
        rewrite Hjk.
        destruct j as [|j']; [lia|].
        f_equal. f_equal; [|lia].
        rewrite nth_error_app2 by lia. rewrite Hfirst.
        replace (j' - k) with m by lia.
        destruct m as [|m']; reflexivity. }
    split; [now rewrite firstn_app, Nat.sub_diag, firstn_all, app_nil_r|].
    split.
    { rewrite length_app. simpl. rewrite length_chainFrames. lia. }
    simpl. lia.
Qed.

Lemma updateQuery_keeps (location : Location) (s : RouterState) :
  pattern (updateQuery location s) = pattern s /\
  path (updateQuery location s) = path s /\
  params (updateQuery location s) = params s /\
  activeLayers (updateQuery location s) = activeLayers s /\
  nextHandle (updateQuery location s) = nextHandle s /\
  frames (updateQuery location s) = frames s /\
  replaced (updateQuery location s) = replaced s.
Proof.
  unfold updateQuery. destruct (same_query _ _); repeat split.
Qed.

(** C6: when no route matches, the pattern becomes absent, the path is
    the raw pathname, the params hold the raw pathname under the key
    ["wildcard"] and nothing else, and the mounted layers are left as they
    are: the stack is the same, nothing is rendered, no frame is queued. *)
Theorem onRouteChange_no_match (location : Location) (s : RouterState) :
  matchRoutes (pathname location) = None ->
  exists s',
    onRouteChange location s = Ok s' /\
    pattern s' = None /\
    path s' = pathname location /\
    params s' = [("wildcard"%string, pathname location)] /\
    activeLayers s' = activeLayers s /\
    frames s' = frames s /\
    nextHandle s' = nextHandle s /\
    replaced s' = replaced s.
Proof.
  intros Hnone. unfold onRouteChange. rewrite Hnone.
  destruct (updateQuery_keeps location s) as [_ [_ [_ [Ha [Hn [Hf Hr]]]]]].
  eexists. split; [reflexivity|]. simpl. repeat split; assumption.
Qed.

(** C3: when a route with another pattern matches, the layers before the
    first position at which the ids differ stay in the stack with their
    handles; from that position on the stack is cut, every matched layer
    is rendered into a fresh handle and pushed, and a frame is queued for
    it that attaches it to the layer before it (to the root view at
    position 0); only the frame of the first mismatching position
    disconnects a layer, the old one at that position. *)
Theorem onRouteChange_replaces_layers_from_first_mismatch
    (location : Location) (s : RouterState) (matched : Matched)
    (matchedLayers : list RouteLayer) :
  matchRoutes (pathname location) = Some matched ->
  redirect matched = None ->
  layers matched = Some matchedLayers ->
  option_string_eqb (pattern s) (matched_pattern matched) = false ->
  exists s',
    onRouteChange location s = Ok s' /\
    let k := firstMismatch matchedLayers 0 (activeLayers s) in
    (forall j, j < k ->
       exists a l, nth_error (activeLayers s) j = Some a /\
                   nth_error matchedLayers j = Some l /\
                   id a = layer_id l /\
                   nth_error (activeLayers s') j = Some a) /\
    (forall l, nth_error matchedLayers k = Some l ->
       differs (nth_error (activeLayers s) k) l = true) /\
    (k = length matchedLayers ->
       activeLayers s' = activeLayers s /\ frames s' = frames s /\
       nextHandle s' = nextHandle s) /\
    (k < length matchedLayers -> length (activeLayers s') = length matchedLayers) /\
    (forall j l, k <= j -> nth_error matchedLayers j = Some l ->
       nth_error (activeLayers s') j
         = Some {| id := layer_id l; handle := nextHandle s + (j - k) |} /\
       nth_error (frames s') (length (frames s) + (j - k))
         = Some {| frame_activeLayer :=
                     if Nat.eqb j k then nth_error (activeLayers s) k else None;
                   frame_parentLayer :=
                     match j with
                     | 0 => None
                     | S j' => nth_error (activeLayers s') j'
                     end;
                   frame_rendered := nextHandle s + (j - k) |}) /\
    (forall (connected : nat -> bool) j l,
       k <= j -> nth_error matchedLayers j = Some l ->
       exists f,
         nth_error (frames s') (length (frames s) + (j - k)) = Some f /\
         runFrame connected f
         = (if Nat.eqb j k
            then match nth_error (activeLayers s) k with
                 | Some old => if connected (handle old)
                               then [DisconnectHandle (handle old)] else []
                 | None => []
                 end
            else [])
           ++ [SetChildren
                 match j with
                 | 0 => None
                 | S j' => option_map handle (nth_error (activeLayers s') j')
                 end
                 (nextHandle s + (j - k))]) /\
    firstn (length (frames s)) (frames s') = frames s /\
    length (frames s') = length (frames s) + (length matchedLayers - k) /\
    nextHandle s' = nextHandle s + (length matchedLayers - k).
Proof.
  intros Hmatch Hredirect Hlayers Hpattern.
  unfold onRouteChange. rewrite Hmatch, Hredirect, Hlayers.
  destruct (updateQuery_keeps location s) as [Hp [_ [_ [Ha [Hn [Hf _]]]]]].
  rewrite Hp, Hpattern, Ha, Hn, Hf.
  pose proof (diffLayers_positions matchedLayers (activeLayers s) (frames s)
                (nextHandle s)) as Hpos.
  cbv zeta in Hpos.
  destruct (diffLayers matchedLayers 0 (activeLayers s) (frames s) (nextHandle s))
    as [[active' queue'] next'].
  destruct Hpos as [Hprefix [Hsame [Hlen [Hnew [Hfirst [Hqueue Hnext]]]]]].
  eexists. split; [reflexivity|]. cbv zeta. cbn [activeLayers frames nextHandle].
  split.
  { intros j Hj.
    destruct (@firstMismatch_prefix matchedLayers 0 (activeLayers s) j)
      as [a [l [Hact [Hl Hid]]]]; [lia|].
    rewrite Nat.sub_0_r in Hl. exists a, l.
    repeat split; try assumption. now rewrite Hprefix. }
  split.
  { intros l Hl. apply firstMismatch_differs. now rewrite Nat.sub_0_r. }
  split; [exact Hsame|]. split; [exact Hlen|].
  split.
  { intros j l Hj Hl. destruct (Hnew j l Hj Hl) as [H1 H2].
    split; [exact H1 | exact H2]. }
  split; [|now repeat split].
  intros connected j l Hj Hl. destruct (Hnew j l Hj Hl) as [_ H2].
  eexists. split; [exact H2|].
  unfold runFrame, frameFor. cbn [frame_activeLayer frame_parentLayer frame_rendered].
  destruct (Nat.eqb j (firstMismatch matchedLayers 0 (activeLayers s)));
    destruct j as [|j']; reflexivity.
Qed.

End OnRouteChange.

(** ** The example of the specification: layers L1, L2, L3, L4 *)

Definition exampleLayer (n : nat) : RouteLayer :=
  {| layer_id := n; markup := n |}.

(** A route table with the one route [/a/b/d], whose layer chain is
    [[L1, L2, L4]]. *)
Definition exampleRoutes (pathname : string) : option Matched :=
  if String.eqb pathname "/a/b/d"
  then Some {| matched_path := "/a/b/d"%string;
               matched_pattern := "/a/b/d"%string;
               matched_params := [];
               redirect := None;
               layers := Some [exampleLayer 1; exampleLayer 2; exampleLayer 4] |}
  else None.

Definition exampleQuery (search : string) : list (string * string) := [].

(** The router showing [/a/b/c]: the layers L1, L2 and L3 are mounted with
    the handles 10, 11 and 12. *)
Definition exampleState : RouterState :=
  {| pattern := Some "/a/b/c"%string;
     path := "/a/b/c"%string;
     params := [];
     query := [];
     isRouteChange := false;
     queryObserved := true;
     lastQuery := Some ""%string;
     activeLayers := [ {| id := 1; handle := 10 |};
                       {| id := 2; handle := 11 |};
                       {| id := 3; handle := 12 |} ];
     nextHandle := 13;
     frames := [];
     replaced := [] |}.

(** Going to [/a/b/d]: L1 and L2 keep their handles, L4 is rendered into
    the new handle 13, and the frame disconnects the handle of L3 and
    gives the new handle to L2 as its children. *)
Example replace_third_layer :
  exists s',
    onRouteChange exampleRoutes exampleQuery
      {| pathname := "/a/b/d"; search := "" |} exampleState = Ok s' /\
    activeLayers s' = [ {| id := 1; handle := 10 |};
                        {| id := 2; handle := 11 |};
                        {| id := 4; handle := 13 |} ] /\
    flat_map (runFrame (fun _ => true)) (frames s')
    = [DisconnectHandle 12; SetChildren (Some 11) 13].
Proof. eexists. split; [reflexivity|]. split; reflexivity. Qed.

(** The theorem on layer replacement at this example. *)
Lemma onRouteChange_replaces_layers_at_example :
  exampleRoutes "/a/b/d" = Some {| matched_path := "/a/b/d"%string;
                                   matched_pattern := "/a/b/d"%string;
                                   matched_params := [];
                                   redirect := None;
                                   layers := Some [exampleLayer 1; exampleLayer 2;
                                                   exampleLayer 4] |} /\
  exists s',
    onRouteChange exampleRoutes exampleQuery
      {| pathname := "/a/b/d"; search := "" |} exampleState = Ok s' /\
    nth_error (activeLayers s') 2 = Some {| id := 4; handle := 13 |} /\
    nth_error (frames s') 0
    = Some {| frame_activeLayer := Some {| id := 3; handle := 12 |};
              frame_parentLayer := nth_error (activeLayers s') 1;
              frame_rendered := 13 |}.
Proof.
  split; [reflexivity|].
  destruct (@onRouteChange_replaces_layers_from_first_mismatch
              exampleRoutes exampleQuery
              {| pathname := "/a/b/d"; search := "" |} exampleState
              _ [exampleLayer 1; exampleLayer 2; exampleLayer 4]
              eq_refl eq_refl eq_refl eq_refl)
    as [s' [Hrun [_ [_ [_ [_ [Hnew _]]]]]]].
  exists s'. split; [exact Hrun|].
  exact (Hnew 2 (exampleLayer 4) (le_n 2) eq_refl).
Defined.

(** The theorem on unmatched locations at [/nowhere]. *)
Lemma onRouteChange_no_match_at_example :
  exampleRoutes "/nowhere" = None /\
  exists s',
    onRouteChange exampleRoutes exampleQuery
      {| pathname := "/nowhere"; search := "" |} exampleState = Ok s' /\
    pattern s' = None /\
    path s' = "/nowhere"%string /\
    params s' = [("wildcard"%string, "/nowhere"%string)] /\
    activeLayers s' = activeLayers exampleState /\
    frames s' = [].
Proof.
  split; [reflexivity|].
  destruct (@onRouteChange_no_match exampleRoutes exampleQuery
              {| pathname := "/nowhere"; search := "" |} exampleState eq_refl)
    as [s' [Hrun [Hp [Hpath [Hparams [Hact [Hfr _]]]]]]].
  exists s'. repeat split; assumption.
Defined.

End Router.

(* ===================================================================== *)
(** * The spring: spring.ts *)
(* ===================================================================== *)

Module Spring.

Local Open Scope R_scope.

(** Numbers are real numbers here: the arithmetic of the solver is that of
    doubles wherever no overflow, rounding or NaN is involved.  An option
    that may be a number or a readable stands for its current number. *)

(** [SpringOptions]: every field may be missing. *)
Record SpringOptions : Type := {
  mass : option R;
  stiffness : option R;
  damping : option R;
  velocity : option R;
  endAmplitude : option R;
  endWindow : option nat
}.

Definition noOptions : SpringOptions :=
  {| mass := None; stiffness := None; damping := None; velocity := None;
     endAmplitude := None; endWindow := None |}.

(** [a ?? b]. *)
Definition orElse {A : Type} (a : option A) (b : A) : A :=
  match a with
  | Some x => x
  | None => b
  end.

(** The values of the first six constants of [spring]. *)
Record Settings : Type := {
  set_mass : R;
  set_stiffness : R;
  set_damping : R;
  set_velocity : R;
  set_endAmplitude : R;
  set_endWindow : nat
}.

Definition settings (options : option SpringOptions) : Settings :=
  let o := orElse options noOptions in
  {| set_mass := orElse (mass o) 2;
     set_stiffness := orElse (stiffness o) 1200;
     set_damping := orElse (damping o) 160;
     set_velocity := orElse (velocity o) 5;
     set_endAmplitude := orElse (endAmplitude o) (1 / 1000);
     set_endWindow := orElse (endWindow o) 20%nat |}.

(** [makeSpringSolver(options)] applied to [t]. *)
Definition solve (mass stiffness damping initialVelocity : R) (t : R) : R :=
  let dampingRatio := damping / (2 * sqrt (stiffness * mass)) in
  let speed := sqrt (stiffness / mass) in
  let position :=
    if Rlt_dec dampingRatio 1 then
      let dampedSpeed := speed * sqrt (1 - dampingRatio * dampingRatio) in
      let B := (dampingRatio * speed + - initialVelocity) / dampedSpeed in
      (cos (dampedSpeed * t) + B * sin (dampedSpeed * t))
      * exp (- t * speed * dampingRatio)
    else
      let B := speed + - initialVelocity in
      (1 + B * t) * exp (- t * speed)
  in
  1 - position.

(** ** The amplitude measurer *)

(** [amplitude.value]: [null], a number, or (for a window of no samples)
    the difference of [Math.max()] and [Math.min()], which is
    [-Infinity]. *)
Inductive Amplitude : Type :=
| AmplitudeNull
| AmplitudeNegInfinity
| AmplitudeNumber (a : R).

(** [sample(value)]: push, then shift while there are more than
    [resolution] samples. *)
Definition sample (resolution : nat) (samples : list R) (value : R) : list R :=
  let pushed := (samples ++ [value])%list in
  skipn (length pushed - resolution) pushed.

Definition maxOf (xs : list R) (x : R) : R := fold_right Rmax x xs.
Definition minOf (xs : list R) (x : R) : R := fold_right Rmin x xs.

Definition amplitudeValue (resolution : nat) (samples : list R) : Amplitude :=
  if Nat.ltb (length samples) resolution then AmplitudeNull
  else match samples with
       | [] => AmplitudeNegInfinity
       | x :: rest => AmplitudeNumber (maxOf rest x - minOf rest x)
       end.

(** [amplitude.value && amplitude.value < _endAmplitude]. *)
Definition belowThreshold (a : Amplitude) (threshold : R) : bool :=
  match a with
  | AmplitudeNull => false
  | AmplitudeNegInfinity => true
  | AmplitudeNumber x =>
      if Req_dec_T x 0 then false
      else if Rlt_dec x threshold then true else false
  end.

(** ** The spring object *)

(** The variables that the closure [step] of one call of [animateTo]
    closes over. *)
Record Animation : Type := {
  anim_id : nat;
  anim_samples : list R;
  anim_endWindow : nat;
  anim_endAmplitude : R;
  anim_mass : R;
  anim_stiffness : R;
  anim_damping : R;
  anim_velocity : R;
  anim_startTime : Z;
  anim_startValue : R;
  anim_endValue : R
}.

(** The closure variables of [spring]: the value, the two counters, the
    settings, the [step] callbacks waiting for an animation frame (oldest
    first) and the ids of the animations whose promise was resolved. *)
Record Spring : Type := {
  currentValue : R;
  nextId : nat;
  currentAnimationId : option nat;
  defaults : Settings;
  scheduled : list Animation;
  resolved : list nat
}.

(** [spring(initialValue, options)]. *)
Definition spring (initialValue : R) (options : option SpringOptions) : Spring :=
  {| currentValue := initialValue; nextId := 0; currentAnimationId := None;
     defaults := settings options; scheduled := []; resolved := [] |}.

Definition get (s : Spring) : R := currentValue s.

(** [snapTo(newValue)]. *)
Definition snapTo (newValue : R) (s : Spring) : Spring :=
  {| currentValue := newValue; nextId := nextId s;
     currentAnimationId := None; defaults := defaults s;
     scheduled := scheduled s; resolved := resolved s |}.

(** [animateTo(endValue, options)]; [reducedMotion] is what the media
    query answers and [now] what [Date.now()] returns during the call. *)
Definition animateTo (reducedMotion : bool) (now : Z) (endValue : R)
    (options : option SpringOptions) (s : Spring) : Spring :=
  if reducedMotion then snapTo endValue s
  else
    let o := orElse options noOptions in
    let d := defaults s in
    let id := nextId s in
    {| currentValue := currentValue s;
       nextId := S id;
       currentAnimationId := Some id;
       defaults := d;
       scheduled :=
         (scheduled s
          ++ [{| anim_id := id;
                 anim_samples := [];
                 anim_endWindow := orElse (endWindow o) (set_endWindow d);
                 anim_endAmplitude := orElse (endAmplitude o) (set_endAmplitude d);
                 anim_mass := orElse (mass o) (set_mass d);
                 anim_stiffness := orElse (stiffness o) (set_stiffness d);
                 anim_damping := orElse (damping o) (set_damping d);
                 anim_velocity := orElse (velocity o) (set_velocity d);
                 anim_startTime := now;
                 anim_startValue := currentValue s;
                 anim_endValue := endValue |}])%list;
       resolved := resolved s |}.

(** The [set] and [update] of the returned object. *)
Definition set (reducedMotion : bool) (now : Z) (newValue : R) (s : Spring) : Spring :=
  animateTo reducedMotion now newValue None s.

Definition update (reducedMotion : bool) (now : Z) (callback : R -> R) (s : Spring)
    : Spring :=
  let newValue := callback (get s) in
  animateTo reducedMotion now newValue None s.

(** The seconds elapsed at [now] and the proportion solved for them. *)
Definition elapsedSeconds (a : Animation) (now : Z) : R :=
  IZR (now - anim_startTime a) / 1000.

Definition proportionAt (a : Animation) (now : Z) : R :=
  solve (anim_mass a) (anim_stiffness a) (anim_damping a) (anim_velocity a)
        (elapsedSeconds a now).

(** The value that [step] writes first. *)
Definition animatedValue (a : Animation) (now : Z) : R :=
  anim_startValue a + (anim_endValue a - anim_startValue a) * proportionAt a now.

Definition Nat_option_eqb (a : option nat) (b : nat) : bool :=
  match a with
  | Some x => Nat.eqb x b
  | None => false
  end.

(** [step()] of the animation [a], run by an animation frame at the time
    [now], with the other waiting callbacks [waiting].  When the animation
    ends, the value is written twice, and [currentValue] is the value
    written last. *)
Definition step (now : Z) (a : Animation) (waiting : list Animation) (s : Spring)
    : Spring :=
  if negb (Nat_option_eqb (currentAnimationId s) (anim_id a)) then
    {| currentValue := currentValue s; nextId := nextId s;
       currentAnimationId := currentAnimationId s; defaults := defaults s;
       scheduled := waiting;
       resolved := (resolved s ++ [anim_id a])%list |}
  else
    let proportion := proportionAt a now in
    let samples := sample (anim_endWindow a) (anim_samples a) proportion in
    let ended :=
      belowThreshold (amplitudeValue (anim_endWindow a) samples)
                     (anim_endAmplitude a) in
    {| currentValue := if ended then anim_endValue a else animatedValue a now;
       nextId := nextId s;
       currentAnimationId := if ended then None else currentAnimationId s;
       defaults := defaults s;
       scheduled :=
         (waiting
          ++ [{| anim_id := anim_id a;
                 anim_samples := samples;
                 anim_endWindow := anim_endWindow a;
                 anim_endAmplitude := anim_endAmplitude a;
                 anim_mass := anim_mass a;
                 anim_stiffness := anim_stiffness a;
                 anim_damping := anim_damping a;
                 anim_velocity := anim_velocity a;
                 anim_startTime := anim_startTime a;
                 anim_startValue := anim_startValue a;
                 anim_endValue := anim_endValue a |}])%list;
       resolved := resolved s |}.

(** The browser runs the oldest waiting callback. *)
Definition runFrame (now : Z) (s : Spring) : Spring :=
  match scheduled s with
  | [] => s
  | a :: waiting => step now a waiting s
  end.

(** ** The equation of the specification *)

(** The damping ratio and the natural speed. *)
Definition zeta (mass stiffness damping : R) : R :=
  damping / (2 * sqrt (stiffness * mass)).

Definition omega (mass stiffness : R) : R := sqrt (stiffness / mass).

(** [Position(t)] as the specification writes it. *)
Definition Position (mass stiffness damping v0 : R) (t : R) : R :=
  let z := zeta mass stiffness damping in
  let w := omega mass stiffness in
  if Rlt_dec z 1 then
    let wd := w * sqrt (1 - z ^ 2) in
    let B := (z * w - v0) / wd in
    (cos (wd * t) + B * sin (wd * t)) * exp (- (t * w * z))
  else
    let B := w - v0 in
    (1 + B * t) * exp (- (t * w)).

(** The settings of a spring made without options. *)
Definition defaultSettings : Settings :=
  {| set_mass := 2; set_stiffness := 1200; set_damping := 160;
     set_velocity := 5; set_endAmplitude := 1 / 1000; set_endWindow := 20 |}.

(** ** Properties of the solver *)

Lemma solve_Position (m k c v0 t : R) :
  solve m k c v0 t = 1 - Position m k c v0 t.
Proof.
  unfold solve, Position, zeta, omega. cbv zeta.
  set (z := c / (2 * sqrt (k * m))). set (w := sqrt (k / m)).
  destruct (Rlt_dec z 1) as [Hz | Hz].
  - replace (1 - z * z) with (1 - z ^ 2) by ring.
    replace (z * w + - v0) with (z * w - v0) by ring.
    replace (- t * w * z) with (- (t * w * z)) by ring.
    reflexivity.
  - replace (w + - v0) with (w - v0) by ring.
    replace (- t * w) with (- (t * w)) by ring.
    reflexivity.
Qed.

(** At no elapsed time the position is 1 and the proportion 0. *)
Lemma solve_at_start (m k c v0 : R) : solve m k c v0 0 = 0.
Proof.
  unfold solve. cbv zeta.
  destruct (Rlt_dec (c / (2 * sqrt (k * m))) 1).
  - rewrite !Rmult_0_r, cos_0, sin_0.
    replace (- 0 * sqrt (k / m) * (c / (2 * sqrt (k * m)))) with 0 by ring.
    rewrite exp_0. ring.
  - replace (- 0 * sqrt (k / m)) with 0 by ring.
    rewrite exp_0. ring.
Qed.

(** The default spring is over-damped: its damping ratio is
    [80 / sqrt 2400], which is not below 1. *)
Lemma zeta_default : ~ zeta 2 1200 160 < 1.
Proof.
  unfold zeta. replace (1200 * 2) with 2400 by ring.
  assert (Hpos : 0 < sqrt 2400) by (apply sqrt_lt_R0; lra).
  assert (Hle : sqrt 2400 <= 80).
  { replace 80 with (sqrt (80 * 80)) by (apply sqrt_square; lra).
    apply sqrt_le_1_alt. lra. }
  intros Hlt.
  assert (H : 160 / (2 * sqrt 2400) * (2 * sqrt 2400) < 1 * (2 * sqrt 2400))
    by (apply Rmult_lt_compat_r; lra).
  unfold Rdiv in H. rewrite Rmult_assoc, Rinv_l in H by lra. lra.
Qed.

Lemma Position_default (t : R) :
  Position 2 1200 160 5 t = (1 + (sqrt 600 - 5) * t) * exp (- (t * sqrt 600)).
Proof.
  unfold Position. cbv zeta.
  destruct (Rlt_dec (zeta 2 1200 160) 1) as [H | _];
    [now apply zeta_default in H|].
  unfold omega. now replace (1200 / 2) with 600 by lra.
Qed.

(** Without damping the spring swings for ever. *)
Lemma Position_undamped (v0 t : R) :
  Position 1 1 0 v0 t = cos t - v0 * sin t.
Proof.
  unfold Position, zeta, omega. cbv zeta.
  replace (1 * 1) with 1 by ring. replace (1 / 1) with 1 by lra.
  rewrite sqrt_1. replace (0 / (2 * 1)) with 0 by lra.
  destruct (Rlt_dec 0 1) as [_ | H]; [|lra].
  replace (1 - 0 ^ 2) with 1 by ring. rewrite sqrt_1.
  replace (- (t * 1 * 0)) with 0 by ring. rewrite exp_0.
  replace (1 * 1 * t) with t by ring. replace (1 * 1) with 1 by ring.
  unfold Rdiv. rewrite Rinv_1. ring.
Qed.

(** A frame shortly after the start of an animation does not end it: the
    window of samples is not full. *)
Lemma first_frame (later : Z) (a : Animation) (waiting : list Animation)
    (s : Spring) :
  currentAnimationId s = Some (anim_id a) ->
  (length (anim_samples a) + 1 < anim_endWindow a)%nat ->
  get (step later a waiting s) = animatedValue a later /\
  currentAnimationId (step later a waiting s) = Some (anim_id a).
Proof.
  intros Hcur Hlen. unfold step. rewrite Hcur. cbn [Nat_option_eqb].
  rewrite Nat.eqb_refl. cbn [negb].
  assert (Hnull : amplitudeValue (anim_endWindow a)
                    (sample (anim_endWindow a) (anim_samples a)
                            (proportionAt a later)) = AmplitudeNull).
  { unfold amplitudeValue, sample.
    assert (Hl : (length (skipn (length (anim_samples a ++ [proportionAt a later])
                                 - anim_endWindow a)
                                (anim_samples a ++ [proportionAt a later]))
                  < anim_endWindow a)%nat).
    { rewrite length_skipn, length_app. cbn [length]. lia. }
    apply Nat.ltb_lt in Hl. now rewrite Hl. }
  rewrite Hnull. cbn [belowThreshold get currentValue currentAnimationId].
  split; reflexivity.
Qed.

(** C7: the defaults are mass 2, stiffness 1200, damping 160, velocity 5,
    end amplitude 0.001 and end window 20, and a call of [animateTo]
    without options animates with them.  For every time [t] the solver
    returns one minus the position of the damped harmonic oscillator.  The
    elapsed time of a frame at [later] is [(later - startTime) / 1000]
    seconds, and the value written for it is
    [startValue + (endValue - startValue) * (1 - Position(t))] at that
    [t].  For the defaults [Position] is the over-damped branch,
    [(1 + (sqrt 600 - 5) t) e^(- t sqrt 600)]; without damping it is the
    under-damped one, [cos t - v0 sin t] for mass and stiffness 1. *)
Theorem spring_defaults_and_position
    (m k c v0 t initialValue endValue : R) (a : Animation) (now later : Z) :
  settings None = defaultSettings /\
  defaults (spring initialValue None) = defaultSettings /\
  scheduled (animateTo false now endValue None (spring initialValue None))
    = [{| anim_id := 0; anim_samples := [];
          anim_endWindow := 20; anim_endAmplitude := 1 / 1000;
          anim_mass := 2; anim_stiffness := 1200; anim_damping := 160;
          anim_velocity := 5;
          anim_startTime := now; anim_startValue := initialValue;
          anim_endValue := endValue |}] /\
  solve m k c v0 t = 1 - Position m k c v0 t /\
  elapsedSeconds a later = IZR (later - anim_startTime a) / 1000 /\
  ((anim_startTime a <= later)%Z -> 0 <= elapsedSeconds a later) /\
  animatedValue a later
    = anim_startValue a
      + (anim_endValue a - anim_startValue a)
        * (1 - Position (anim_mass a) (anim_stiffness a) (anim_damping a)
                        (anim_velocity a)
                        (IZR (later - anim_startTime a) / 1000)) /\
  Position 2 1200 160 5 t = (1 + (sqrt 600 - 5) * t) * exp (- (t * sqrt 600)) /\
  Position 1 1 0 v0 t = cos t - v0 * sin t /\
  get (runFrame later
         (animateTo false now endValue None (spring initialValue None)))
    = initialValue
      + (endValue - initialValue)
        * (1 - (1 + (sqrt 600 - 5) * (IZR (later - now) / 1000))
               * exp (- (IZR (later - now) / 1000 * sqrt 600))).
Proof.
  split; [reflexivity|]. split; [reflexivity|]. split; [reflexivity|].
  split; [apply solve_Position|]. split; [reflexivity|].
  split.
  { intros Hnow. unfold elapsedSeconds.
    assert (H : 0 <= IZR (later - anim_startTime a)) by (apply IZR_le; lia).
    lra. }
  split.
  { unfold animatedValue, proportionAt, elapsedSeconds.
    now rewrite solve_Position. }
  split; [apply Position_default|]. split; [apply Position_undamped|].
  unfold animateTo, runFrame. cbn [scheduled spring app nextId currentValue
    defaults orElse noOptions endWindow endAmplitude mass stiffness damping
    velocity settings set_endWindow set_endAmplitude set_mass set_stiffness
    set_damping set_velocity].
  match goal with
  | |- get (step later ?a0 [] ?s0) = _ =>
      destruct (@first_frame later a0 [] s0 eq_refl) as [Hget _];
      [cbn; lia | rewrite Hget]
  end.
  unfold animatedValue, proportionAt, elapsedSeconds.
  cbn [anim_startValue anim_endValue anim_mass anim_stiffness anim_damping
       anim_velocity anim_startTime].
  now rewrite solve_Position, Position_default.
Qed.

(** ** Properties of the setters *)

(** A critically damped spring that starts faster than it settles: mass 1,
    stiffness 1, damping 2 and velocity 2. *)
Definition eagerOptions : SpringOptions :=
  {| mass := Some 1; stiffness := Some 1; damping := Some 2;
     velocity := Some 2; endAmplitude := None; endWindow := None |}.

(** A critically damped spring whose animation ends at the second frame:
    mass 1, stiffness 1, damping 2, velocity 1, end amplitude 1 and a
    window of two samples. *)
Definition briefOptions : SpringOptions :=
  {| mass := Some 1; stiffness := Some 1; damping := Some 2;
     velocity := Some 1; endAmplitude := Some 1; endWindow := Some 2%nat |}.

(** The eager spring is at its end value after one second: its position
    is [(1 - t) e^(-t)]. *)
Lemma solve_eager : solve 1 1 2 2 1 = 1.
Proof.
  unfold solve. cbv zeta.
  replace (1 * 1) with 1 by ring. replace (1 / 1) with 1 by lra.
  rewrite sqrt_1. replace (2 / (2 * 1)) with 1 by lra.
  destruct (Rlt_dec 1 1) as [H | _]; [lra|].
  replace (1 + (1 + - 2) * 1) with 0 by ring. ring.
Qed.

(** The position of the brief spring is [e^(-t)]. *)
Lemma solve_brief (t : R) : solve 1 1 2 1 t = 1 - exp (- t).
Proof.
  unfold solve. cbv zeta.
  replace (1 * 1) with 1 by ring. replace (1 / 1) with 1 by lra.
  rewrite sqrt_1. replace (2 / (2 * 1)) with 1 by lra.
  destruct (Rlt_dec 1 1) as [H | _]; [lra|].
  replace (- t * 1) with (- t) by ring. ring.
Qed.

(** C10 (as the claim states it, refuted): the value can be the new one
    while the animation is still running.  On the eager spring, [set(1)]
    at the value 0 leaves the value at 0; the frame one second later
    writes exactly 1, and the animation is still the current one (one
    sample of twenty is taken). *)
Lemma set_reaches_value_before_the_end :
  get (set false 0 1 (spring 0 (Some eagerOptions))) = 0 /\
  get (runFrame 1000 (set false 0 1 (spring 0 (Some eagerOptions)))) = 1 /\
  currentAnimationId
    (runFrame 1000 (set false 0 1 (spring 0 (Some eagerOptions))))
  = Some 0%nat.
Proof.
  split; [reflexivity|].
  unfold set, animateTo, runFrame. cbn [scheduled spring app nextId currentValue
    defaults orElse noOptions eagerOptions endWindow endAmplitude mass stiffness
    damping velocity settings set_endWindow set_endAmplitude set_mass
    set_stiffness set_damping set_velocity].
  match goal with
  | |- get (step 1000 ?a0 [] ?s0) = _ /\ _ =>
      destruct (@first_frame 1000 a0 [] s0 eq_refl) as [Hget Hcur];
      [cbn; lia | rewrite Hget, Hcur]
  end.
  split; [|reflexivity].
  unfold animatedValue, proportionAt, elapsedSeconds.
  cbn [anim_startValue anim_endValue anim_mass anim_stiffness anim_damping
       anim_velocity anim_startTime].
  replace (IZR (1000 - 0) / 1000) with 1 by (cbn; lra).
  rewrite solve_eager. ring.
Qed.

(** The end test on a window of two samples. *)
Lemma belowThreshold_pair (p q threshold : R) :
  belowThreshold (amplitudeValue 2 [q; p]) threshold = true
  <-> Rmax p q - Rmin p q <> 0 /\ Rmax p q - Rmin p q < threshold.
Proof.
  cbn [amplitudeValue length Nat.ltb Nat.leb maxOf minOf fold_right
       belowThreshold].
  destruct (Req_dec_T (Rmax p q - Rmin p q) 0) as [Hz | Hz].
  - split; [discriminate | intros [H _]; contradiction].
  - destruct (Rlt_dec (Rmax p q - Rmin p q) threshold) as [Hlt | Hlt].
    + split; [intros _; split; assumption | reflexivity].
    + split; [discriminate | intros [_ H]; contradiction].
Qed.

(** [step], when the animation is the current one. *)
Lemma step_current (later : Z) (a : Animation) (waiting : list Animation)
    (s : Spring) :
  currentAnimationId s = Some (anim_id a) ->
  let window :=
    skipn (length (anim_samples a ++ [proportionAt a later])
           - anim_endWindow a)
          (anim_samples a ++ [proportionAt a later]) in
  let ended :=
    belowThreshold (amplitudeValue (anim_endWindow a) window)
                   (anim_endAmplitude a) in
  get (step later a waiting s)
    = (if ended then anim_endValue a else animatedValue a later) /\
  currentAnimationId (step later a waiting s)
    = (if ended then None else Some (anim_id a)) /\
  map anim_samples (scheduled (step later a waiting s))
    = (map anim_samples waiting ++ [window])%list.
Proof.
  intros Hcur. cbv zeta. unfold step. rewrite Hcur. cbn [Nat_option_eqb].
  rewrite Nat.eqb_refl. cbn [negb get currentValue currentAnimationId
    scheduled]. unfold sample. rewrite map_app. repeat split.
Qed.

(** The animation that [set] starts on the brief spring, with the samples
    taken so far. *)
Definition briefAnimation (now : Z) (startValue endValue : R)
    (samples : list R) : Animation :=
  {| anim_id := 0; anim_samples := samples;
     anim_endWindow := 2; anim_endAmplitude := 1;
     anim_mass := 1; anim_stiffness := 1; anim_damping := 2;
     anim_velocity := 1;
     anim_startTime := now; anim_startValue := startValue;
     anim_endValue := endValue |}.

(** The brief spring while the animation of [set] is under way or over. *)
Definition briefSpring (value : R) (current : option nat)
    (waiting : list Animation) (done : list nat) : Spring :=
  {| currentValue := value; nextId := 1; currentAnimationId := current;
     defaults := settings (Some briefOptions);
     scheduled := waiting; resolved := done |}.

Lemma proportionAt_brief (now : Z) (startValue endValue : R)
    (samples : list R) (ms : Z) :
  proportionAt (briefAnimation now startValue endValue samples) (now + ms)
  = 1 - exp (- (IZR ms / 1000)).
Proof.
  unfold proportionAt, elapsedSeconds, briefAnimation.
  cbn [anim_mass anim_stiffness anim_damping anim_velocity anim_startTime].
  replace (now + ms - now)%Z with ms by lia. apply solve_brief.
Qed.

Lemma brief_first_frame (now : Z) (startValue endValue : R) :
  runFrame (now + 1000)
    (briefSpring startValue (Some 0%nat)
       [briefAnimation now startValue endValue []] [])
  = briefSpring (startValue + (endValue - startValue) * (1 - exp (- (1))))
      (Some 0%nat)
      [briefAnimation now startValue endValue [1 - exp (- (1))]] [].
Proof.
  unfold runFrame, briefSpring. cbn [scheduled]. unfold step, animatedValue.
  rewrite proportionAt_brief.
  replace (IZR 1000 / 1000) with 1 by lra.
  reflexivity.
Qed.

Lemma brief_second_frame (now : Z) (startValue endValue value : R) :
  runFrame (now + 2000)
    (briefSpring value (Some 0%nat)
       [briefAnimation now startValue endValue [1 - exp (- (1))]] [])
  = briefSpring endValue None
      [briefAnimation now startValue endValue
         [1 - exp (- (1)); 1 - exp (- (2))]] [].
Proof.
  assert (Hexp : exp (- (2)) < exp (- (1)) < 1).
  { split; [apply exp_increasing; lra|].
    pose proof (exp_increasing (- (1)) 0) as H. rewrite exp_0 in H.
    apply H. lra. }
  assert (Hend : belowThreshold
                   (amplitudeValue 2 [1 - exp (- (1)); 1 - exp (- (2))]) 1
                 = true).
  { apply belowThreshold_pair. pose proof (exp_pos (- (2))) as Hpos.
    rewrite Rmax_left, Rmin_right by lra. split; lra. }
  unfold runFrame, briefSpring. cbn [scheduled]. unfold step, animatedValue.
  rewrite proportionAt_brief.
  replace (IZR 2000 / 1000) with 2 by lra.
  cbn [anim_id anim_samples anim_endWindow anim_endAmplitude briefAnimation
       currentAnimationId Nat_option_eqb Nat.eqb negb].
  unfold sample. cbn [app length Nat.sub skipn]. rewrite Hend.
  reflexivity.
Qed.

(** C10 (amended): [set] and [update] do what [animateTo] does.  Right
    after the call the value is still the one before it, an animation
    towards the new value is the current one and its first frame is
    waiting; under reduced motion the call is [snapTo] and the value is
    the new one at once.  A frame of the current animation takes the
    proportion as a sample and looks at the last [endWindow] samples: when
    that window is full and the difference of its greatest and its least
    sample is not zero and below the end amplitude, the frame writes
    exactly the end value and ends the animation; otherwise it writes the
    animated value, whatever that is, and the animation goes on.  A frame
    of an animation that is not current writes nothing.  On the brief
    spring the animation started by [set] ends at its second frame, which
    leaves exactly the new value. *)
Theorem set_and_update_animate
    (s : Spring) (v initialValue : R) (callback : R -> R)
    (reducedMotion : bool) (now later : Z) :
  set reducedMotion now v s = animateTo reducedMotion now v None s /\
  update reducedMotion now callback s
    = animateTo reducedMotion now (callback (get s)) None s /\
  get (set false now v s) = get s /\
  get (update false now callback s) = get s /\
  currentAnimationId (set false now v s) = Some (nextId s) /\
  (exists a, scheduled (set false now v s) = (scheduled s ++ [a])%list /\
             anim_id a = nextId s /\ anim_startTime a = now /\
             anim_startValue a = get s /\ anim_endValue a = v /\
             anim_samples a = [] /\
             animatedValue a now = get s) /\
  set true now v s = snapTo v s /\
  get (set true now v s) = v /\
  currentAnimationId (set true now v s) = None /\
  (forall (a : Animation) (waiting : list Animation) (s' : Spring),
     currentAnimationId s' = Some (anim_id a) ->
     let window :=
       skipn (length (anim_samples a ++ [proportionAt a later])
              - anim_endWindow a)
             (anim_samples a ++ [proportionAt a later]) in
     (if belowThreshold (amplitudeValue (anim_endWindow a) window)
                        (anim_endAmplitude a)
      then get (step later a waiting s') = anim_endValue a /\
           currentAnimationId (step later a waiting s') = None
      else get (step later a waiting s') = animatedValue a later /\
           currentAnimationId (step later a waiting s') = Some (anim_id a)) /\
     map anim_samples (scheduled (step later a waiting s'))
       = (map anim_samples waiting ++ [window])%list) /\
  (forall (a : Animation) (waiting : list Animation) (s' : Spring) (q : R),
     currentAnimationId s' = Some (anim_id a) ->
     anim_endWindow a = 2%nat -> anim_samples a = [q] ->
     (currentAnimationId (step later a waiting s') = None
      <-> Rmax (proportionAt a later) q - Rmin (proportionAt a later) q <> 0 /\
          Rmax (proportionAt a later) q - Rmin (proportionAt a later) q
          < anim_endAmplitude a)) /\
  (forall (a : Animation) (waiting : list Animation) (s' : Spring),
     currentAnimationId s' = Some (anim_id a) ->
     (length (anim_samples a) + 1 < anim_endWindow a)%nat ->
     get (step later a waiting s') = animatedValue a later /\
     currentAnimationId (step later a waiting s') = Some (anim_id a)) /\
  (forall (a : Animation) (waiting : list Animation) (s' : Spring),
     currentAnimationId s' <> Some (anim_id a) ->
     get (step later a waiting s') = get s' /\
     currentAnimationId (step later a waiting s') = currentAnimationId s' /\
     scheduled (step later a waiting s') = waiting) /\
  (let s1 := set false now v (spring initialValue (Some briefOptions)) in
   let s2 := runFrame (now + 1000) s1 in
   let s3 := runFrame (now + 2000) s2 in
   get s1 = initialValue /\
   get s2 = initialValue + (v - initialValue) * (1 - exp (- (1))) /\
   currentAnimationId s2 = Some 0%nat /\
   get s3 = v /\
   currentAnimationId s3 = None /\
   resolved s3 = [] /\
   get (runFrame later s3) = v /\
   resolved (runFrame later s3) = [0%nat] /\
   scheduled (runFrame later s3) = []).
Proof.
  split; [reflexivity|]. split; [reflexivity|].
  split; [reflexivity|]. split; [reflexivity|].
  split; [reflexivity|].
  split.
  { eexists. split; [reflexivity|]. repeat split.
    unfold animatedValue, proportionAt, elapsedSeconds. simpl.
    rewrite Z.sub_diag.
    replace (0 / 1000) with 0 by (unfold Rdiv; ring).
    rewrite solve_at_start. unfold get. ring. }
  split; [reflexivity|]. split; [reflexivity|]. split; [reflexivity|].
  split.
  { intros a waiting s' Hcur. cbv zeta.
    destruct (@step_current later a waiting s' Hcur) as [Hget [Hid Hs]].
    split; [|exact Hs].
    destruct (belowThreshold _ _); split; assumption. }
  split.
  { intros a waiting s' q Hcur Hwin Hq.
    destruct (@step_current later a waiting s' Hcur) as [_ [Hid _]].
    rewrite Hid, Hwin, Hq. cbn [app length Nat.sub skipn].
    rewrite <- belowThreshold_pair. clear Hid.
    destruct (belowThreshold _ _); split; intros H;
      reflexivity || discriminate H. }
  split; [intros a waiting s' Hcur Hlen; now apply first_frame|].
  split.
  { intros a waiting s' Hcur. unfold step.
    assert (Hneq : Nat_option_eqb (currentAnimationId s') (anim_id a) = false).
    { destruct (currentAnimationId s') as [x|] eqn:Hx; simpl; [|reflexivity].
      apply Nat.eqb_neq. intros ->. now apply Hcur. }
    rewrite Hneq. simpl. repeat split. }
  cbv zeta.
  change (set false now v (spring initialValue (Some briefOptions)))
    with (briefSpring initialValue (Some 0%nat)
            [briefAnimation now initialValue v []] []).
  rewrite brief_first_frame, brief_second_frame.
  repeat split.
Qed.

End Spring.

(* ===================================================================== *)
(** * The function-style state container: [state] (state.js) *)
(* ===================================================================== *)

Module StateFn.

Import Js.

(** The argument of a call [instance(arg)]. *)
Inductive Arg (V : Type) : Type :=
| ArgListener (listener : nat)
| ArgUndefined
| ArgValue (v : V).

Arguments ArgListener {V} listener.
Arguments ArgUndefined {V}.
Arguments ArgValue {V} v.

(** What a call returns: the function that cancels the listener just
    added, or the value. *)
Inductive Returned (V : Type) : Type :=
| ReturnedCancel (listener : nat)
| ReturnedValue (v : option V).

Arguments ReturnedCancel {V} listener.
Arguments ReturnedValue {V} v.

(** What a method of [methods] returns. *)
Inductive MethodResult (V : Type) : Type :=
| MethodFunction
| MethodUndefined
| MethodValue (v : V).

Arguments MethodFunction {V}.
Arguments MethodUndefined {V}.
Arguments MethodValue {V} v.

(** The closure variables of [state]: [value] ([None] is [undefined]),
    [listeners], [isInnerSet] and [options.immutable]. *)
Record State (V : Type) : Type := {
  value : option V;
  listeners : list nat;
  isInnerSet : bool;
  immutable : bool
}.

Arguments value {V} s.
Arguments listeners {V} s.
Arguments isInnerSet {V} s.
Arguments immutable {V} s.

Section Instance.

Variable V : Type.

(** [a === b] on the values stored (not functions, not [undefined]). *)
Variable strictEq : V -> V -> bool.

(** [cancels l v]: the listener [l], called with the value [v], calls the
    cancel function it is given.  Nothing else of what a listener does is
    modelled. *)
Variable cancels : nat -> V -> bool.

(** The text of [`${arg}`] in the error message. *)
Variable show : V -> string.

(** [state(initialValue, methods, options)]. *)
Definition state (initialValue : option V) (isImmutable : bool) : State V :=
  {| value := initialValue; listeners := []; isInnerSet := false;
     immutable := isImmutable |}.

(** [arg !== value]. *)
Definition differs (arg : V) (current : option V) : bool :=
  match current with
  | Some v => negb (strictEq arg v)
  | None => true
  end.

(** [cancelled.includes(x)]. *)
Definition includes (x : nat) (xs : list nat) : bool := existsb (Nat.eqb x) xs.

(** [instance(arg)]; the trace lists the listeners called, in order. *)
Definition instance (arg : Arg V) (s : State V)
    : result (State V * Returned V * list nat) :=
  match arg with
  | ArgListener l =>
      Ok ({| value := value s; listeners := listeners s ++ [l];
             isInnerSet := isInnerSet s; immutable := immutable s |},
          ReturnedCancel l, [])
  | ArgUndefined =>
      Ok ({| value := value s; listeners := listeners s;
             isInnerSet := false; immutable := immutable s |},
          ReturnedValue (value s), [])
  | ArgValue a =>
      if negb (isInnerSet s) && immutable s then
        Throw (Error ("Immutable states cannot be directly set. Received: "
                      ++ show a)%string)
      else if differs a (value s) then
        let cancelled := filter (fun l => cancels l a) (listeners s) in
        Ok ({| value := Some a;
               listeners := filter (fun x => negb (includes x cancelled))
                                   (listeners s);
               isInnerSet := false; immutable := immutable s |},
            ReturnedValue (Some a), listeners s)
      else
        Ok ({| value := value s; listeners := listeners s;
               isInnerSet := false; immutable := immutable s |},
            ReturnedValue (value s), [])
  end.

(** [listeners.indexOf(arg)]. *)
Fixpoint indexOf (l : nat) (xs : list nat) : option nat :=
  match xs with
  | [] => None
  | x :: rest =>
      if Nat.eqb x l then Some 0
      else option_map S (indexOf l rest)
  end.

(** [xs.splice(i, 1)] for an index [i] in range. *)
Fixpoint removeAt (i : nat) (xs : list nat) : list nat :=
  match xs, i with
  | [], _ => []
  | _ :: rest, 0 => rest
  | x :: rest, S j => x :: removeAt j rest
  end.

(** The function returned for a listener:
    [listeners.splice(listeners.indexOf(arg), 1)].  The index is -1 when
    the listener is not in the array, and [splice(-1, 1)] removes the last
    element. *)
Definition cancel (l : nat) (s : State V) : State V :=
  {| value := value s;
     listeners :=
       match indexOf l (listeners s) with
       | Some i => removeAt i (listeners s)
       | None => removelast (listeners s)
       end;
     isInnerSet := isInnerSet s; immutable := immutable s |}.

(** ** Properties *)

(** The state after [instance(listener)]. *)
Definition subscribed (l : nat) (s : State V) : State V :=
  {| value := value s; listeners := listeners s ++ [l];
     isInnerSet := isInnerSet s; immutable := immutable s |}.

Lemma indexOf_absent (l : nat) (xs : list nat) :
  ~ In l xs -> indexOf l xs = None.
Proof.
  induction xs as [|x rest IH]; intros Hnot; simpl; [reflexivity|].
  destruct (Nat.eqb x l) eqn:Hx.
  - apply Nat.eqb_eq in Hx. exfalso. apply Hnot. now left.
  - rewrite IH; [reflexivity|]. intros H. apply Hnot. now right.
Qed.

Lemma indexOf_appended (l : nat) (xs : list nat) :
  ~ In l xs -> indexOf l (xs ++ [l]) = Some (length xs).
Proof.
  induction xs as [|x rest IH]; intros Hnot; simpl.
  - now rewrite Nat.eqb_refl.
  - destruct (Nat.eqb x l) eqn:Hx.
    + apply Nat.eqb_eq in Hx. exfalso. apply Hnot. now left.
    + rewrite IH; [reflexivity|]. intros H. apply Hnot. now right.
Qed.

Lemma removeAt_appended (l : nat) (xs : list nat) :
  removeAt (length xs) (xs ++ [l]) = xs.
Proof.
  induction xs as [|x rest IH]; simpl; [reflexivity | now rewrite IH].
Qed.

(** Subscribing and cancelling is a round trip, and the cancel function
    is not idempotent: a second call removes the last listener that is
    left. *)
Theorem cancel_twice_removes_last_listener (l : nat) (s : State V) :
  ~ In l (listeners s) ->
  instance (ArgListener l) s = Ok (subscribed l s, ReturnedCancel l, []) /\
  cancel l (subscribed l s) = s /\
  listeners (cancel l (cancel l (subscribed l s))) = removelast (listeners s).
Proof.
  intros Hnot. split; [reflexivity|].
  assert (Hfirst : cancel l (subscribed l s) = s).
  { unfold cancel, subscribed. cbn [listeners value isInnerSet immutable].
    rewrite indexOf_appended by exact Hnot. rewrite removeAt_appended.
    now destruct s. }
  split; [exact Hfirst|].
  rewrite Hfirst. unfold cancel. cbn [listeners].
  now rewrite indexOf_absent by exact Hnot.
Qed.



(** ** Listeners that throw, and the methods *)

(** [throws l v]: the listener [l], called with the value [v], throws.
    A listener that calls the state itself while it is notified is not
    modelled. *)
Variable throws : nat -> V -> bool.

(** How a call ends: it returns, it throws an exception of its own, or it
    is left by the exception of a listener. *)
Inductive Completion : Type :=
| Returns (r : Returned V)
| Throws (e : JsError)
| ListenerThrew (listener : nat).

(** The loop [for (const listener of listeners)]: the listeners called, in
    order, and the listener whose exception ended the loop, if any. *)
Fixpoint notifyAll (a : V) (ls : list nat) : list nat * option nat :=
  match ls with
  | [] => ([], None)
  | l :: rest =>
      if throws l a then ([l], Some l)
      else let '(called, thrown) := notifyAll a rest in (l :: called, thrown)
  end.

(** [instance(arg)] with such listeners: the closure variables and the
    listeners called when the call ends, and how it ends.  An exception of
    a listener leaves the loop and the call at once: the value is
    written, but the listeners are not filtered and [isInnerSet] is not
    lowered. *)
Definition instanceOutcome (arg : Arg V) (s : State V)
    : State V * list nat * Completion :=
  match arg with
  | ArgListener l =>
      ({| value := value s; listeners := listeners s ++ [l];
          isInnerSet := isInnerSet s; immutable := immutable s |},
       [], Returns (ReturnedCancel l))
  | ArgUndefined =>
      ({| value := value s; listeners := listeners s;
          isInnerSet := false; immutable := immutable s |},
       [], Returns (ReturnedValue (value s)))
  | ArgValue a =>
      if negb (isInnerSet s) && immutable s then
        (s, [],
         Throws (Error ("Immutable states cannot be directly set. Received: "
                        ++ show a)%string))
      else if differs a (value s) then
        match notifyAll a (listeners s) with
        | (called, Some l) =>
            ({| value := Some a; listeners := listeners s;
                isInnerSet := isInnerSet s; immutable := immutable s |},
             called, ListenerThrew l)
        | (called, None) =>
            let cancelled := filter (fun l => cancels l a) (listeners s) in
            ({| value := Some a;
                listeners := filter (fun x => negb (includes x cancelled))
                                    (listeners s);
                isInnerSet := false; immutable := immutable s |},
             called, Returns (ReturnedValue (Some a)))
        end
      else
        ({| value := value s; listeners := listeners s;
            isInnerSet := false; immutable := immutable s |},
         [], Returns (ReturnedValue (value s)))
  end.

(** [instance[method](...args)] for a method whose result on the current
    value is [method (value s)]; the call returns [instance], which is
    [Returns (ReturnedValue _)] here. *)
Definition callMethod (method : option V -> MethodResult V) (s : State V)
    : State V * list nat * Completion :=
  match method (value s) with
  | MethodFunction =>
      (s, [], Throws (TypeError "State methods cannot return functions."%string))
  | MethodUndefined =>
      instanceOutcome ArgUndefined
        {| value := value s; listeners := listeners s;
           isInnerSet := true; immutable := immutable s |}
  | MethodValue v =>
      instanceOutcome (ArgValue v)
        {| value := value s; listeners := listeners s;
           isInnerSet := true; immutable := immutable s |}
  end.

(** ** Sequences of calls *)

(** A call made by user code. *)
Inductive Op : Type :=
| OpCall (arg : Arg V)
| OpCancel (listener : nat)
| OpMethod (method : option V -> MethodResult V).

Definition applyOp (op : Op) (s : State V) : State V :=
  match op with
  | OpCall arg => fst (fst (instanceOutcome arg s))
  | OpCancel l => cancel l s
  | OpMethod method => fst (fst (callMethod method s))
  end.

Definition runOps (ops : list Op) (s : State V) : State V :=
  fold_left (fun s op => applyOp op s) ops s.

Definition isDirectSet (op : Op) : bool :=
  match op with
  | OpCall (ArgValue _) => true
  | _ => false
  end.

(** No listener ever throws. *)
Definition peaceful : Prop := forall l v, throws l v = false.

Lemma notifyAll_peaceful (a : V) (ls : list nat) :
  peaceful -> notifyAll a ls = (ls, None).
Proof.
  intros Hp. induction ls as [|l rest IH]; [reflexivity|].
  cbn [notifyAll]. now rewrite Hp, IH.
Qed.

(** With listeners that do not throw, [instanceOutcome] is [instance]. *)
Lemma instanceOutcome_peaceful (arg : Arg V) (s : State V) :
  peaceful ->
  match instance arg s with
  | Ok (s', r, called) => instanceOutcome arg s = (s', called, Returns r)
  | Throw e => instanceOutcome arg s = (s, [], Throws e)
  end.
Proof.
  intros Hp. destruct arg as [l| |a]; cbn [instance instanceOutcome];
    try reflexivity.
  destruct (negb (isInnerSet s) && immutable s); [reflexivity|].
  destruct (differs a (value s)); [|reflexivity].
  now rewrite notifyAll_peaceful.
Qed.

(** The first listener that throws ends the loop. *)
Lemma notifyAll_throws (a : V) (ls : list nat) (l : nat) :
  In l ls -> throws l a = true ->
  exists called l', notifyAll a ls = (called, Some l') /\ throws l' a = true.
Proof.
  induction ls as [|x rest IH]; intros Hin Hl; [destruct Hin|].
  cbn [notifyAll]. destruct (throws x a) eqn:Hx.
  - exists [x], x. now split.
  - destruct Hin as [-> | Hin]; [congruence|].
    destruct (IH Hin Hl) as [called [l' [Heq Hl']]].
    rewrite Heq. exists (x :: called), l'. now split.
Qed.

Lemma applyOp_immutable (op : Op) (s : State V) :
  peaceful ->
  immutable s = true -> isInnerSet s = false ->
  immutable (applyOp op s) = true /\ isInnerSet (applyOp op s) = false /\
  (isDirectSet op = true -> applyOp op s = s).
Proof.
  intros Hp Himm Hinner. destruct op as [[l| |a]|l|method]; simpl.
  - repeat split; try assumption; try discriminate.
  - repeat split; try assumption; try discriminate.
  - rewrite Hinner, Himm. simpl. repeat split; assumption.
  - repeat split; try assumption; try discriminate.
  - unfold callMethod. destruct (method (value s)); simpl.
    + repeat split; try assumption; try discriminate.
    + repeat split; try assumption; try discriminate.
    + destruct (differs v (value s)); simpl;
        rewrite ?notifyAll_peaceful by exact Hp; simpl;
        (repeat split; try assumption; try discriminate).
Qed.

(** An immutable state refuses a direct set as long as [isInnerSet] is
    lowered, and it is lowered after any sequence of calls whose listeners
    do not throw: then a direct set throws, and the state is the one that
    the other calls alone lead to.  A listener that throws while a method
    notifies it leaves the new value written and [isInnerSet] raised: the
    next direct set is not refused, it writes its value and lowers the
    flag again.  In general no direct set is refused while [isInnerSet]
    is raised, which is also how a listener finds the state when a method
    notifies it. *)
Theorem immutable_state_guards_direct_sets
    (initialValue : option V) (ops : list Op) (a : V) :
  (peaceful ->
   instanceOutcome (ArgValue a) (runOps ops (state initialValue true))
     = (runOps ops (state initialValue true), [],
        Throws (Error ("Immutable states cannot be directly set. Received: "
                       ++ show a)%string)) /\
   runOps ops (state initialValue true)
     = runOps (filter (fun op => negb (isDirectSet op)) ops)
              (state initialValue true)) /\
  (forall (s : State V) (method : option V -> MethodResult V) (v : V) (l : nat),
     immutable s = true ->
     method (value s) = MethodValue v ->
     differs v (value s) = true ->
     In l (listeners s) -> throws l v = true ->
     exists called l',
       callMethod method s
         = ({| value := Some v; listeners := listeners s;
               isInnerSet := true; immutable := true |},
            called, ListenerThrew l') /\
       throws l' v = true /\
       value (fst (fst (instanceOutcome (ArgValue a)
                          (fst (fst (callMethod method s))))))
         = (if differs a (Some v) then Some a else Some v) /\
       (forall e, snd (instanceOutcome (ArgValue a)
                         (fst (fst (callMethod method s)))) <> Throws e) /\
       ((forall x, In x (listeners s) -> throws x a = false) ->
        isInnerSet (fst (fst (instanceOutcome (ArgValue a)
                                (fst (fst (callMethod method s))))))
          = false)) /\
  (forall s : State V,
     isInnerSet s = true ->
     forall e, snd (instanceOutcome (ArgValue a) s) <> Throws e).
Proof.
  split; [|split].
  3:{ intros s Hinner e. unfold instanceOutcome. rewrite Hinner.
      cbn [negb andb]. destruct (differs a (value s)); [|discriminate].
      destruct (notifyAll a (listeners s)) as [called [l|]]; discriminate. }
  - intros Hp.
    assert (Hgen : forall s, immutable s = true -> isInnerSet s = false ->
              (immutable (runOps ops s) = true /\ isInnerSet (runOps ops s) = false) /\
              runOps ops s
              = runOps (filter (fun op => negb (isDirectSet op)) ops) s).
    { induction ops as [|op rest IH]; intros s Himm Hinner; simpl.
      - now repeat split.
      - destruct (@applyOp_immutable op s Hp Himm Hinner) as [Hi [Hn Hskip]].
        destruct (IH (applyOp op s) Hi Hn) as [Hinv Heq].
        split; [exact Hinv|].
        destruct (isDirectSet op) eqn:Hd; simpl.
        + rewrite (Hskip eq_refl) in Heq. now rewrite (Hskip eq_refl).
        + exact Heq. }
    destruct (Hgen (state initialValue true) eq_refl eq_refl) as [[Hi Hn] Heq].
    split; [|exact Heq].
    unfold instanceOutcome. now rewrite Hn, Hi.
  - intros s method v l Himm Hm Hdiff Hin Hl.
    destruct (@notifyAll_throws v (listeners s) l Hin Hl)
      as [called [l' [Hcalled Hl']]].
    exists called, l'.
    assert (Hcall : callMethod method s
                    = ({| value := Some v; listeners := listeners s;
                          isInnerSet := true; immutable := true |},
                       called, ListenerThrew l')).
    { unfold callMethod. rewrite Hm. unfold instanceOutcome.
      cbn [isInnerSet immutable value listeners negb andb].
      now rewrite Hdiff, Hcalled, Himm. }
    rewrite Hcall. split; [reflexivity|]. split; [exact Hl'|].
    cbn [fst]. unfold instanceOutcome.
    cbn [isInnerSet immutable value listeners negb andb].
    destruct (differs a (Some v)) eqn:Hd.
    + destruct (notifyAll a (listeners s)) as [called2 [l2|]] eqn:Hn2.
      * cbn [fst snd value isInnerSet]. split; [reflexivity|].
        split; [intros e H; discriminate H|].
        intros Hquiet. exfalso.
        assert (Hnone : forall ls, (forall x, In x ls -> throws x a = false) ->
                  notifyAll a ls = (ls, None)).
        { induction ls as [|x rest IH]; intros Hq; [reflexivity|].
          cbn [notifyAll]. rewrite (Hq x (or_introl eq_refl)).
          rewrite IH; [reflexivity|]. intros y Hy. apply Hq. now right. }
        rewrite (Hnone _ Hquiet) in Hn2. discriminate Hn2.
      * cbn [fst snd value isInnerSet]. split; [reflexivity|].
        split; [intros e H; discriminate H | reflexivity].
    + cbn [fst snd value isInnerSet]. split; [reflexivity|].
      split; [intros e H; discriminate H | reflexivity].
Qed.

End Instance.

(** ** The theorems at a state of numbers *)

(** A state holding 0 with the listeners 1 and 2; a listener cancels when
    it is called with its own number. *)
Definition numberState : State nat :=
  {| value := Some 0; listeners := [1; 2]; isInnerSet := false;
     immutable := false |}.

Definition cancelsOnOwnNumber (l v : nat) : bool := Nat.eqb l v.

(** The decimal text of a number. *)
Definition showNumber (n : nat) : string := NilZero.string_of_uint (Nat.to_uint n).

Lemma cancel_twice_removes_last_listener_at_numberState :
  ~ In 3 (listeners numberState) /\
  cancel 3 (subscribed 3 numberState) = numberState /\
  listeners (cancel 3 (cancel 3 (subscribed 3 numberState))) = [1].
Proof.
  assert (Hnot : ~ In 3 (listeners numberState))
    by (intros [H | [H | []]]; discriminate H).
  split; [exact Hnot|].
  destruct (@cancel_twice_removes_last_listener nat Nat.eqb cancelsOnOwnNumber showNumber
              3 numberState Hnot) as [_ [Hone Htwo]].
  split; [exact Hone | exact Htwo].
Defined.


(** An immutable state holding 0 with the listeners 1 and 2, of which the
    second throws when it is called with 5. *)
Definition immutableNumberState : State nat :=
  {| value := Some 0; listeners := [1; 2]; isInnerSet := false;
     immutable := true |}.

Definition throwsOnFive (l v : nat) : bool := Nat.eqb l 2 && Nat.eqb v 5.

(** The direct set of 7 is refused at first.  The method that yields 5
    writes 5, the second listener throws, and the direct set of 7 then goes
    through. *)
Example direct_set_after_listener_threw :
  snd (instanceOutcome Nat.eqb cancelsOnOwnNumber showNumber throwsOnFive
         (ArgValue 7) immutableNumberState)
  = @Throws nat (Error "Immutable states cannot be directly set. Received: 7") /\
  callMethod Nat.eqb cancelsOnOwnNumber showNumber throwsOnFive
    (fun _ => MethodValue 5) immutableNumberState
  = ({| value := Some 5; listeners := [1; 2]; isInnerSet := true;
        immutable := true |}, [1; 2], @ListenerThrew nat 2) /\
  instanceOutcome Nat.eqb cancelsOnOwnNumber showNumber throwsOnFive
    (ArgValue 7)
    {| value := Some 5; listeners := [1; 2]; isInnerSet := true;
       immutable := true |}
  = ({| value := Some 7; listeners := [1; 2]; isInnerSet := false;
        immutable := true |}, [1; 2], Returns (ReturnedValue (Some 7))).
Proof. repeat split. Qed.

End StateFn.

(* ===================================================================== *)
(** * More on the view explorer frame *)
(* ===================================================================== *)

Module ViewExplorerProps.

Import Js ViewExplorer.
Local Open Scope string_scope.

(** ** Loading and looking up views *)


(** The labelled loop of [setActiveView]: the first view with the id, in
    the order of the collections and of their views. *)
Fixpoint findView (collections : list Collection) (wanted : nat) : option View :=
  match collections with
  | [] => None
  | c :: rest =>
      match find (fun v => Nat.eqb (id v) wanted) (views c) with
      | Some v => Some v
      | None => findView rest wanted
      end
  end.


(** ** Notions used in the statements *)



(** ** File names *)

Lemma length_append (a b : string) :
  String.length (a ++ b) = String.length a + String.length b.
Proof. induction a as [|c rest IH]; simpl; [reflexivity | now rewrite IH]. Qed.

Lemma longer_than_view_suffix (s : string) :
  9 < String.length s -> existsb (String.eqb s) viewSuffixes = false.
Proof.
  intros Hlen. unfold viewSuffixes. simpl.
  repeat match goal with
         | |- context [String.eqb s ?t] =>
             let H := fresh in
             destruct (String.eqb s t) eqn:H;
             [apply String.eqb_eq in H; subst s; simpl in Hlen; lia|]
         end.
  reflexivity.
Qed.

(** The path of a collection is the file name without its view suffix,
    whatever stands before the suffix. *)
Theorem stripViewSuffix_removes_suffix (base suffix : string) :
  In suffix viewSuffixes -> stripViewSuffix (base ++ suffix) = base.
Proof.
  intros Hin.
  assert (Hlen : 8 <= String.length suffix).
  { destruct Hin as [<- | [<- | [<- | [<- | []]]]]; simpl; lia. }
  induction base as [|c rest IH].
  - destruct Hin as [<- | [<- | [<- | [<- | []]]]]; reflexivity.
  - cbn [append stripViewSuffix]. rewrite IH.
    destruct rest as [|c' rest'].
    + destruct Hin as [<- | [<- | [<- | [<- | []]]]]; simpl;
        destruct (Ascii.eqb c "."); reflexivity.
    + rewrite longer_than_view_suffix; [reflexivity|].
      simpl. rewrite length_append. lia.
Qed.

(** ** Names without a letter or a digit *)



















(** ** Identifiers of the views *)











(** ** The theorems at two view files *)



Lemma stripViewSuffix_removes_suffix_at_button :
  In ".view.jsx" viewSuffixes /\
  stripViewSuffix ("components/Button" ++ ".view.jsx") = "components/Button".
Proof.
  assert (Hin : In ".view.jsx" viewSuffixes) by (right; left; reflexivity).
  split; [exact Hin|].
  exact (@stripViewSuffix_removes_suffix "components/Button" ".view.jsx" Hin).
Defined.




End ViewExplorerProps.

(* ===================================================================== *)
(** * More on the markup builder *)
(* ===================================================================== *)

Module MarkupProps.

Import Js Markup.

Lemma mapResult_app {A B : Type} (f : A -> result B) (xs ys : list A) :
  mapResult f (xs ++ ys) =
  bind (mapResult f xs) (fun a => bind (mapResult f ys) (fun b => Ok (a ++ b))).
Proof.
  induction xs as [|x rest IH]; simpl.
  - destruct (mapResult f ys); reflexivity.
  - destruct (f x) as [y|e]; simpl; [|reflexivity].
    rewrite IH. destruct (mapResult f rest) as [a|e]; simpl; [|reflexivity].
    destruct (mapResult f ys); reflexivity.
Qed.

Lemma flatInfinity_app (xs ys : list Renderable) :
  flatInfinity (xs ++ ys) = flatInfinity xs ++ flatInfinity ys.
Proof. unfold flatInfinity. apply flat_map_app. Qed.

(** Flattening what is flat already changes nothing. *)
Lemma flat_flat (x : Renderable) : flatInfinity (flat x) = flat x.
Proof.
  induction x using Renderable_nested_ind; try reflexivity.
  simpl. induction H as [|y ys Hy _ IH]; simpl; [reflexivity|].
  rewrite flatInfinity_app, Hy. f_equal. exact IH.
Qed.

Lemma flatInfinity_idempotent (xs : list Renderable) :
  flatInfinity (flatInfinity xs) = flatInfinity xs.
Proof.
  induction xs as [|x rest IH]; simpl; [reflexivity|].
  rewrite flatInfinity_app, flat_flat. f_equal. exact IH.
Qed.

(** The children may be passed one by one, as arrays or as arrays of
    arrays: the markup is the same.  For two groups of children it is the
    markup of the first followed by the markup of the second, and the
    exception of the first group wins over the one of the second. *)
Theorem toMarkup_ignores_grouping (xs ys : list Renderable) (x : Renderable) :
  toMarkup (RArray (xs ++ ys)) =
    bind (toMarkup (RArray xs)) (fun a =>
    bind (toMarkup (RArray ys)) (fun b => Ok (a ++ b))) /\
  toMarkup (RArray [RArray xs; RArray ys]) = toMarkup (RArray (xs ++ ys)) /\
  toMarkup (RArray (flatInfinity xs)) = toMarkup (RArray xs) /\
  toMarkup (RArray [x]) = toMarkup x.
Proof.
  unfold toMarkup. repeat split.
  - rewrite flatInfinity_app, filter_app. apply mapResult_app.
  - rewrite flatInfinity_app. cbn [flatInfinity flat_map flat].
    now rewrite !app_nil_r.
  - now rewrite flatInfinity_idempotent.
  - destruct x; try reflexivity.
    cbn [flatInfinity flat_map flat]. now rewrite app_nil_r.
Qed.

(** Markup goes through the builder unchanged: every markup node is what
    [makeMarkup] builds from the node's own type, attributes and children,
    and a text node is what it builds for a string, a number or a
    readable. *)
Theorem makeMarkup_rebuilds_markup
    (type : MarkupType) (attributes : Attributes) (children : list Markup)
    (value : TextValue) :
  toMarkup (RArray (map RMarkup children)) = Ok children /\
  makeMarkup type attributes (map RMarkup children)
    = Ok (mkMarkup type attributes children) /\
  bind (makeMarkup (Tag "$text") (AttributesText value) [])
       (fun text => makeMarkup type attributes [RMarkup text])
    = makeMarkup type attributes
        [match value with
         | TextString s => RString s
         | TextNumber n => RNumber n
         | TextReadable r => RReadable r
         end].
Proof.
  assert (H : toMarkup (RArray (map RMarkup children)) = Ok children).
  { unfold toMarkup. induction children as [|m rest IH]; [reflexivity|].
    cbn [map flatInfinity flat_map flat app filter kept mapResult toMarkupItem bind].
    unfold flatInfinity in IH. now rewrite IH. }
  split; [exact H|]. split.
  - unfold makeMarkup. now rewrite H.
  - destruct value; reflexivity.
Qed.

End MarkupProps.

(* ===================================================================== *)
(** * More on the view initialiser: observers and references *)
(* ===================================================================== *)

Module InitViewProps.

Import Js InitView.

(** ** [ctx.ref] *)

Section Ref.

(** The values a reference holds; [None] is [undefined]. *)
Variable V : Type.

(** [ctx.ref(initialValue)]: the closure variable [currentValue]. *)
Definition ref (initialValue : option V) : option V := initialValue.

(** One call of the function that [ctx.ref] returns: the new
    [currentValue] and the value returned. *)
Definition callRef (newValue : option V) (currentValue : option V)
    : option V * option V :=
  match newValue with
  | None => (currentValue, currentValue)
  | Some v => (Some v, None)
  end.

(** The closure variable after a sequence of calls. *)
Definition callsRef (args : list (option V)) (currentValue : option V) : option V :=
  fold_left (fun current arg => fst (callRef arg current)) args currentValue.

Definition defined (x : option V) : bool :=
  match x with Some _ => true | None => false end.

Lemma last_cons_default (A : Type) (x d : A) (l : list A) :
  last (x :: l) d = last l x.
Proof.
  revert x d. induction l as [|y rest IH]; intros x d; [reflexivity|].
  change (last (x :: y :: rest) d) with (last (y :: rest) d).
  now rewrite !IH.
Qed.

(** A read returns the last value that a call passed, or the initial
    value when there was none; a call with [undefined] is a read and never
    clears the reference. *)
Theorem ref_returns_last_defined_value
    (initialValue : option V) (args : list (option V)) :
  snd (callRef None (callsRef args (ref initialValue)))
    = last (filter defined args) initialValue /\
  callsRef (args ++ [None]) (ref initialValue) = callsRef args (ref initialValue) /\
  (defined initialValue || existsb defined args
   = defined (snd (callRef None (callsRef args (ref initialValue))))).
Proof.
  unfold ref, callsRef. split; [|split].
  - revert initialValue. induction args as [|[v|] rest IH]; intros initialValue;
      cbn [fold_left callRef fst filter defined]; [reflexivity| |apply IH].
    rewrite last_cons_default. apply IH.
  - now rewrite fold_left_app.
  - change (defined initialValue || existsb defined args
            = defined (fold_left (fun current arg => fst (callRef arg current))
                                 args initialValue)).
    revert initialValue. induction args as [|[v|] rest IH]; intros initialValue;
      cbn [fold_left existsb].
    + now rewrite orb_false_r.
    + cbn [callRef fst]. rewrite <- IH. cbn [defined orb]. now rewrite orb_true_r.
    + cbn [callRef fst]. rewrite <- IH. reflexivity.
Qed.

End Ref.

(** ** Observers over the life of a component *)

(** What the setup function and the framework do with a component. *)
Inductive Call : Type :=
| CallConnect (parent : nat) (after : option nat)
| CallDisconnect
| CallObserve (observer : nat)
| CallRegister (hook : Hook) (callback : nat).

Definition stepCall (call : Call) (c : Component) : Component * list Event :=
  match call with
  | CallConnect parent after => connect parent after c
  | CallDisconnect => step OpDisconnect c
  | CallObserve observer => observe observer c
  | CallRegister hook callback => (register hook callback c, [])
  end.

Fixpoint runCalls (calls : list Call) (c : Component) : Component * list Event :=
  match calls with
  | [] => (c, [])
  | call :: rest =>
      let '(c1, evs1) := stepCall call c in
      let '(c2, evs2) := runCalls rest c1 in
      (c2, evs1 ++ evs2)
  end.

(** The observers that a trace shows as started, and the subscriptions it
    shows as ended. *)
Definition started (evs : list Event) : list nat :=
  flat_map (fun e => match e with ObserverStarted o => [o] | _ => [] end) evs.

Definition unsubscribed (evs : list Event) : list nat :=
  flat_map (fun e => match e with Unsubscribed o => [o] | _ => [] end) evs.

(** The observers waiting among the after-connect callbacks. *)
Definition queuedObservers (c : Component) : list nat :=
  flat_map (fun x => match x with
                     | StartObserver o => [o]
                     | Registered _ => []
                     end) (afterConnectCallbacks c).

Definition isEmpty {A : Type} (l : list A) : bool :=
  match l with [] => true | _ => false end.

Lemma started_app (a b : list Event) : started (a ++ b) = started a ++ started b.
Proof. apply flat_map_app. Qed.

Lemma unsubscribed_app (a b : list Event) :
  unsubscribed (a ++ b) = unsubscribed a ++ unsubscribed b.
Proof. apply flat_map_app. Qed.

Lemma started_Called (hook : Hook) (cbs : list nat) :
  started (map (Called hook) cbs) = [] /\ unsubscribed (map (Called hook) cbs) = [].
Proof. induction cbs as [|cb rest IH]; simpl; [split; reflexivity | exact IH]. Qed.

Lemma started_Unsubscribed (subs : list nat) :
  started (map Unsubscribed subs) = [] /\ unsubscribed (map Unsubscribed subs) = subs.
Proof.
  induction subs as [|x rest [IH1 IH2]]; simpl; [split; reflexivity|].
  split; [exact IH1 | now f_equal].
Qed.

Lemma started_mount (parent : nat) (after : option nat) (c : Component) :
  started (snd (mount parent after c)) = [] /\
  unsubscribed (snd (mount parent after c)) = [].
Proof. unfold mount. destruct (element c); split; reflexivity. Qed.

Lemma started_unmount (c c1 : Component) (evs : list Event) :
  unmount c = Ok (c1, evs) ->
  started evs = [] /\ unsubscribed evs = [] /\
  afterConnectCallbacks c1 = afterConnectCallbacks c.
Proof.
  unfold unmount. destruct (element c); [| destruct (parentNode c) |];
    intros H; inversion H; repeat split.
Qed.

(** The after-connect loop starts the queued observers, in order, and
    keeps their subscriptions. *)
Lemma runAfterConnect_observers (callbacks : list AfterConnectCallback) (subs : list nat) :
  let queued := flat_map (fun x => match x with
                                   | StartObserver o => [o]
                                   | Registered _ => []
                                   end) callbacks in
  fst (runAfterConnect callbacks subs) = subs ++ queued /\
  started (snd (runAfterConnect callbacks subs)) = queued /\
  unsubscribed (snd (runAfterConnect callbacks subs)) = [].
Proof.
  revert subs. induction callbacks as [|[cb|o] rest IH]; intros subs; simpl.
  - now rewrite app_nil_r.
  - specialize (IH subs). destruct (runAfterConnect rest subs) as [s evs].
    exact IH.
  - specialize (IH (subs ++ [o])). destruct (runAfterConnect rest (subs ++ [o])) as [s evs].
    simpl in *. destruct IH as [H1 [H2 H3]].
    split; [now rewrite H1, <- app_assoc|]. split; [now f_equal | exact H3].
Qed.

Lemma connect_observers (parent : nat) (after : option nat) (c : Component) :
  subscriptions (fst (connect parent after c))
    = subscriptions c ++ (if isConnected c then [] else queuedObservers c) /\
  started (snd (connect parent after c))
    = (if isConnected c then [] else queuedObservers c) /\
  unsubscribed (snd (connect parent after c)) = [] /\
  isConnected (fst (connect parent after c)) = true /\
  afterConnectCallbacks (fst (connect parent after c)) = afterConnectCallbacks c.
Proof.
  unfold connect.
  destruct (started_mount parent after c) as [Hm1 Hm2].
  assert (Hsame : subscriptions (fst (mount parent after c)) = subscriptions c /\
                  afterConnectCallbacks (fst (mount parent after c))
                  = afterConnectCallbacks c)
    by (unfold mount; destruct (element c); split; reflexivity).
  destruct Hsame as [Hs Ha].
  destruct (mount parent after c) as [c1 mounted]. cbn [fst snd] in *.
  destruct (isConnected c) eqn:Hc.
  - cbn [fst snd app subscriptions withConnected isConnected
         afterConnectCallbacks].
    rewrite Hm1, Hm2, Hs, Ha, app_nil_r. repeat split.
  - cbn [withConnected afterConnectCallbacks subscriptions].
    rewrite Hs, Ha.
    pose proof (runAfterConnect_observers (afterConnectCallbacks c) (subscriptions c))
      as [H1 [H2 H3]].
    destruct (runAfterConnect (afterConnectCallbacks c) (subscriptions c)) as [s evs].
    cbn [fst snd] in *.
    destruct (started_Called BeforeConnect (beforeConnectCallbacks c)) as [Hc1 Hc2].
    rewrite !started_app, !unsubscribed_app, Hm1, Hm2, Hc1, Hc2, H2, H3.
    cbn [subscriptions withSubscriptions isConnected withConnected
         afterConnectCallbacks app].
    repeat split; [exact H1 | exact Ha].
Qed.

(** [disconnect()] ends every subscription, unless the removal of the
    node throws, and then it changes nothing. *)
Lemma disconnect_observers (c : Component) :
  subscriptions c ++ started (snd (step OpDisconnect c))
    = unsubscribed (snd (step OpDisconnect c))
      ++ subscriptions (fst (step OpDisconnect c)) /\
  (isConnected c || isEmpty (subscriptions c) = true ->
   isConnected (fst (step OpDisconnect c))
   || isEmpty (subscriptions (fst (step OpDisconnect c))) = true) /\
  afterConnectCallbacks (fst (step OpDisconnect c)) = afterConnectCallbacks c.
Proof.
  cbn [step]. unfold disconnect. destruct (isConnected c) eqn:Hc.
  - unfold teardown. destruct (unmount c) as [[c1 evs]|e] eqn:Hu.
    + destruct (started_unmount c Hu) as [Hm1 [Hm2 Ha]].
      cbn [fst snd].
      destruct (started_Called BeforeDisconnect (beforeDisconnectCallbacks c))
        as [Hb1 Hb2].
      destruct (started_Called AfterDisconnect (afterDisconnectCallbacks c))
        as [Ha1 Ha2].
      destruct (started_Unsubscribed (subscriptions c)) as [Hu1 Hu2].
      rewrite !started_app, !unsubscribed_app, Hm1, Hm2, Hb1, Hb2, Ha1, Ha2,
        Hu1, Hu2.
      cbn [subscriptions withSubscriptions isConnected withConnected
           afterConnectCallbacks app isEmpty orb].
      rewrite !app_nil_r. repeat split. exact Ha.
    + cbn [fst snd].
      destruct (started_Called BeforeDisconnect (beforeDisconnectCallbacks c))
        as [Hb1 Hb2].
      rewrite !started_app, !unsubscribed_app, Hb1, Hb2. cbn [started unsubscribed
        flat_map app]. rewrite app_nil_r, Hc. repeat split.
  - cbn [fst snd started unsubscribed flat_map app]. rewrite app_nil_r, Hc.
    repeat split. tauto.
Qed.

(** One call keeps the account of the observers: those subscribed before
    it and those it starts are those whose subscription it ends and those
    subscribed after it. *)
Lemma stepCall_observers (call : Call) (c : Component) :
  subscriptions c ++ started (snd (stepCall call c))
    = unsubscribed (snd (stepCall call c)) ++ subscriptions (fst (stepCall call c)) /\
  (isConnected c || isEmpty (subscriptions c) = true ->
   isConnected (fst (stepCall call c))
   || isEmpty (subscriptions (fst (stepCall call c))) = true) /\
  exists more, queuedObservers (fst (stepCall call c)) = queuedObservers c ++ more.
Proof.
  destruct call as [parent after| |observer|hook callback]; cbn [stepCall].
  - destruct (connect_observers parent after c) as [H1 [H2 [H3 [H4 H5]]]].
    rewrite H1, H2, H3, H4. split; [reflexivity|]. split; [reflexivity|].
    exists []. unfold queuedObservers. now rewrite H5, app_nil_r.
  - destruct (disconnect_observers c) as [H1 [H2 H3]].
    split; [exact H1|]. split; [exact H2|].
    exists []. unfold queuedObservers. now rewrite H3, app_nil_r.
  - unfold observe. destruct (isConnected c) eqn:Hc; cbn [fst snd].
    + split; [reflexivity|].
      split; [intros _; cbn [isConnected withSubscriptions]; rewrite ?Hc;
              reflexivity|].
      exists []. now rewrite app_nil_r.
    + split; [now rewrite app_nil_r|].
      split; [intros H; cbn [isConnected subscriptions]; rewrite ?Hc;
              exact H|].
      exists [observer]. unfold queuedObservers. cbn [afterConnectCallbacks].
      now rewrite flat_map_app.
  - cbn [fst snd]. split; [now rewrite app_nil_r|]. split; [tauto|].
    destruct hook; try (exists []; now rewrite app_nil_r).
    exists []. unfold queuedObservers. cbn [register afterConnectCallbacks].
    rewrite flat_map_app. reflexivity.
Qed.

(** Whatever the setup function and the framework do, in whatever order:
    every observer that was started is either still subscribed or had its
    subscription ended, once, and in the order of the starts; a component
    that is not connected holds no subscription; and the queue of
    observers to start at the next connect only grows. *)
Theorem observers_started_are_unsubscribed (calls : list Call) (c : Component) :
  subscriptions c ++ started (snd (runCalls calls c))
    = unsubscribed (snd (runCalls calls c))
      ++ subscriptions (fst (runCalls calls c)) /\
  (isConnected c || isEmpty (subscriptions c) = true ->
   isConnected (fst (runCalls calls c))
   || isEmpty (subscriptions (fst (runCalls calls c))) = true) /\
  (exists more,
     queuedObservers (fst (runCalls calls c)) = queuedObservers c ++ more) /\
  (forall parent after,
     started (snd (connect parent after (withConnected false c)))
       = queuedObservers c).
Proof.
  split; [|split; [|split]].
  - revert c. induction calls as [|call rest IH]; intros c; simpl.
    + now rewrite app_nil_r.
    + destruct (stepCall_observers call c) as [H1 _].
      specialize (IH (fst (stepCall call c))).
      destruct (stepCall call c) as [c1 evs1]. cbn [fst snd] in *.
      destruct (runCalls rest c1) as [c2 evs2]. cbn [fst snd] in *.
      rewrite started_app, unsubscribed_app, app_assoc, H1.
      rewrite <- !app_assoc. now rewrite IH.
  - revert c. induction calls as [|call rest IH]; intros c Hc; simpl.
    + exact Hc.
    + destruct (stepCall_observers call c) as [_ [H2 _]].
      specialize (IH (fst (stepCall call c)) (H2 Hc)).
      destruct (stepCall call c) as [c1 evs1]. cbn [fst snd] in *.
      destruct (runCalls rest c1) as [c2 evs2]. exact IH.
  - revert c. induction calls as [|call rest IH]; intros c; simpl.
    + exists []. now rewrite app_nil_r.
    + destruct (stepCall_observers call c) as [_ [_ [more1 H3]]].
      destruct (IH (fst (stepCall call c))) as [more2 H4].
      destruct (stepCall call c) as [c1 evs1]. cbn [fst snd] in *.
      destruct (runCalls rest c1) as [c2 evs2]. cbn [fst snd] in *.
      exists (more1 ++ more2). now rewrite H4, H3, app_assoc.
  - intros parent after.
    destruct (connect_observers parent after (withConnected false c))
      as [_ [H2 _]].
    exact H2.
Qed.

End InitViewProps.

(* ===================================================================== *)
(** * More on the store: manual connection and repeated connection *)
(* ===================================================================== *)

Module StoreProps.

Import Js Store.

(** [connectManual(parent, after)]. *)
Definition connectManual (parent : nat) (after : option nat) (s : Store)
    : result (Store * list Event) :=
  bind (initialize s) (fun '(s1, evs1) =>
  let '(s2, evs2) := beforeConnect s1 in
  let '(s3, evs3) := superConnect parent after s2 in
  Ok (s3, evs1 ++ evs2 ++ evs3 ++ [OutletConnect parent after])).

(** [disconnectManual()]. *)
Definition disconnectManual (s : Store) : Store * list Event :=
  let '(s1, evs) := superDisconnect s in
  (s1, OutletDisconnect :: evs).

(** [n] times [connect] and then [disconnect]. *)
Fixpoint reconnect (n : nat) (parent : nat) (after : option nat) (s : Store)
    : result Store :=
  match n with
  | 0 => Ok s
  | S n' =>
      bind (connect parent after s) (fun '(s1, _) =>
      reconnect n' parent after (fst (disconnect s1)))
  end.

(** ** Notions used in the statements *)

(** What a run of the setup function on a store that is not connected
    appends to the connect callbacks and to the disconnect callbacks. *)
Definition queuedBy (calls : list SetupCall) : list ConnectCallback :=
  flat_map (fun call => match call with
                        | CallOnConnect cb => [Registered cb]
                        | CallObserve o => [StartObserver o]
                        | CallOnDisconnect _ => []
                        end) calls.

Definition disconnectsBy (calls : list SetupCall) : list nat :=
  flat_map (fun call => match call with
                        | CallOnDisconnect cb => [cb]
                        | _ => []
                        end) calls.

Definition registeredOf (callbacks : list ConnectCallback) : list nat :=
  flat_map (fun x => match x with Registered cb => [cb] | StartObserver _ => [] end)
           callbacks.

Definition observersOf (callbacks : list ConnectCallback) : list nat :=
  flat_map (fun x => match x with StartObserver o => [o] | Registered _ => [] end)
           callbacks.

(** The connect callbacks that a trace shows as invoked, and the observers
    it shows as started. *)
Definition connectCalledIn (evs : list Event) : list nat :=
  flat_map (fun e => match e with Called OnConnect cb => [cb] | _ => [] end) evs.

Definition startedIn (evs : list Event) : list nat :=
  flat_map (fun e => match e with ObserverStarted o => [o] | _ => [] end) evs.

(** ** The setup function on a store that is not connected *)

Lemma applySetup_detached (calls : list SetupCall) (h : bool)
    (oc : list ConnectCallback) (od stops : list nat)
    (su : list SetupCall) (oo : bool) :
  applySetup {| attached := false; hashIsConnected := h;
                onConnectCallbacks := oc; onDisconnectCallbacks := od;
                stopCallbacks := stops; setup := su; outputsAreObject := oo |}
             calls
  = ({| attached := false; hashIsConnected := h;
        onConnectCallbacks := oc ++ queuedBy calls;
        onDisconnectCallbacks := od ++ disconnectsBy calls;
        stopCallbacks := stops; setup := su; outputsAreObject := oo |}, []).
Proof.
  revert oc od. induction calls as [|call rest IH]; intros oc od.
  - simpl. now rewrite !app_nil_r.
  - destruct call as [cb|cb|o]; cbn [applySetup applySetupCall isConnected attached
      hashIsConnected onConnectCallbacks onDisconnectCallbacks stopCallbacks
      setup outputsAreObject]; rewrite IH; cbn [app queuedBy disconnectsBy flat_map];
      now rewrite <- ?app_assoc.
Qed.

Lemma runOnConnect_spec (callbacks : list ConnectCallback) (stops : list nat) :
  fst (runOnConnect callbacks stops) = stops ++ observersOf callbacks /\
  connectCalledIn (snd (runOnConnect callbacks stops)) = registeredOf callbacks /\
  startedIn (snd (runOnConnect callbacks stops)) = observersOf callbacks.
Proof.
  revert stops. induction callbacks as [|[cb|o] rest IH]; intros stops; simpl.
  - now rewrite app_nil_r.
  - specialize (IH stops). destruct (runOnConnect rest stops) as [s evs].
    simpl in *. destruct IH as [H1 [H2 H3]].
    split; [exact H1|]. split; [now f_equal | exact H3].
  - specialize (IH (stops ++ [o])).
    destruct (runOnConnect rest (stops ++ [o])) as [s evs].
    simpl in *. destruct IH as [H1 [H2 H3]].
    split; [now rewrite H1, <- app_assoc|]. split; [exact H2 | now f_equal].
Qed.

(** [connect] on a store that is not connected, for a setup function
    that returns an object. *)
Lemma connect_detached (parent : nat) (after : option nat) (s : Store) :
  attached s = false -> outputsAreObject s = true ->
  let callbacks := onConnectCallbacks s ++ queuedBy (setup s) in
  connect parent after s
  = Ok ({| attached := true; hashIsConnected := true;
           onConnectCallbacks := callbacks;
           onDisconnectCallbacks := onDisconnectCallbacks s ++ disconnectsBy (setup s);
           stopCallbacks := fst (runOnConnect callbacks (stopCallbacks s));
           setup := setup s; outputsAreObject := true |},
        [SetupRun; InputsConnect; NodeInserted parent after;
         OutletConnect parent after]
        ++ snd (runOnConnect callbacks (stopCallbacks s))).
Proof.
  destruct s as [att h oc od stops su oo]. cbn [attached outputsAreObject setup
    onConnectCallbacks onDisconnectCallbacks stopCallbacks].
  intros -> ->. unfold connect, initialize.
  cbn [isConnected attached negb setup outputsAreObject].
  rewrite applySetup_detached. cbn [bind beforeConnect superConnect withAttached
    attached hashIsConnected onConnectCallbacks onDisconnectCallbacks
    stopCallbacks setup outputsAreObject].
  unfold afterConnect. simpl.
  destruct (runOnConnect (oc ++ queuedBy su) stops) as [stops' evs].
  reflexivity.
Qed.

Lemma disconnect_attached (s : Store) :
  attached s = true ->
  disconnect s = (withAttached false s, [OutletDisconnect; NodeRemoved]).
Proof.
  destruct s as [att h oc od stops su oo]. cbn [attached]. intros ->. reflexivity.
Qed.

Lemma flat_map_times {A B : Type} (f : A -> list B) (n : nat) (l : list A) :
  flat_map f (InitView.times n l) = InitView.times n (flat_map f l).
Proof.
  induction n as [|n IH]; simpl; [reflexivity|].
  now rewrite flat_map_app, IH.
Qed.

Lemma times_snoc {A : Type} (n : nat) (l : list A) :
  InitView.times n l ++ l = InitView.times (S n) l.
Proof.
  induction n as [|n IH]; simpl; [now rewrite app_nil_r|].
  rewrite <- app_assoc. f_equal. exact IH.
Qed.

Lemma reconnect_detached (n : nat) (parent : nat) (after : option nat) (s : Store) :
  attached s = false -> outputsAreObject s = true ->
  exists s',
    reconnect n parent after s = Ok s' /\
    attached s' = false /\ outputsAreObject s' = true /\ setup s' = setup s /\
    onConnectCallbacks s'
      = onConnectCallbacks s ++ InitView.times n (queuedBy (setup s)) /\
    onDisconnectCallbacks s'
      = onDisconnectCallbacks s ++ InitView.times n (disconnectsBy (setup s)).
Proof.
  revert s. induction n as [|n IH]; intros s Hatt Hout.
  - exists s. simpl. rewrite !app_nil_r. repeat split; assumption.
  - cbn [reconnect]. rewrite (connect_detached parent after s Hatt Hout).
    cbn [bind]. rewrite disconnect_attached by reflexivity. cbn [fst withAttached
      attached hashIsConnected onConnectCallbacks onDisconnectCallbacks
      stopCallbacks setup outputsAreObject].
    match goal with |- context [reconnect n parent after ?s1] =>
      destruct (IH s1 eq_refl eq_refl) as [s' [Hr [Ha [Ho [Hs [Hc Hd]]]]]]
    end.
    exists s'. cbn [withAttached setup onConnectCallbacks onDisconnectCallbacks]
      in Hs, Hc, Hd.
    split; [exact Hr|]. split; [exact Ha|]. split; [exact Ho|].
    split; [exact Hs|].
    split.
    + rewrite Hc, <- app_assoc. reflexivity.
    + rewrite Hd, <- app_assoc. reflexivity.
Qed.

(** Every [connect] of a store that is not connected runs the setup
    function again, and what the earlier runs registered stays
    registered: after [n] rounds of connecting and disconnecting, the next
    [connect] invokes every connect callback of the setup function, and
    starts every observer of its body, [n + 1] times. *)
Theorem reconnect_runs_setup_again
    (n : nat) (parent : nat) (after : option nat) (s : Store) :
  attached s = false -> outputsAreObject s = true ->
  exists s',
    reconnect n parent after s = Ok s' /\
    attached s' = false /\
    onConnectCallbacks s'
      = onConnectCallbacks s ++ InitView.times n (queuedBy (setup s)) /\
    onDisconnectCallbacks s'
      = onDisconnectCallbacks s ++ InitView.times n (disconnectsBy (setup s)) /\
    exists s'' evs,
      connect parent after s' = Ok (s'', evs) /\
      connectCalledIn evs
        = registeredOf (onConnectCallbacks s)
          ++ InitView.times (S n) (registeredOf (queuedBy (setup s))) /\
      startedIn evs
        = observersOf (onConnectCallbacks s)
          ++ InitView.times (S n) (observersOf (queuedBy (setup s))).
Proof.
  intros Hatt Hout.
  destruct (reconnect_detached n parent after s Hatt Hout)
    as [s' [Hr [Ha [Ho [Hs [Hc Hd]]]]]].
  exists s'. split; [exact Hr|]. split; [exact Ha|]. split; [exact Hc|].
  split; [exact Hd|].
  rewrite (connect_detached parent after s' Ha Ho). cbv zeta.
  eexists. eexists. split; [reflexivity|].
  destruct (runOnConnect_spec (onConnectCallbacks s' ++ queuedBy (setup s'))
              (stopCallbacks s')) as [_ [H2 H3]].
  unfold connectCalledIn, startedIn in *.
  rewrite !flat_map_app. cbn [flat_map app].
  fold (connectCalledIn (snd (runOnConnect (onConnectCallbacks s' ++ queuedBy (setup s'))
                                (stopCallbacks s')))).
  unfold connectCalledIn. rewrite H2, H3.
  rewrite Hc, Hs, <- app_assoc, times_snoc.
  unfold registeredOf, observersOf.
  rewrite !flat_map_app, !flat_map_times. split; reflexivity.
Qed.

(** A store connected with [connectManual] runs its setup function but
    none of the callbacks it registers and none of the observers of its
    body, and a later [connect] runs none either: it only inserts the
    node and the outlet again. *)
Theorem connectManual_runs_no_lifecycle_callback
    (parent : nat) (after : option nat) (s : Store) :
  attached s = false -> outputsAreObject s = true ->
  exists s1,
    connectManual parent after s
      = Ok (s1, [SetupRun; InputsConnect; NodeInserted parent after;
                 OutletConnect parent after]) /\
    isConnected s1 = true /\
    hashIsConnected s1 = hashIsConnected s /\
    stopCallbacks s1 = stopCallbacks s /\
    onConnectCallbacks s1 = onConnectCallbacks s ++ queuedBy (setup s) /\
    (forall parent' after',
       connect parent' after' s1
         = Ok (s1, [NodeInserted parent' after'; OutletConnect parent' after'])) /\
    disconnectManual s1 = (withAttached false s1, [OutletDisconnect; NodeRemoved]).
Proof.
  destruct s as [att h oc od stops su oo]. cbn [attached outputsAreObject setup
    onConnectCallbacks hashIsConnected stopCallbacks].
  intros -> ->. unfold connectManual, initialize.
  cbn [setup outputsAreObject]. rewrite applySetup_detached.
  eexists. split; [reflexivity|]. repeat split.
Qed.

(** ** The theorems at the store of the example *)

Lemma reconnect_runs_setup_again_at_freshStore :
  attached freshStore = false /\ outputsAreObject freshStore = true /\
  exists s',
    reconnect 2 0 None freshStore = Ok s' /\
    onDisconnectCallbacks s' = [7; 7] /\
    exists s'' evs,
      connect 0 None s' = Ok (s'', evs) /\ startedIn evs = [1; 1; 1].
Proof.
  split; [reflexivity|]. split; [reflexivity|].
  destruct (@reconnect_runs_setup_again 2 0 None freshStore eq_refl eq_refl)
    as [s' [Hr [_ [_ [Hd [s'' [evs [Hc [_ Hs]]]]]]]]].
  exists s'. split; [exact Hr|]. split; [exact Hd|].
  exists s'', evs. split; [exact Hc | exact Hs].
Defined.

Lemma connectManual_runs_no_lifecycle_callback_at_freshStore :
  attached freshStore = false /\ outputsAreObject freshStore = true /\
  exists s1,
    connectManual 0 None freshStore
      = Ok (s1, [SetupRun; InputsConnect; NodeInserted 0 None; OutletConnect 0 None]) /\
    stopCallbacks s1 = [] /\
    connect 5 None s1 = Ok (s1, [NodeInserted 5 None; OutletConnect 5 None]).
Proof.
  split; [reflexivity|]. split; [reflexivity|].
  destruct (@connectManual_runs_no_lifecycle_callback 0 None freshStore
              eq_refl eq_refl)
    as [s1 [Hm [_ [_ [Hs [_ [Hc _]]]]]]].
  exists s1. split; [exact Hm|]. split; [exact Hs | exact (Hc 5 None)].
Defined.

End StoreProps.

(* ===================================================================== *)
(** * More on the router store: repeated locations and redirects *)
(* ===================================================================== *)

Module RouterProps.

Import Js Router.

(** No colon occurs in [s]. *)
Fixpoint noColon (s : string) : bool :=
  match s with
  | EmptyString => true
  | String c rest => negb (Ascii.eqb c ":") && noColon rest
  end.

(** The route table of a redirect: [/old/{id}] redirects to [/new],
    whose only layer is L9. *)
Definition redirectRoutes (pathname : string) : option Matched :=
  if String.eqb pathname "/old/5"
  then Some {| matched_path := "/old/5"%string;
               matched_pattern := "/old/{id}"%string;
               matched_params := [("id"%string, "5"%string)];
               redirect := Some (RedirectString "/new");
               layers := None |}
  else if String.eqb pathname "/new"
  then Some {| matched_path := "/new"%string;
               matched_pattern := "/new"%string;
               matched_params := [];
               redirect := None;
               layers := Some [exampleLayer 9] |}
  else None.

(** A path without query and fragment, read as a location. *)
Definition plainPath (path : string) : Location :=
  {| pathname := path; search := "" |}.

Section OnRouteChange.

Variable matchRoutes : string -> option Matched.
Variable parseQueryParams : string -> list (string * string).

Lemma updateQuery_fixed (location : Location) (s : RouterState) :
  same_query (lastQuery s) (search location) = true ->
  updateQuery parseQueryParams location s = s.
Proof. intros H. unfold updateQuery. now rewrite H. Qed.

Lemma updateQuery_lastQuery (location : Location) (s : RouterState) :
  same_query (lastQuery (updateQuery parseQueryParams location s))
             (search location) = true.
Proof.
  unfold updateQuery.
  destruct (same_query (lastQuery s) (search location)) eqn:H; [exact H|].
  cbn [lastQuery same_query option_string_eqb]. apply String.eqb_refl.
Qed.

(** The listener is idempotent on a location that does not redirect: a
    second call with the same location changes no state, renders nothing
    and queues no frame. *)
Theorem onRouteChange_same_location_again
    (location : Location) (s s1 : RouterState) :
  onRouteChange matchRoutes parseQueryParams location s = Ok s1 ->
  (forall matched, matchRoutes (pathname location) = Some matched ->
                   redirect matched = None) ->
  onRouteChange matchRoutes parseQueryParams location s1 = Ok s1.
Proof.
  intros Hrun Hnoredirect.
  pose proof (updateQuery_lastQuery location s) as Hlast.
  unfold onRouteChange in *.
  set (s0 := updateQuery parseQueryParams location s) in *.
  destruct (matchRoutes (pathname location)) as [matched|] eqn:Hm.
  - rewrite (Hnoredirect matched eq_refl) in *.
    destruct (option_string_eqb (pattern s0) (matched_pattern matched)) eqn:Hp.
    + inversion Hrun as [Hs1]. clear Hrun.
      rewrite updateQuery_fixed by exact Hlast.
      cbn [pattern path params query isRouteChange queryObserved lastQuery
           activeLayers nextHandle frames replaced].
      now rewrite Hp.
    + destruct (layers matched) as [matchedLayers|]; [|discriminate Hrun].
      destruct (diffLayers matchedLayers 0 (activeLayers s0) (frames s0)
                           (nextHandle s0)) as [[active queue] next].
      inversion Hrun as [Hs1]. clear Hrun.
      rewrite updateQuery_fixed by exact Hlast.
      cbn [pattern path params query isRouteChange queryObserved lastQuery
           activeLayers nextHandle frames replaced option_string_eqb].
      now rewrite String.eqb_refl.
  - inversion Hrun as [Hs1]. clear Hrun.
    rewrite updateQuery_fixed by exact Hlast. reflexivity.
Qed.

(** ** Redirects *)

Lemma replaceFrom_without_colon (key value before input : string) :
  noColon input = true ->
  replaceFrom (String ":" key) value before input = input.
Proof.
  revert before. induction input as [|c rest IH]; intros before H;
    [reflexivity|].
  simpl in H. apply andb_true_iff in H. destruct H as [Hc Hrest].
  cbn [replaceFrom String.prefix].
  destruct (ascii_dec ":" c) as [<-|_]; [discriminate Hc|].
  now rewrite IH.
Qed.

Lemma substituteParams_without_colon (target : string) (ps : list (string * string)) :
  noColon target = true -> substituteParams target ps = target.
Proof.
  intros H. unfold substituteParams.
  induction ps as [|[k v] rest IH]; [reflexivity|].
  cbn [fold_left fst snd]. unfold replaceString.
  now rewrite replaceFrom_without_colon.
Qed.

(** The path that [onRouteChange] hands to [history.replace] for a
    location, if it redirects. *)
Definition redirectOf (location : Location) : option string :=
  match matchRoutes (pathname location) with
  | Some matched =>
      match redirect matched with
      | Some (RedirectString target) =>
          Some (substituteParams target (matched_params matched))
      | _ => None
      end
  | None => None
  end.

(** The library's reading of a path as a location ([history] is not
    among the sources). *)
Variable parsePath : string -> Location.

(** Modelled from the spec: the history object is of the library
    [history], which is not among the sources.  Section 4.7, step 3, says
    that the history replace of a redirect re-enters the algorithm:
    [history.replace(path)] calls the listeners registered with
    [history.listen], of which [onRouteChange] is one, with the location
    of [path], before it returns.  The call is the last statement of the
    redirect branch, so the listener it runs starts from the state that
    the branch leaves.  [listen fuel location s] is the listener with the
    listeners run by its redirects, as far as [fuel] redirects; [None]
    when more redirects follow.  The result is that of the listener run
    last. *)
Fixpoint listen (fuel : nat) (location : Location) (s : RouterState)
    : option (result RouterState) :=
  match onRouteChange matchRoutes parseQueryParams location s with
  | Throw e => Some (Throw e)
  | Ok s1 =>
      match redirectOf location with
      | None => Some (Ok s1)
      | Some path =>
          match fuel with
          | 0 => None
          | S fuel' => listen fuel' (parsePath path) s1
          end
      end
  end.

(** A location that does not redirect leaves the calls of
    [history.replace] as they are and publishes what was matched. *)
Lemma onRouteChange_settles (location : Location) (s s2 : RouterState) :
  redirectOf location = None ->
  onRouteChange matchRoutes parseQueryParams location s = Ok s2 ->
  replaced s2 = replaced s /\
  match matchRoutes (pathname location) with
  | Some matched =>
      pattern s2 = Some (matched_pattern matched) /\
      path s2 = matched_path matched /\
      params s2 = matched_params matched
  | None =>
      pattern s2 = None /\ path s2 = pathname location /\
      params s2 = [("wildcard"%string, pathname location)]
  end.
Proof.
  intros Hred Hrun. unfold redirectOf in Hred. unfold onRouteChange in Hrun.
  destruct (updateQuery_keeps parseQueryParams location s)
    as [Hp [Hpath [Hparams [Ha [Hn [Hf Hrep]]]]]].
  set (s0 := updateQuery parseQueryParams location s) in *.
  destruct (matchRoutes (pathname location)) as [matched|].
  - destruct (redirect matched) as [[target| |]|]; try discriminate.
    destruct (option_string_eqb (pattern s0) (matched_pattern matched)) eqn:Heq.
    + inversion Hrun as [Hs2]. cbn [replaced pattern path params].
      split; [exact Hrep|]. split; [|split; reflexivity].
      unfold option_string_eqb in Heq.
      destruct (pattern s0) as [x|]; [|discriminate Heq].
      apply String.eqb_eq in Heq. now subst.
    + destruct (layers matched) as [matchedLayers|]; [|discriminate Hrun].
      destruct (diffLayers matchedLayers 0 (activeLayers s0) (frames s0)
                           (nextHandle s0)) as [[active queue] next].
      inversion Hrun as [Hs2]. cbn [replaced pattern path params].
      split; [exact Hrep|]. repeat split.
  - inversion Hrun as [Hs2]. cbn [replaced pattern path params].
    split; [exact Hrep|]. repeat split.
Qed.

(** A route that redirects replaces the history entry by its target, in
    which the parameters of the match are substituted (a target without a
    colon stays as it is); the listener changes nothing else itself.  The
    replace runs the listener again, on the location of the target: when
    that location does not redirect further, the state after the call is
    the one that the listener computes there, and pattern, path and params
    are those of the target. *)
Theorem onRouteChange_redirect_reenters
    (location : Location) (s : RouterState) (matched : Matched) (target : string) :
  matchRoutes (pathname location) = Some matched ->
  redirect matched = Some (RedirectString target) ->
  exists s1,
    onRouteChange matchRoutes parseQueryParams location s = Ok s1 /\
    replaced s1 = replaced s ++ [substituteParams target (matched_params matched)] /\
    (noColon target = true ->
     substituteParams target (matched_params matched) = target) /\
    pattern s1 = pattern s /\ path s1 = path s /\ params s1 = params s /\
    activeLayers s1 = activeLayers s /\ frames s1 = frames s /\
    nextHandle s1 = nextHandle s /\
    (redirectOf (parsePath (substituteParams target (matched_params matched)))
       = None ->
     forall fuel,
       listen (S fuel) location s
       = Some (onRouteChange matchRoutes parseQueryParams
                 (parsePath (substituteParams target (matched_params matched)))
                 s1)) /\
    (redirectOf (parsePath (substituteParams target (matched_params matched)))
       = None ->
     forall fuel s2,
       listen (S fuel) location s = Some (Ok s2) ->
       replaced s2
         = replaced s ++ [substituteParams target (matched_params matched)] /\
       match matchRoutes
               (pathname (parsePath
                            (substituteParams target (matched_params matched))))
       with
       | Some landed =>
           pattern s2 = Some (matched_pattern landed) /\
           path s2 = matched_path landed /\
           params s2 = matched_params landed
       | None =>
           pattern s2 = None /\
           path s2 = pathname (parsePath
                                 (substituteParams target (matched_params matched))) /\
           params s2
             = [("wildcard"%string,
                 pathname (parsePath
                             (substituteParams target (matched_params matched))))]
       end).
Proof.
  intros Hm Hr.
  set (path' := substituteParams target (matched_params matched)).
  destruct (updateQuery_keeps parseQueryParams location s)
    as [Hp [Hpath [Hparams [Ha [Hn [Hf Hrep]]]]]].
  assert (Hrun : exists s1,
            onRouteChange matchRoutes parseQueryParams location s = Ok s1 /\
            replaced s1 = replaced s ++ [path'] /\
            pattern s1 = pattern s /\ path s1 = path s /\
            params s1 = params s /\ activeLayers s1 = activeLayers s /\
            frames s1 = frames s /\ nextHandle s1 = nextHandle s).
  { unfold onRouteChange. rewrite Hm, Hr. eexists. split; [reflexivity|].
    cbn [replaced pattern path params activeLayers frames nextHandle].
    rewrite Hrep. repeat split; assumption. }
  destruct Hrun as [s1 [Hrun [Hrep1 [Hp1 [Hpath1 [Hparams1 [Ha1 [Hf1 Hn1]]]]]]]].
  assert (Hred : redirectOf location = Some path')
    by (unfold redirectOf; now rewrite Hm, Hr).
  assert (Hlisten : redirectOf (parsePath path') = None ->
            forall fuel,
              listen (S fuel) location s
              = Some (onRouteChange matchRoutes parseQueryParams
                        (parsePath path') s1)).
  { intros Hnone fuel. cbn [listen]. rewrite Hrun, Hred.
    destruct fuel as [|fuel]; cbn [listen];
      destruct (onRouteChange matchRoutes parseQueryParams (parsePath path') s1);
      now rewrite ?Hnone. }
  exists s1. split; [exact Hrun|]. split; [exact Hrep1|].
  split; [apply substituteParams_without_colon|].
  split; [exact Hp1|]. split; [exact Hpath1|]. split; [exact Hparams1|].
  split; [exact Ha1|]. split; [exact Hf1|]. split; [exact Hn1|].
  split; [exact Hlisten|].
  intros Hnone fuel s2 Hs2. rewrite (Hlisten Hnone fuel) in Hs2.
  injection Hs2 as Hs2.
  destruct (onRouteChange_settles _ _ Hnone Hs2) as [Hrep2 Hlanded].
  split; [now rewrite Hrep2|exact Hlanded].
Qed.

End OnRouteChange.

(** ** The theorems at the examples *)

Lemma onRouteChange_same_location_again_at_example :
  exists s1,
    onRouteChange exampleRoutes exampleQuery
      {| pathname := "/a/b/d"; search := "?tab=2" |} exampleState = Ok s1 /\
    length (frames s1) = 1 /\
    onRouteChange exampleRoutes exampleQuery
      {| pathname := "/a/b/d"; search := "?tab=2" |} s1 = Ok s1.
Proof.
  destruct (onRouteChange exampleRoutes exampleQuery
              {| pathname := "/a/b/d"; search := "?tab=2" |} exampleState)
    as [s1|] eqn:Hrun; [|discriminate Hrun].
  exists s1. split; [reflexivity|]. split.
  - vm_compute in Hrun. injection Hrun as <-. reflexivity.
  - apply (@onRouteChange_same_location_again exampleRoutes exampleQuery
             {| pathname := "/a/b/d"; search := "?tab=2" |} exampleState s1 Hrun).
    intros matched Hm. vm_compute in Hm. injection Hm as <-. reflexivity.
Defined.

Lemma onRouteChange_redirect_reenters_at_example :
  exists s2,
    listen redirectRoutes exampleQuery plainPath 1
      {| pathname := "/old/5"; search := "" |} exampleState = Some (Ok s2) /\
    replaced s2 = ["/new"%string] /\
    pattern s2 = Some "/new"%string /\ path s2 = "/new"%string /\
    params s2 = [] /\
    activeLayers s2 = [{| id := 9; handle := 13 |}].
Proof.
  destruct (@onRouteChange_redirect_reenters redirectRoutes exampleQuery plainPath
              {| pathname := "/old/5"; search := "" |} exampleState
              _ "/new"%string eq_refl eq_refl)
    as [s1 [_ [_ [_ [_ [_ [_ [_ [_ [_ [_ Hland]]]]]]]]]]].
  destruct (listen redirectRoutes exampleQuery plainPath 1
              {| pathname := "/old/5"; search := "" |} exampleState)
    as [[s2|e]|] eqn:Hl; try (vm_compute in Hl; discriminate Hl).
  exists s2. split; [reflexivity|].
  destruct (Hland eq_refl 0 s2 Hl) as [Hrep [Hp [Hpath Hparams]]].
  split; [exact Hrep|]. split; [exact Hp|]. split; [exact Hpath|].
  split; [exact Hparams|].
  vm_compute in Hl. injection Hl as <-. reflexivity.
Defined.

End RouterProps.

(* ===================================================================== *)
(** * More on the keyed list: any keys, and updates that overlap *)
(* ===================================================================== *)

Module MapComponentProps.

Import Js MapComponent.

Section Update.

Variable T : Type.
Variable getKey : T -> Key.
Variable rootOf : nat -> option nat.

(** The frame that the last call of [update] queued. *)
Definition lastFrame (h : Handle) : Frame :=
  last (frames h) {| frame_removed := []; frame_newState := [] |}.

(** Some key of [keys] is [NaN]. *)
Definition hasNaN (keys : list Key) : bool :=
  existsb (fun k => match k with KeyNaN => true | _ => false end) keys.

Lemma hasNaN_In (keys : list Key) : hasNaN keys = true <-> In KeyNaN keys.
Proof.
  unfold hasNaN. rewrite existsb_exists. split.
  - intros [k [Hin Hk]]. destruct k; try discriminate Hk. exact Hin.
  - intros Hin. exists KeyNaN. now split.
Qed.

(** [update] throws exactly when the key of some item is [NaN]: such a
    key equals neither itself in [added] nor the key of a tracked entry,
    and the component of [undefined] is read.  Otherwise it does not throw
    and does not write the tracked state, also when keys occur twice: it
    calls [createItem] for every item whose key is not tracked, once per
    occurrence, so a new key that occurs twice gets two components; an
    entry whose key is tracked takes the component of the first tracked
    entry with that key. *)
Theorem update_throws_exactly_for_NaN (items : list T) (h : Handle) :
  if hasNaN (map getKey items)
  then update getKey items h
       = Throw (TypeError "undefined has no property component"%string)
  else
    exists h1 created,
      update getKey items h = Ok (h1, created) /\
      state h1 = state h /\
      frames h1 = frames h ++ [lastFrame h1] /\
      frame_removed (lastFrame h1) = removedOf (state h) (map getKey items) /\
      map fst created
        = filter (fun x => negb (existsb (Key_eqb (getKey x)) (map key (state h))))
                 items /\
      map snd created = seq (nextComponent h) (length created) /\
      nextComponent h1 = nextComponent h + length created /\
      map key (frame_newState (lastFrame h1)) = map getKey items /\
      map index (frame_newState (lastFrame h1)) = seq 0 (length items) /\
      (forall e, In e (frame_newState (lastFrame h1)) ->
         match findTracked (state h) (key e) with
         | Some tracked => component e = component tracked
         | None => In (key e, component e)
                      (map (fun call => (getKey (fst call), snd call)) created)
         end).
Proof.
  destruct (hasNaN (map getKey items)) eqn:Hnan.
  { apply update_NaN. now apply hasNaN_In. }
  assert (Hnot : ~ In KeyNaN (map getKey items)).
  { intros Hin. apply hasNaN_In in Hin. congruence. }
  rewrite update_nextState by exact Hnot.
  pose proof (@nextState_keys T getKey (state h) items 0 (nextComponent h)) as Hk.
  pose proof (@nextState_indexes T getKey (state h) items 0 (nextComponent h)) as Hi.
  pose proof (@nextState_created T getKey (state h) items 0 (nextComponent h)) as Hc.
  pose proof (@nextState_origin T getKey (state h) items 0 (nextComponent h)) as Ho.
  destruct (nextState getKey (state h) items 0 (nextComponent h)) as [[ns cr] nx].
  cbn [fst] in Hk, Hi. destruct Hc as [Hc1 [Hc2 Hc3]].
  eexists. exists cr. split; [reflexivity|].
  unfold lastFrame. cbn [state frames nextComponent].
  rewrite last_last. cbn [frame_removed frame_newState].
  repeat split; try assumption; try reflexivity.
  intros e He. destruct (Ho e He) as [_ [[t [Hf Hcomp]] | [Hf [_ [x [Hx Hkx]]]]]];
    rewrite Hf.
  - exact Hcomp.
  - apply in_map_iff. exists (x, component e). split; [|exact Hx].
    cbn [fst snd]. now rewrite Hkx.
Qed.

(** ** Two updates before an animation frame *)

Lemma remount_connects_only (parent : option nat) (previous : nat)
    (newState : list MapStateItem) (c : nat) :
  ~ In (Disconnect c) (remount rootOf parent previous newState).
Proof.
  revert previous. induction newState as [|item rest IH]; intros previous;
    simpl; [tauto|].
  intros [H | H]; [discriminate H | exact (IH _ H)].
Qed.

Lemma remount_connects_all (parent : option nat) (previous : nat)
    (newState : list MapStateItem) (c : nat) :
  In c (map component newState) ->
  exists after, In (Connect c parent after) (remount rootOf parent previous newState).
Proof.
  revert previous. induction newState as [|item rest IH]; intros previous;
    simpl; [tauto|].
  intros [<- | H].
  - exists previous. now left.
  - destruct (IH (match rootOf (component item) with
                  | Some r => r
                  | None => previous
                  end) H) as [after Hin].
    exists after. now right.
Qed.

Lemma unmountRemoved_origin (st : list MapStateItem) (removed : list Removed) (c : nat) :
  In (Disconnect c) (unmountRemoved st removed) ->
  exists entry item,
    In entry removed /\ findTracked st (removed_key entry) = Some item /\
    c = component item.
Proof.
  unfold unmountRemoved. rewrite in_flat_map. intros [entry [Hin Hc]].
  destruct (findTracked st (removed_key entry)) as [item|] eqn:Hf; [|destruct Hc].
  destruct Hc as [Hc | []]. inversion Hc. exists entry, item. now repeat split.
Qed.

Lemma removedOf_key (st : list MapStateItem) (newKeys : list Key) (entry : Removed) :
  In entry (removedOf st newKeys) ->
  ~ In (removed_key entry) newKeys /\ In (removed_key entry) (map key st).
Proof.
  unfold removedOf. rewrite in_map_iff. intros [tracked [<- Hin]].
  apply filter_In in Hin. destruct Hin as [Hin Hneg]. cbn [removed_key].
  split; [|now apply in_map].
  intros Hk. apply includes_In in Hk. rewrite Hk in Hneg. discriminate Hneg.
Qed.

(** When [update] runs a second time before the frame of the first one,
    it still sees the old tracked state: it constructs a second component
    for every item that the first call constructed one for.  The components
    of the first call are connected by the first frame, are not among the
    tracked entries after the second frame, and are disconnected by
    neither frame.  (When the key of an item is [NaN] the first call
    throws.) *)
Theorem update_twice_before_a_frame (items : list T) (h : Handle) :
  frames h = [] ->
  Forall (fun e => component e < nextComponent h) (state h) ->
  if hasNaN (map getKey items)
  then update getKey items h
       = Throw (TypeError "undefined has no property component"%string)
  else
  exists h1 created1 h2 created2 h3 calls1 h4 calls2,
    update getKey items h = Ok (h1, created1) /\
    update getKey items h1 = Ok (h2, created2) /\
    runFrame rootOf h2 = (h3, calls1) /\
    runFrame rootOf h3 = (h4, calls2) /\
    map fst created2 = map fst created1 /\
    map snd created1 = seq (nextComponent h) (length created1) /\
    map snd created2
      = seq (nextComponent h + length created1) (length created1) /\
    frames h4 = [] /\
    (forall c, In c (map snd created1) ->
       (exists after, In (Connect c (parent h) after) calls1) /\
       ~ In c (map component (state h4)) /\
       ~ In (Disconnect c) (calls1 ++ calls2)).
Proof.
  intros Hframes Hlt.
  destruct (hasNaN (map getKey items)) eqn:Hhas.
  { apply update_NaN. now apply hasNaN_In. }
  assert (Hnan : ~ In KeyNaN (map getKey items)).
  { intros Hin. apply hasNaN_In in Hin. congruence. }
  pose proof (update_nextState getKey items h Hnan) as Hu1.
  pose proof (@nextState_keys T getKey (state h) items 0 (nextComponent h)) as Hk1.
  pose proof (@nextState_created T getKey (state h) items 0 (nextComponent h)) as Hc1.
  pose proof (@nextState_created_bound T getKey (state h) items 0 (nextComponent h))
    as Hb1.
  destruct (nextState getKey (state h) items 0 (nextComponent h))
    as [[ns1 cr1] nx1].
  cbn [fst] in Hk1. destruct Hc1 as [Hf1 [Hs1 Hn1]].
  rewrite Hframes in Hu1. cbn [app] in Hu1.
  match type of Hu1 with _ = Ok (?x, _) => set (h1 := x) in Hu1 end.
  pose proof (update_nextState getKey items h1 Hnan) as Hu2.
  cbn [h1 state nextComponent frames root parent app] in Hu2.
  pose proof (@nextState_created T getKey (state h) items 0 nx1) as Hc2.
  pose proof (@nextState_origin T getKey (state h) items 0 nx1) as Ho2.
  destruct (nextState getKey (state h) items 0 nx1) as [[ns2 cr2] nx2].
  destruct Hc2 as [Hf2 [Hs2 Hn2]].
  assert (Hlen : length cr2 = length cr1).
  { rewrite <- (length_map fst cr2), <- (length_map fst cr1). now rewrite Hf1, Hf2. }
  exists h1, cr1. eexists. exists cr2. eexists. eexists. eexists. eexists.
  split; [exact Hu1|]. split; [exact Hu2|].
  unfold runFrame. cbn [h1 app frames state root parent nextComponent
    frame_removed frame_newState].
  split; [reflexivity|]. split; [reflexivity|].
  split; [now rewrite Hf1, Hf2|]. split; [exact Hs1|].
  split; [now rewrite Hs2, Hlen, Hn1|]. split; [reflexivity|].
  intros c Hc.
  assert (Hrange : nextComponent h <= c < nx1).
  { rewrite Hs1 in Hc. apply in_seq in Hc. lia. }
  split; [|split].
  - apply in_map_iff in Hc. destruct Hc as [[x c'] [Hcc Hin]]. cbn [snd] in Hcc.
    subst c'. specialize (Hb1 x c Hin).
    assert (Hcomp : In c (map component ns1)).
    { apply in_map_iff in Hb1. destruct Hb1 as [e [He Hin1]].
      apply in_map_iff. exists e. split; [|exact Hin1].
      unfold binding in He. now inversion He. }
    destruct (@remount_connects_all (parent h) (root h) ns1 c Hcomp) as [after Ha].
    exists after. apply in_or_app. now right.
  - intros Hin. apply in_map_iff in Hin. destruct Hin as [e [He Hin]].
    destruct (Ho2 e Hin) as [_ [[t [Hf Hcomp]] | [_ [Hr _]]]].
    + apply findTracked_Some in Hf. destruct Hf as [Ht _].
      rewrite Forall_forall in Hlt. specialize (Hlt t Ht). lia.
    + lia.
  - intros Hin. apply in_app_or in Hin. destruct Hin as [Hin | Hin];
      apply in_app_or in Hin; destruct Hin as [Hin | Hin].
    + apply unmountRemoved_origin in Hin.
      destruct Hin as [entry [item [_ [Hf Hcomp]]]].
      apply findTracked_Some in Hf. destruct Hf as [Ht _].
      rewrite Forall_forall in Hlt. specialize (Hlt item Ht). lia.
    + exact (remount_connects_only _ _ _ _ Hin).
    + apply unmountRemoved_origin in Hin.
      destruct Hin as [entry [item [Hentry [Hf _]]]].
      apply removedOf_key in Hentry. destruct Hentry as [Hnot _].
      apply findTracked_Some in Hf. destruct Hf as [Hitem [Hkey _]].
      apply Hnot. rewrite <- Hk1, <- Hkey. now apply in_map.
    + exact (remount_connects_only _ _ _ _ Hin).
Qed.

End Update.

(** ** The second theorem at the list of the example *)

Lemma components_of_handle123 :
  Forall (fun e => component e < nextComponent handle123) (state handle123).
Proof. repeat constructor. Defined.

Lemma update_twice_before_a_frame_at_handle123 :
  frames handle123 = [] /\
  Forall (fun e => component e < nextComponent handle123) (state handle123) /\
  exists h1 h2 h3 calls1 h4 calls2,
    update idKey [1; 4]%Z handle123 = Ok (h1, [(4%Z, 3)]) /\
    update idKey [1; 4]%Z h1 = Ok (h2, [(4%Z, 4)]) /\
    runFrame idRoot h2 = (h3, calls1) /\
    runFrame idRoot h3 = (h4, calls2) /\
    ~ In 3 (map component (state h4)) /\
    ~ In (Disconnect 3) (calls1 ++ calls2).
Proof.
  split; [reflexivity|]. split; [exact components_of_handle123|].
  pose proof (@update_twice_before_a_frame Z idKey idRoot [1; 4]%Z handle123
                eq_refl components_of_handle123) as Htwice.
  change (hasNaN (map idKey [1; 4]%Z)) with false in Htwice.
  destruct Htwice
    as [h1 [created1 [h2 [created2 [h3 [calls1 [h4 [calls2
         [Hu1 [Hu2 [Hf1 [Hf2 [_ [Hs1 [Hs2 [_ Hall]]]]]]]]]]]]]]]].
  vm_compute in Hu1. injection Hu1 as Hh1 Hcr1. subst h1 created1.
  vm_compute in Hu2. injection Hu2 as Hh2 Hcr2. subst h2 created2.
  eexists. eexists. exists h3, calls1, h4, calls2.
  split; [reflexivity|]. split; [reflexivity|]. split; [exact Hf1|].
  split; [exact Hf2|].
  destruct (Hall 3 (or_introl eq_refl)) as [_ [Hn Hd]].
  split; [exact Hn | exact Hd].
Defined.

End MapComponentProps.

(* ===================================================================== *)
(** * More on the spring: the amplitude window and the promises *)
(* ===================================================================== *)

Module SpringProps.

Import Js Spring.
Local Open Scope R_scope.

(** ** The amplitude measurer *)

Lemma sample_window (resolution : nat) (values : list R) :
  fold_left (sample resolution) values []
  = skipn (length values - resolution) values.
Proof.
  induction values as [|x values IH] using rev_ind; [reflexivity|].
  rewrite fold_left_app. cbn [fold_left]. rewrite IH. unfold sample.
  assert (Hs : (skipn (length values - resolution) values ++ [x])%list
               = skipn (length values - resolution) (values ++ [x])).
  { rewrite skipn_app.
    replace (length values - resolution - length values)%nat with 0%nat by lia.
    reflexivity. }
  rewrite Hs, skipn_skipn. f_equal.
  rewrite length_skipn, !length_app. cbn [length]. lia.
Qed.

Lemma minOf_le (xs : list R) (x y : R) : In y (x :: xs) -> minOf xs x <= y.
Proof.
  unfold minOf. induction xs as [|a rest IH]; simpl.
  - intros [<- | []]. apply Rle_refl.
  - intros [<- | [<- | H]].
    + eapply Rle_trans; [apply Rmin_r|]. apply IH. now left.
    + apply Rmin_l.
    + eapply Rle_trans; [apply Rmin_r|]. apply IH. now right.
Qed.

Lemma maxOf_ge (xs : list R) (x y : R) : In y (x :: xs) -> y <= maxOf xs x.
Proof.
  unfold maxOf. induction xs as [|a rest IH]; simpl.
  - intros [<- | []]. apply Rle_refl.
  - intros [<- | [<- | H]].
    + eapply Rle_trans; [|apply Rmax_r]. apply IH. now left.
    + apply Rmax_l.
    + eapply Rle_trans; [|apply Rmax_r]. apply IH. now right.
Qed.

(** After any number of samples the measurer holds the last [resolution]
    of them.  Its value is [null] exactly while fewer samples were taken,
    it is [-Infinity] exactly for the resolution 0, and otherwise it is a
    number that is not negative and bounds the difference of any two
    samples of the window.  The animation loop therefore takes the value
    for "below the threshold" only for the resolution 0, or for a full
    window and a positive threshold. *)
Theorem amplitude_measures_last_samples
    (resolution : nat) (values : list R) (threshold : R) :
  fold_left (sample resolution) values []
    = skipn (length values - resolution) values /\
  length (fold_left (sample resolution) values [])
    = Nat.min (length values) resolution /\
  match amplitudeValue resolution (fold_left (sample resolution) values []) with
  | AmplitudeNull => (length values < resolution)%nat
  | AmplitudeNegInfinity => resolution = 0%nat
  | AmplitudeNumber a =>
      (0 < resolution <= length values)%nat /\ 0 <= a /\
      forall x y, In x (fold_left (sample resolution) values []) ->
                  In y (fold_left (sample resolution) values []) -> x - y <= a
  end /\
  (belowThreshold
     (amplitudeValue resolution (fold_left (sample resolution) values []))
     threshold = true ->
   resolution = 0%nat \/ ((resolution <= length values)%nat /\ 0 < threshold)).
Proof.
  assert (Hlen : length (fold_left (sample resolution) values [])
                 = Nat.min (length values) resolution).
  { rewrite sample_window, length_skipn. lia. }
  assert (Hvalue :
    match amplitudeValue resolution (fold_left (sample resolution) values []) with
    | AmplitudeNull => (length values < resolution)%nat
    | AmplitudeNegInfinity => resolution = 0%nat
    | AmplitudeNumber a =>
        (0 < resolution <= length values)%nat /\ 0 <= a /\
        forall x y, In x (fold_left (sample resolution) values []) ->
                    In y (fold_left (sample resolution) values []) -> x - y <= a
    end).
  { unfold amplitudeValue.
    destruct (Nat.ltb_spec (length (fold_left (sample resolution) values []))
                           resolution) as [Hlt | Hge].
    - lia.
    - destruct (fold_left (sample resolution) values []) as [|x rest] eqn:Hs.
      + simpl in Hge. lia.
      + simpl in Hlen, Hge. split; [lia|].
        pose proof (@minOf_le rest x x (or_introl eq_refl)) as Hmin.
        pose proof (@maxOf_ge rest x x (or_introl eq_refl)) as Hmax.
        split; [lra|]. intros a b Ha Hb.
        pose proof (@maxOf_ge rest x a Ha). pose proof (@minOf_le rest x b Hb).
        lra. }
  split; [apply sample_window|]. split; [exact Hlen|]. split; [exact Hvalue|].
  destruct (amplitudeValue resolution (fold_left (sample resolution) values []))
    as [| |a]; simpl.
  - discriminate.
  - intros _. now left.
  - destruct Hvalue as [Hres [Ha _]].
    destruct (Req_dec_T a 0) as [_|Hne]; [discriminate|].
    destruct (Rlt_dec a threshold) as [Hlt|_]; [|discriminate].
    intros _. right. split; [lia | lra].
Qed.

(** ** One animation on an idle spring *)

(** The animation [a] with other samples. *)
Definition withSamples (samples : list R) (a : Animation) : Animation :=
  {| anim_id := anim_id a; anim_samples := samples;
     anim_endWindow := anim_endWindow a; anim_endAmplitude := anim_endAmplitude a;
     anim_mass := anim_mass a; anim_stiffness := anim_stiffness a;
     anim_damping := anim_damping a; anim_velocity := anim_velocity a;
     anim_startTime := anim_startTime a; anim_startValue := anim_startValue a;
     anim_endValue := anim_endValue a |}.

(** The animation frames at the given times, one after the other. *)
Definition runFrames (times : list Z) (s : Spring) : Spring :=
  fold_left (fun s now => runFrame now s) times s.

(** While fewer frames have run than the end window asks for, the
    animation cannot end: it stays the current one, its callback is the only
    one waiting, it has sampled the proportion of every frame, no promise
    is resolved, and the value is the animated value of the last frame. *)
Theorem animation_runs_for_the_end_window
    (a : Animation) (s : Spring) (times : list Z) :
  scheduled s = [a] -> currentAnimationId s = Some (anim_id a) ->
  anim_samples a = [] ->
  (length times < anim_endWindow a)%nat ->
  currentAnimationId (runFrames times s) = Some (anim_id a) /\
  scheduled (runFrames times s)
    = [withSamples (map (proportionAt a) times) a] /\
  resolved (runFrames times s) = resolved s /\
  nextId (runFrames times s) = nextId s /\
  get (runFrames times s)
    = match times with
      | [] => get s
      | _ => animatedValue a (last times 0%Z)
      end.
Proof.
  intros Hsched Hcur Hsamples.
  induction times as [|now times IH] using rev_ind; intros Hlen.
  - simpl. repeat split; try assumption.
    rewrite Hsched. destruct a; simpl in *. now subst.
  - rewrite length_app in Hlen. cbn [length] in Hlen.
    destruct IH as [Hc [Hs [Hr [Hn Hg]]]]; [lia|].
    unfold runFrames in *. rewrite fold_left_app. cbn [fold_left].
    set (s' := fold_left (fun s now => runFrame now s) times s) in *.
    unfold runFrame. rewrite Hs. unfold step.
    rewrite Hc.
    assert (Hp : proportionAt (withSamples (map (proportionAt a) times) a) now
                 = proportionAt a now) by reflexivity.
    assert (Hv : animatedValue (withSamples (map (proportionAt a) times) a) now
                 = animatedValue a now) by reflexivity.
    rewrite Hp, Hv.
    cbn [withSamples anim_id anim_samples anim_endWindow anim_endAmplitude
         anim_mass anim_stiffness anim_damping anim_velocity anim_startTime
         anim_startValue anim_endValue Nat_option_eqb].
    rewrite Nat.eqb_refl. cbn [negb].
    assert (Hkeep : sample (anim_endWindow a) (map (proportionAt a) times)
                           (proportionAt a now)
                    = map (proportionAt a) (times ++ [now])).
    { unfold sample. rewrite map_app. cbn [map].
      rewrite length_app, length_map. cbn [length].
      replace (length times + 1 - anim_endWindow a)%nat with 0%nat by lia.
      reflexivity. }
    rewrite Hkeep.
    assert (Hnull : amplitudeValue (anim_endWindow a)
                      (map (proportionAt a) (times ++ [now])) = AmplitudeNull).
    { unfold amplitudeValue. rewrite length_map, length_app. cbn [length].
      destruct (Nat.ltb_spec (length times + 1) (anim_endWindow a)); [reflexivity|lia]. }
    rewrite Hnull. cbn [belowThreshold currentAnimationId scheduled resolved
      nextId get currentValue app].
    split; [reflexivity|]. split; [reflexivity|]. split; [exact Hr|].
    split; [exact Hn|].
    rewrite last_last. destruct times; reflexivity.
Qed.

(** The frame at which the amplitude is below the threshold writes the
    end value and ends the animation; the promise is resolved by the next
    frame, which writes nothing, and after it no callback is waiting.  With
    an end window of 0 the first frame ends the animation. *)
Theorem animation_end_resolves_one_frame_later
    (a : Animation) (s : Spring) (now later : Z) :
  scheduled s = [a] -> currentAnimationId s = Some (anim_id a) ->
  belowThreshold
    (amplitudeValue (anim_endWindow a)
       (sample (anim_endWindow a) (anim_samples a) (proportionAt a now)))
    (anim_endAmplitude a) = true ->
  get (runFrame now s) = anim_endValue a /\
  currentAnimationId (runFrame now s) = None /\
  resolved (runFrame now s) = resolved s /\
  length (scheduled (runFrame now s)) = 1%nat /\
  get (runFrame later (runFrame now s)) = anim_endValue a /\
  resolved (runFrame later (runFrame now s)) = (resolved s ++ [anim_id a])%list /\
  scheduled (runFrame later (runFrame now s)) = [] /\
  runFrame later (runFrame later (runFrame now s))
    = runFrame later (runFrame now s).
Proof.
  intros Hsched Hcur Hend.
  assert (H1 : runFrame now s
               = {| currentValue := anim_endValue a; nextId := nextId s;
                    currentAnimationId := None; defaults := defaults s;
                    scheduled :=
                      [withSamples (sample (anim_endWindow a) (anim_samples a)
                                           (proportionAt a now)) a];
                    resolved := resolved s |}).
  { unfold runFrame. rewrite Hsched. unfold step. rewrite Hcur.
    cbn [Nat_option_eqb]. rewrite Nat.eqb_refl. cbn [negb]. rewrite Hend.
    reflexivity. }
  rewrite H1. repeat split.
Qed.

(** ** Promises *)

(** A call on the spring object, or an animation frame. *)
Inductive Op : Type :=
| OpAnimateTo (reducedMotion : bool) (now : Z) (endValue : R)
    (options : option SpringOptions)
| OpSnapTo (newValue : R)
| OpFrame (now : Z).

Definition applyOp (s : Spring) (op : Op) : Spring :=
  match op with
  | OpAnimateTo reducedMotion now endValue options =>
      animateTo reducedMotion now endValue options s
  | OpSnapTo newValue => snapTo newValue s
  | OpFrame now => runFrame now s
  end.

Definition runOps (ops : list Op) (s : Spring) : Spring :=
  fold_left applyOp ops s.

(** Every animation started so far has its callback waiting, or had its
    promise resolved; the current animation is among the waiting ones. *)
Definition accounted (s : Spring) : Prop :=
  Permutation (map anim_id (scheduled s) ++ resolved s) (seq 0 (nextId s)) /\
  forall i, currentAnimationId s = Some i -> In i (map anim_id (scheduled s)).

Lemma applyOp_accounted (s : Spring) (op : Op) :
  accounted s -> accounted (applyOp s op).
Proof.
  intros [Hperm Hcur]. destruct op as [reducedMotion now endValue options|v|now];
    cbn [applyOp].
  - unfold animateTo. destruct reducedMotion.
    + split; [exact Hperm | intros i H; discriminate H].
    + cbn [accounted]. split; cbn [scheduled resolved nextId currentAnimationId].
      * rewrite map_app. cbn [map anim_id]. rewrite seq_S. cbn [Nat.add].
        rewrite <- app_assoc.
        apply Permutation_trans
          with ((map anim_id (scheduled s) ++ resolved s) ++ [nextId s])%list.
        -- rewrite <- app_assoc. apply Permutation_app_head.
           apply Permutation_app_comm.
        -- now apply Permutation_app_tail.
      * intros i H. injection H as <-. rewrite map_app. apply in_or_app.
        right. now left.
  - split; [exact Hperm | intros i H; discriminate H].
  - unfold runFrame. destruct (scheduled s) as [|a waiting] eqn:Hs.
    + split; [now rewrite Hs | intros i H; rewrite Hs; now apply Hcur].
    + unfold step.
      destruct (Nat_option_eqb (currentAnimationId s) (anim_id a)) eqn:Heq;
        cbn [negb].
      * split; cbn [scheduled resolved nextId currentAnimationId].
        -- rewrite map_app. cbn [map anim_id].
           eapply Permutation_trans; [|exact Hperm]. cbn [map app].
           rewrite <- app_assoc. cbn [app].
           apply Permutation_sym, Permutation_middle.
        -- intros i H. rewrite map_app. apply in_or_app.
           destruct (currentAnimationId s) as [j|]; [|discriminate Heq].
           cbn [Nat_option_eqb] in Heq. apply Nat.eqb_eq in Heq. subst j.
           right. left. cbn [anim_id].
           destruct (belowThreshold _ _); [discriminate H | now injection H].
      * split; cbn [scheduled resolved nextId currentAnimationId].
        -- eapply Permutation_trans; [|exact Hperm]. cbn [map app].
           rewrite app_assoc. apply Permutation_sym, Permutation_cons_append.
        -- intros i H. specialize (Hcur i H). cbn [map] in Hcur.
           destruct Hcur as [Ha | Hin]; [|exact Hin].
           rewrite H in Heq. cbn [Nat_option_eqb] in Heq.
           apply Nat.eqb_neq in Heq. congruence.
Qed.

(** Whatever calls and animation frames a spring goes through, every
    animation it started is accounted for: its callback is waiting or its
    promise is resolved, never both and never twice, and the current
    animation always has its callback waiting. *)
Theorem animations_are_waiting_or_resolved
    (initialValue : R) (options : option SpringOptions) (ops : list Op) :
  Permutation (map anim_id (scheduled (runOps ops (spring initialValue options)))
               ++ resolved (runOps ops (spring initialValue options)))
              (seq 0 (nextId (runOps ops (spring initialValue options)))) /\
  NoDup (map anim_id (scheduled (runOps ops (spring initialValue options)))
         ++ resolved (runOps ops (spring initialValue options))) /\
  (forall i,
     currentAnimationId (runOps ops (spring initialValue options)) = Some i ->
     In i (map anim_id (scheduled (runOps ops (spring initialValue options))))).
Proof.
  assert (H : accounted (runOps ops (spring initialValue options))).
  { unfold runOps.
    assert (H0 : accounted (spring initialValue options)).
    { split; [constructor | intros i Hi; discriminate Hi]. }
    revert H0. generalize (spring initialValue options).
    induction ops as [|op rest IH]; intros s Hs; [exact Hs|].
    cbn [fold_left]. apply IH. now apply applyOp_accounted. }
  destruct H as [Hperm Hcur]. split; [exact Hperm|]. split; [|exact Hcur].
  apply Permutation_NoDup with (seq 0 (nextId (runOps ops (spring initialValue options)))).
  - now apply Permutation_sym.
  - apply seq_NoDup.
Qed.

(** ** The theorems at a spring from 0 to 1 *)

(** The spring made by [spring(0)] after [animateTo(1)] at the time 0,
    and the animation it started. *)
Definition exampleSpring : Spring :=
  animateTo false 0 1 None (spring 0 None).

Definition exampleAnimation : Animation :=
  {| anim_id := 0; anim_samples := [];
     anim_endWindow := 20; anim_endAmplitude := 1 / 1000;
     anim_mass := 2; anim_stiffness := 1200; anim_damping := 160;
     anim_velocity := 5;
     anim_startTime := 0; anim_startValue := 0; anim_endValue := 1 |}.

(** The same with [animateTo(1, { endWindow: 0 })]. *)
Definition noWindow : SpringOptions :=
  {| mass := None; stiffness := None; damping := None; velocity := None;
     endAmplitude := None; endWindow := Some 0%nat |}.

Definition hastySpring : Spring :=
  animateTo false 0 1 (Some noWindow) (spring 0 None).

Definition hastyAnimation : Animation :=
  {| anim_id := 0; anim_samples := [];
     anim_endWindow := 0; anim_endAmplitude := 1 / 1000;
     anim_mass := 2; anim_stiffness := 1200; anim_damping := 160;
     anim_velocity := 5;
     anim_startTime := 0; anim_startValue := 0; anim_endValue := 1 |}.

Lemma animation_runs_for_the_end_window_at_example :
  scheduled exampleSpring = [exampleAnimation] /\
  (length [16%Z; 32%Z] < anim_endWindow exampleAnimation)%nat /\
  currentAnimationId (runFrames [16%Z; 32%Z] exampleSpring) = Some 0%nat /\
  get (runFrames [16%Z; 32%Z] exampleSpring) = animatedValue exampleAnimation 32.
Proof.
  assert (Hlen : (length [16%Z; 32%Z] < anim_endWindow exampleAnimation)%nat)
    by (simpl; lia).
  split; [reflexivity|]. split; [exact Hlen|].
  destruct (@animation_runs_for_the_end_window exampleAnimation exampleSpring
              [16%Z; 32%Z] eq_refl eq_refl eq_refl Hlen)
    as [Hcur [_ [_ [_ Hget]]]].
  split; [exact Hcur | exact Hget].
Defined.

Lemma animation_end_resolves_one_frame_later_at_example :
  scheduled hastySpring = [hastyAnimation] /\
  get (runFrame 16 hastySpring) = 1 /\
  resolved (runFrame 32 (runFrame 16 hastySpring)) = [0%nat] /\
  scheduled (runFrame 32 (runFrame 16 hastySpring)) = [].
Proof.
  split; [reflexivity|].
  destruct (@animation_end_resolves_one_frame_later hastyAnimation hastySpring
              16%Z 32%Z eq_refl eq_refl eq_refl)
    as [Hget [_ [_ [_ [_ [Hres [Hsched _]]]]]]].
  split; [exact Hget|]. split; [exact Hres | exact Hsched].
Defined.

End SpringProps.

(* ===================================================================== *)
(** * The router store of the class-based generation *)
(* ===================================================================== *)

Module RouterFirst.

Import Js Router.

(** The result of [router.match] when a route matches.  The redirect of a
    route is a string here: the listener calls its [replace] method.  A
    layer holds a view class where the later generation holds markup; an
    active layer holds the view made from it. *)
Record Matched1 : Type := {
  m_path : string;
  m_pattern : string;
  m_params : list (string * string);
  m_redirect : option string;
  m_layers : option (list RouteLayer)
}.

Section OnRouteChange.

(** [router.match] and [queryString.parse] with [parseBooleans] and
    [parseNumbers]. *)
Variable routerMatch : string -> option Matched1.
Variable parseQuery : string -> list (string * string).

(** The loop over [layers], from index [i] on: [matchedLayer.view.init]
    makes the view with the next identity. *)
Fixpoint diffLayers1 (matchedLayers : list RouteLayer) (i : nat)
    (active : list ActiveLayer) (queue : list Frame) (next : nat)
    : list ActiveLayer * list Frame * nat :=
  match matchedLayers with
  | [] => (active, queue, next)
  | matchedLayer :: rest =>
      let activeLayer := nth_error active i in
      let same :=
        match activeLayer with
        | Some a => Nat.eqb (id a) (layer_id matchedLayer)
        | None => false
        end in
      if same then diffLayers1 rest (S i) active queue next
      else
        let active := firstn i active in
        let parentLayer := lastLayer active in
        let view := next in
        diffLayers1 rest (S i)
          (active ++ [{| id := layer_id matchedLayer; handle := view |}])
          (queue ++ [{| frame_activeLayer := activeLayer;
                        frame_parentLayer := parentLayer;
                        frame_rendered := view |}])
          (S next)
  end.

(** [onRouteChange({ location })] of the class-based store. *)
Definition onRouteChange1 (location : Location) (s : RouterState)
    : result RouterState :=
  let s :=
    if option_string_eqb (lastQuery s) (search location) then s
    else {| pattern := pattern s; path := path s; params := params s;
            query := parseQuery (search location);
            isRouteChange := negb (queryObserved s);
            queryObserved := queryObserved s;
            lastQuery := Some (search location);
            activeLayers := activeLayers s; nextHandle := nextHandle s;
            frames := frames s; replaced := replaced s |} in
  match routerMatch (pathname location) with
  | None =>
      Ok {| pattern := None;
            path := pathname location;
            params := [("wildcard"%string, pathname location)];
            query := query s; isRouteChange := isRouteChange s;
            queryObserved := queryObserved s; lastQuery := lastQuery s;
            activeLayers := activeLayers s; nextHandle := nextHandle s;
            frames := frames s; replaced := replaced s |}
  | Some matched =>
      match m_redirect matched with
      | Some target =>
          Ok {| pattern := pattern s; path := path s; params := params s;
                query := query s; isRouteChange := isRouteChange s;
                queryObserved := queryObserved s; lastQuery := lastQuery s;
                activeLayers := activeLayers s; nextHandle := nextHandle s;
                frames := frames s;
                replaced :=
                  replaced s
                  ++ [fold_left (fun p kv => replaceString (String ":" (fst kv)) (snd kv) p)
                                (m_params matched) target] |}
      | None =>
          if option_string_eqb (pattern s) (m_pattern matched) then
            Ok {| pattern := pattern s;
                  path := m_path matched;
                  params := m_params matched;
                  query := query s; isRouteChange := isRouteChange s;
                  queryObserved := queryObserved s; lastQuery := lastQuery s;
                  activeLayers := activeLayers s; nextHandle := nextHandle s;
                  frames := frames s; replaced := replaced s |}
          else
            match m_layers matched with
            | None => Throw (TypeError "undefined has no property length"%string)
            | Some matchedLayers =>
                let '(active, queue, next) :=
                  diffLayers1 matchedLayers 0 (activeLayers s) (frames s)
                              (nextHandle s) in
                Ok {| pattern := Some (m_pattern matched);
                      path := m_path matched;
                      params := m_params matched;
                      query := query s; isRouteChange := isRouteChange s;
                      queryObserved := queryObserved s; lastQuery := lastQuery s;
                      activeLayers := active; nextHandle := next;
                      frames := queue; replaced := replaced s |}
            end
      end
  end.

(** The body of a frame callback; [isConnected v] is the flag of the view
    [v] when the frame runs. *)
Definition runFrame1 (isConnected : nat -> bool) (f : Frame) : list HandleCall :=
  match frame_activeLayer f with
  | None => []
  | Some activeLayer =>
      if isConnected (handle activeLayer)
      then [DisconnectHandle (handle activeLayer)] else []
  end
  ++ match frame_parentLayer f with
     | Some parentLayer => [SetChildren (Some (handle parentLayer)) (frame_rendered f)]
     | None => [SetChildren None (frame_rendered f)]
     end.

(** The same match, as the later generation describes it. *)
Definition toSecond (matched : Matched1) : Matched :=
  {| matched_path := m_path matched;
     matched_pattern := m_pattern matched;
     matched_params := m_params matched;
     redirect := option_map RedirectString (m_redirect matched);
     layers := m_layers matched |}.

Lemma diffLayers1_diffLayers (matchedLayers : list RouteLayer) (i : nat)
    (active : list ActiveLayer) (queue : list Frame) (next : nat) :
  diffLayers1 matchedLayers i active queue next
  = diffLayers matchedLayers i active queue next.
Proof.
  revert i active queue next.
  induction matchedLayers as [|l rest IH]; intros i active queue next;
    [reflexivity|].
  cbn [diffLayers1 diffLayers]. unfold differs.
  destruct (nth_error active i) as [a|].
  - destruct (Nat.eqb (id a) (layer_id l)); cbn [negb]; apply IH.
  - apply IH.
Qed.

(** The two generations of the router store agree: on every location and
    every state the listener of the class-based store leaves the state that
    the listener of the later store leaves for the same match, and the
    frames they queue make the same calls.  What was shown for the later
    listener (no match, first mismatching layer, repeated location,
    redirect) therefore holds for this one. *)
Theorem onRouteChange1_agrees_with_onRouteChange
    (location : Location) (s : RouterState) (f : Frame) (connected : nat -> bool) :
  onRouteChange1 location s
    = onRouteChange (fun pathname => option_map toSecond (routerMatch pathname))
                    parseQuery location s /\
  runFrame1 connected f = runFrame connected f.
Proof.
  split.
  - unfold onRouteChange1, onRouteChange, updateQuery, same_query.
    destruct (option_string_eqb (lastQuery s) (search location));
      destruct (routerMatch (pathname location)) as [matched|];
      cbn [option_map]; try reflexivity;
      unfold toSecond; cbn [redirect matched_pattern matched_path matched_params
                            layers];
      (destruct (m_redirect matched) as [target|]; cbn [option_map];
       [reflexivity|]);
      cbn [pattern activeLayers frames nextHandle];
      (destruct (option_string_eqb (pattern s) (m_pattern matched));
       [reflexivity|]);
      (destruct (m_layers matched) as [matchedLayers|]; [|reflexivity]);
      now rewrite diffLayers1_diffLayers.
  - unfold runFrame1, runFrame.
    destruct (frame_activeLayer f) as [a|], (frame_parentLayer f) as [p|];
      reflexivity.
Qed.

End OnRouteChange.

End RouterFirst.

(* ===================================================================== *)
(** * The view explorer frame: showing a view *)
(* ===================================================================== *)

Module SetActiveView.

Import Js ViewExplorer ViewExplorerProps.

(** ** The order of [for ... in] *)

(** The number that [name] is the canonical text of, when [name] is an
    array index: an integer from 0 to 2^32 - 2, written in decimal
    without a sign and without a leading zero. *)
Fixpoint digitsValue (s : string) (acc : N) : option N :=
  match s with
  | EmptyString => Some acc
  | String c rest =>
      if isDigit c
      then digitsValue rest (acc * 10 + N.of_nat (nat_of_ascii c - 48))
      else None
  end.

Definition arrayIndex (name : string) : option N :=
  match name with
  | EmptyString => None
  | String c rest =>
      if Ascii.eqb c "0" && negb (String.eqb rest EmptyString) then None
      else match digitsValue name 0 with
           | Some n => if N.leb n 4294967294 then Some n else None
           | None => None
           end
  end.

Definition isArrayIndex (name : string) : bool :=
  match arrayIndex name with Some _ => true | None => false end.

Fixpoint insertSorted {A : Type} (n : N) (x : A) (l : list (N * A))
    : list (N * A) :=
  match l with
  | [] => [(n, x)]
  | (m, y) :: rest =>
      if N.leb n m then (n, x) :: l else (m, y) :: insertSorted n x rest
  end.

(** The properties whose name is an array index, with the index, in
    ascending order of the index. *)
Definition indexed {A : Type} (o : list (string * A))
    : list (N * (string * A)) :=
  fold_right (fun x acc => match arrayIndex (fst x) with
                           | Some n => insertSorted n x acc
                           | None => acc
                           end) [] o.

(** The order in which [for (const name in o)] visits the properties of
    an object [o] that is given by its properties in the order of their
    creation: first the properties whose name is an array index, in
    ascending order of the index, then the others in the order of their
    creation. *)
Definition forIn {A : Type} (o : list (string * A)) : list (string * A) :=
  map snd (indexed o)
  ++ filter (fun x => negb (isArrayIndex (fst x))) o.

(** ** helpers/initService.js *)

(** What a service function does with its context, in order:
    [ctx.beforeConnect(callback)], [ctx.afterConnect(callback)], and the
    value it returns ([None] for an object, else the text of the value).
    The watchers it starts are kept in a list that nothing reads. *)
Record ServiceBody : Type := {
  registersBefore : list nat;
  registersAfter : list nat;
  returnsOther : option string
}.

(** The object that [initService] returns, by what its two methods call. *)
Record Service : Type := {
  onBeforeConnect : list nat;
  onAfterConnect : list nat
}.

Definition initService (body : ServiceBody) : result Service :=
  match returnsOther body with
  | None => Ok {| onBeforeConnect := registersBefore body;
                  onAfterConnect := registersAfter body |}
  | Some text => Throw (TypeError ("A service must return an object. Got: " ++ text)%string)
  end.

(** ** [setActiveView] *)

(** An entry of the local [services] object: one of the four built-in
    ones ([{ exports }], without hooks) or the result of [initService]. *)
Inductive Entry : Type :=
| BuiltIn
| Started (service : Service).

Definition builtIns : list (string * Entry) :=
  [("@app"%string, BuiltIn); ("@debug"%string, BuiltIn);
   ("@router"%string, BuiltIn); ("@page"%string, BuiltIn)].

(** [services[name] = entry] on the properties in the order of their
    creation: a name that is there keeps its place. *)
Fixpoint assign (name : string) (entry : Entry) (services : list (string * Entry))
    : list (string * Entry) :=
  match services with
  | [] => [(name, entry)]
  | (n, e) :: rest =>
      if String.eqb n name then (n, entry) :: rest
      else (n, e) :: assign name entry rest
  end.

Inductive Event : Type :=
| Disconnected (instance : nat)
| ServiceCalled (name : string)
| Called (callback : nat)
| Initialized (template : Template) (instance : nat)
| Connected (instance : nat).

(** The module variables [collections] and [mounted]; [nextInstance] is
    the identity of the component that the next [template.init] makes. *)
Record Frame : Type := {
  collections : list Collection;
  mounted : option nat;
  nextInstance : nat
}.

Section SetActiveView.

(** What the service function [fn] does when it is called with the
    options [options]. *)
Variable bodyOf : nat -> option nat -> ServiceBody.

(** A service given as an object is wrapped into [() => service]. *)
Definition serviceBody (entry : ServiceEntry) : ServiceBody :=
  match entry with
  | ServiceFn fn options => bodyOf fn options
  | ServiceConst _ =>
      {| registersBefore := []; registersAfter := []; returnsOther := None |}
  end.

(** [for (const name in found.services) services[name] = initService(...)],
    for the names of [found.services] in the order of the loop. *)
Fixpoint startServices (entries : list (string * ServiceEntry))
    (services : list (string * Entry))
    : list Event * result (list (string * Entry)) :=
  match entries with
  | [] => ([], Ok services)
  | (name, entry) :: rest =>
      match initService (serviceBody entry) with
      | Throw e => ([ServiceCalled name], Throw e)
      | Ok service =>
          let '(evs, r) := startServices rest (assign name (Started service) services) in
          (ServiceCalled name :: evs, r)
      end
  end.

(** [for (const name in services) if (services[name].beforeConnect) ...],
    and the same for [afterConnect], for the properties of [services] in
    the order of the loop. *)
Definition hooks (which : Service -> list nat) (services : list (string * Entry))
    : list Event :=
  flat_map (fun named => match snd named with
                         | BuiltIn => []
                         | Started service => map Called (which service)
                         end) services.

(** [setActiveView(id)]: the frame after the call, what the call did, and
    the exception it threw, if any. *)
Definition setActiveView (wanted : option nat) (f : Frame)
    : Frame * list Event * option JsError :=
  let evs0 := match mounted f with
              | Some m => [Disconnected m]
              | None => []
              end in
  let f0 := {| collections := collections f; mounted := None;
               nextInstance := nextInstance f |} in
  match wanted with
  | None => (f0, evs0, None)
  | Some wanted =>
      match findView (collections f) wanted with
      | None => (f0, evs0, Some (Error "View not found."%string))
      | Some found =>
          match startServices (forIn (services found)) builtIns with
          | (evs1, Throw e) => (f0, evs0 ++ evs1, Some e)
          | (evs1, Ok started) =>
              ({| collections := collections f;
                  mounted := Some (nextInstance f);
                  nextInstance := S (nextInstance f) |},
               evs0 ++ evs1
               ++ [Initialized (template found) (nextInstance f)]
               ++ hooks onBeforeConnect (forIn started)
               ++ [Connected (nextInstance f)]
               ++ hooks onAfterConnect (forIn started),
               None)
          end
      end
  end.

(** A sequence of calls from the runner; a call that throws does not stop
    the next one. *)
Fixpoint setActiveViews (calls : list (option nat)) (f : Frame)
    : Frame * list Event :=
  match calls with
  | [] => (f, [])
  | wanted :: rest =>
      let '(f1, evs1, _) := setActiveView wanted f in
      let '(f2, evs2) := setActiveViews rest f1 in
      (f2, evs1 ++ evs2)
  end.

(** ** Notions used in the statements *)

Definition connectedIn (evs : list Event) : list nat :=
  flat_map (fun e => match e with Connected i => [i] | _ => [] end) evs.

Definition disconnectedIn (evs : list Event) : list nat :=
  flat_map (fun e => match e with Disconnected i => [i] | _ => [] end) evs.

Definition initializedIn (evs : list Event) : list nat :=
  flat_map (fun e => match e with Initialized _ i => [i] | _ => [] end) evs.

Definition calledIn (evs : list Event) : list nat :=
  flat_map (fun e => match e with Called cb => [cb] | _ => [] end) evs.

Definition shown (f : Frame) : list nat :=
  match mounted f with Some m => [m] | None => [] end.

Lemma startServices_quiet (entries : list (string * ServiceEntry))
    (services : list (string * Entry)) :
  connectedIn (fst (startServices entries services)) = [] /\
  disconnectedIn (fst (startServices entries services)) = [] /\
  initializedIn (fst (startServices entries services)) = [] /\
  calledIn (fst (startServices entries services)) = [].
Proof.
  revert services. induction entries as [|[name entry] rest IH]; intros services;
    simpl; [repeat split|].
  destruct (initService (serviceBody entry)) as [service|e]; [|repeat split].
  specialize (IH (assign name (Started service) services)).
  destruct (startServices rest (assign name (Started service) services)) as [evs r].
  exact IH.
Qed.

Lemma hooks_quiet (which : Service -> list nat) (services : list (string * Entry)) :
  connectedIn (hooks which services) = [] /\
  disconnectedIn (hooks which services) = [] /\
  initializedIn (hooks which services) = [] /\
  calledIn (hooks which services)
    = flat_map (fun named => match snd named with
                             | BuiltIn => []
                             | Started service => which service
                             end) services.
Proof.
  unfold hooks. induction services as [|[name [|service]] rest IH]; simpl;
    [repeat split | exact IH |].
  destruct IH as [H1 [H2 [H3 H4]]].
  unfold connectedIn, disconnectedIn, initializedIn, calledIn in *.
  rewrite !flat_map_app, H1, H2, H3, H4.
  assert (Hq : forall cbs,
             flat_map (fun e => match e with Connected i => [i] | _ => [] end)
                      (map Called cbs) = [] /\
             flat_map (fun e => match e with Disconnected i => [i] | _ => [] end)
                      (map Called cbs) = [] /\
             flat_map (fun e => match e with Initialized _ i => [i] | _ => [] end)
                      (map Called cbs) = [] /\
             flat_map (fun e => match e with Called cb => [cb] | _ => [] end)
                      (map Called cbs) = cbs).
  { induction cbs as [|cb cbs [I1 [I2 [I3 I4]]]]; simpl; [repeat split|].
    repeat split; try assumption. now f_equal. }
  destruct (Hq (which service)) as [Q1 [Q2 [Q3 Q4]]].
  rewrite Q1, Q2, Q3, Q4. repeat split.
Qed.

(** One call: the account of the components, and what a failure leaves. *)
Lemma setActiveView_account (wanted : option nat) (f : Frame) :
  let '(f1, evs, thrown) := setActiveView wanted f in
  shown f ++ connectedIn evs = disconnectedIn evs ++ shown f1 /\
  initializedIn evs = connectedIn evs /\
  initializedIn evs = seq (nextInstance f) (nextInstance f1 - nextInstance f) /\
  nextInstance f <= nextInstance f1 /\
  collections f1 = collections f /\
  (thrown <> None -> mounted f1 = None).
Proof.
  unfold setActiveView, shown.
  assert (H0 : forall m : option nat,
             connectedIn (match m with Some x => [Disconnected x] | None => [] end) = []
             /\ disconnectedIn (match m with Some x => [Disconnected x] | None => [] end)
                = match m with Some x => [x] | None => [] end
             /\ initializedIn (match m with Some x => [Disconnected x] | None => [] end)
                = []).
  { intros [x|]; repeat split. }
  destruct (H0 (mounted f)) as [Hc0 [Hd0 Hi0]].
  destruct wanted as [wanted|].
  - destruct (findView (collections f) wanted) as [found|].
    + pose proof (startServices_quiet (forIn (services found)) builtIns) as Hq.
      destruct (startServices (forIn (services found)) builtIns)
        as [evs1 [started|e]];
        cbn [fst] in Hq; destruct Hq as [Hc1 [Hd1 [Hi1 _]]].
      * destruct (hooks_quiet onBeforeConnect (forIn started)) as [Hcb [Hdb [Hib _]]].
        destruct (hooks_quiet onAfterConnect (forIn started)) as [Hca [Hda [Hia _]]].
        cbn [mounted nextInstance collections].
        unfold connectedIn, disconnectedIn, initializedIn in *.
        rewrite !flat_map_app, Hc0, Hd0, Hi0, Hc1, Hd1, Hi1, Hcb, Hdb, Hib,
          Hca, Hda, Hia.
        cbn [flat_map app].
        replace (S (nextInstance f) - nextInstance f) with 1 by lia.
        rewrite !app_nil_r.
        repeat split; try lia; try (destruct (mounted f); reflexivity);
          try (intros H; exfalso; now apply H).
      * cbn [mounted nextInstance collections].
        unfold connectedIn, disconnectedIn, initializedIn in *.
        rewrite !flat_map_app, Hc0, Hd0, Hi0, Hc1, Hd1, Hi1.
        rewrite Nat.sub_diag, !app_nil_r. repeat split; lia.
    + cbn [mounted nextInstance collections]. rewrite Hc0, Hd0, Hi0.
      rewrite Nat.sub_diag, !app_nil_r. repeat split; lia.
  - cbn [mounted nextInstance collections]. rewrite Hc0, Hd0, Hi0.
    rewrite Nat.sub_diag, !app_nil_r. repeat split; lia.
Qed.

(** Whatever views the runner asks for, in whatever order, and whichever
    of the calls throw: every component that was connected is either the
    one mounted now or was disconnected, once, before the next one was
    made; every component made was connected; and a call that throws (an
    unknown id, a service that returns no object) leaves the frame without
    a mounted view, the view shown before being disconnected already. *)
Theorem setActiveView_keeps_one_view_mounted
    (calls : list (option nat)) (wanted : option nat) (f : Frame) :
  shown f ++ connectedIn (snd (setActiveViews calls f))
    = disconnectedIn (snd (setActiveViews calls f))
      ++ shown (fst (setActiveViews calls f)) /\
  initializedIn (snd (setActiveViews calls f))
    = connectedIn (snd (setActiveViews calls f)) /\
  initializedIn (snd (setActiveViews calls f))
    = seq (nextInstance f)
          (nextInstance (fst (setActiveViews calls f)) - nextInstance f) /\
  match setActiveView wanted f with
  | (f1, evs, Some _) =>
      mounted f1 = None /\ disconnectedIn evs = shown f /\ connectedIn evs = []
  | (f1, evs, None) =>
      disconnectedIn evs = shown f /\
      (wanted = None -> mounted f1 = None /\ evs = map Disconnected (shown f))
  end.
Proof.
  assert (Hrun : forall cs g,
    shown g ++ connectedIn (snd (setActiveViews cs g))
      = disconnectedIn (snd (setActiveViews cs g))
        ++ shown (fst (setActiveViews cs g)) /\
    initializedIn (snd (setActiveViews cs g))
      = connectedIn (snd (setActiveViews cs g)) /\
    initializedIn (snd (setActiveViews cs g))
      = seq (nextInstance g)
            (nextInstance (fst (setActiveViews cs g)) - nextInstance g) /\
    nextInstance g <= nextInstance (fst (setActiveViews cs g))).
  { clear. intros cs. induction cs as [|w rest IH]; intros f.
    - simpl. rewrite Nat.sub_diag, app_nil_r. repeat split. lia.
    - cbn [setActiveViews].
      pose proof (setActiveView_account w f) as H1.
      destruct (setActiveView w f) as [[f1 evs1] thrown].
      destruct H1 as [Ha [Hb [Hc [Hd _]]]].
      specialize (IH f1).
      destruct (setActiveViews rest f1) as [f2 evs2]. cbn [fst snd] in *.
      destruct IH as [Ia [Ib [Ic Id]]].
      unfold connectedIn, disconnectedIn, initializedIn in *.
      rewrite !flat_map_app.
      split; [|split; [|split]].
      + rewrite app_assoc, Ha, <- app_assoc, Ia, app_assoc. reflexivity.
      + now rewrite Hb, Ib.
      + rewrite Hc, Ic.
        replace (nextInstance f2 - nextInstance f)
          with ((nextInstance f1 - nextInstance f) + (nextInstance f2 - nextInstance f1))
          by lia.
        rewrite seq_app. f_equal. f_equal. lia.
      + lia. }
  destruct (Hrun calls f) as [H1 [H2 [H3 _]]].
  split; [exact H1|]. split; [exact H2|]. split; [exact H3|].
  pose proof (setActiveView_account wanted f) as Hone.
  unfold setActiveView in *. unfold shown in *.
  assert (Hd : disconnectedIn (match mounted f with
                               | Some m => [Disconnected m]
                               | None => []
                               end)
               = match mounted f with Some m => [m] | None => [] end)
    by (destruct (mounted f); reflexivity).
  assert (Hc : connectedIn (match mounted f with
                            | Some m => [Disconnected m]
                            | None => []
                            end) = [])
    by (destruct (mounted f); reflexivity).
  destruct wanted as [w|].
  - destruct (findView (collections f) w) as [found|].
    + pose proof (startServices_quiet (forIn (services found)) builtIns) as Hq.
      destruct (startServices (forIn (services found)) builtIns)
        as [evs1 [started|e]];
        cbn [fst] in Hq; destruct Hq as [Hc1 [Hd1 _]].
      * destruct (hooks_quiet onBeforeConnect (forIn started)) as [_ [Hdb _]].
        destruct (hooks_quiet onAfterConnect (forIn started)) as [_ [Hda _]].
        split; [|discriminate].
        unfold disconnectedIn in *. rewrite !flat_map_app, Hd, Hd1, Hdb, Hda.
        cbn [flat_map app]. now rewrite !app_nil_r.
      * cbn [mounted]. unfold disconnectedIn, connectedIn in *.
        rewrite !flat_map_app, Hd, Hc, Hd1, Hc1, !app_nil_r. repeat split.
    + cbn [mounted]. repeat split; assumption.
  - split; [exact Hd|]. intros _. split; [reflexivity|].
    destruct (mounted f); reflexivity.
Qed.

(** ** The order of the loops *)

(** The name [a] comes before, or is, the name [b] among the array
    indices. *)
Definition indexOrder {A : Type} (a b : string * A) : Prop :=
  match arrayIndex (fst a), arrayIndex (fst b) with
  | Some m, Some n => (m <= n)%N
  | _, _ => False
  end.

Lemma insertSorted_In {A : Type} (n : N) (x : A) (l : list (N * A)) (e : N * A) :
  In e (insertSorted n x l) <-> e = (n, x) \/ In e l.
Proof.
  induction l as [|[m y] rest IH]; simpl; [intuition|].
  destruct (N.leb n m); simpl; [intuition|]. rewrite IH. intuition.
Qed.

Lemma insertSorted_Sorted {A : Type} (n : N) (x : A) (l : list (N * A)) :
  Sorted (fun a b => (fst a <= fst b)%N) l ->
  Sorted (fun a b => (fst a <= fst b)%N) (insertSorted n x l).
Proof.
  induction l as [|[m y] rest IH]; intros Hs; simpl.
  - repeat constructor.
  - apply Sorted_inv in Hs. destruct Hs as [Hrest Hhd].
    destruct (N.leb n m) eqn:Hle.
    + apply N.leb_le in Hle. constructor; [now constructor|].
      constructor. exact Hle.
    + apply N.leb_gt in Hle. constructor; [now apply IH|].
      destruct rest as [|[k z] rest']; simpl.
      * constructor. simpl. lia.
      * destruct (N.leb n k); constructor; simpl; [lia|].
        now inversion Hhd.
Qed.

Lemma insertSorted_perm {A : Type} (n : N) (x : A) (l : list (N * A)) :
  Permutation (insertSorted n x l) ((n, x) :: l).
Proof.
  induction l as [|[m y] rest IH]; simpl; [reflexivity|].
  destruct (N.leb n m); [reflexivity|].
  rewrite IH. apply perm_swap.
Qed.

Lemma indexed_spec {A : Type} (o : list (string * A)) :
  Sorted (fun a b => (fst a <= fst b)%N) (indexed o) /\
  Forall (fun e => arrayIndex (fst (snd e)) = Some (fst e)) (indexed o).
Proof.
  induction o as [|x rest [IHs IHf]]; simpl; [split; constructor|].
  destruct (arrayIndex (fst x)) as [n|] eqn:Hx; [|now split].
  split; [now apply insertSorted_Sorted|].
  apply Forall_forall. intros e He. apply insertSorted_In in He.
  destruct He as [-> | He]; [exact Hx|].
  rewrite Forall_forall in IHf. now apply IHf.
Qed.

(** The loop visits the array indices first, in ascending order, then
    the other names in the order of their creation; it visits every
    property once. *)
Lemma forIn_order {A : Type} (o : list (string * A)) :
  exists ints others,
    forIn o = ints ++ others /\
    Forall (fun e => isArrayIndex (fst e) = true) ints /\
    Sorted indexOrder ints /\
    others = filter (fun e => negb (isArrayIndex (fst e))) o /\
    Permutation (ints ++ others) o.
Proof.
  exists (map snd (indexed o)),
         (filter (fun e => negb (isArrayIndex (fst e))) o).
  destruct (indexed_spec o) as [Hs Hf].
  split; [reflexivity|]. split; [|split; [|split; [reflexivity|]]].
  - apply Forall_forall. intros e He. apply in_map_iff in He.
    destruct He as [[n e'] [<- Hin]]. rewrite Forall_forall in Hf.
    specialize (Hf _ Hin). cbn [fst snd] in *. unfold isArrayIndex.
    now rewrite Hf.
  - induction (indexed o) as [|[n e] rest IH]; [constructor|].
    apply Sorted_inv in Hs. destruct Hs as [Hs Hhd].
    inversion Hf as [|? ? He Hf']; subst. cbn [map snd].
    constructor; [now apply IH|].
    destruct rest as [|[m e'] rest']; [constructor|].
    constructor. inversion Hhd as [|? ? Hle]; subst.
    inversion Hf' as [|? ? He' _]; subst. cbn [fst snd] in *.
    unfold indexOrder. now rewrite He, He'.
  - clear Hs Hf. induction o as [|x rest IH]; [reflexivity|].
    cbn [indexed fold_right filter].
    fold (indexed rest). unfold isArrayIndex at 1.
    destruct (arrayIndex (fst x)) as [n|]; cbn [negb].
    + rewrite (Permutation_map snd (insertSorted_perm n x (indexed rest))).
      cbn [map snd app]. now constructor.
    + rewrite <- Permutation_middle. now constructor.
Qed.

(** When no service function throws, the services are started in the
    order given, and the names that were in [services] before keep their
    places. *)
Lemma startServices_started (entries : list (string * ServiceEntry))
    (services started : list (string * Entry)) (evs : list Event) :
  startServices entries services = (evs, Ok started) ->
  evs = map ServiceCalled (map fst entries) /\
  map fst (firstn (length services) started) = map fst services.
Proof.
  revert services started evs.
  induction entries as [|[name entry] rest IH]; intros services started evs H.
  - simpl in H. inversion H; subst. split; [reflexivity|].
    now rewrite firstn_all.
  - simpl in H. destruct (initService (serviceBody entry)) as [service|e];
      [|discriminate H].
    destruct (startServices rest (assign name (Started service) services))
      as [evs' r'] eqn:Hrest.
    inversion H; subst. destruct (IH _ _ _ Hrest) as [Hevs Hkeep].
    split; [cbn [map fst]; now rewrite Hevs|].
    assert (Hassign : forall name entry services,
               map fst (firstn (length services) (assign name entry services))
               = map fst services).
    { clear. intros name entry services.
      induction services as [|[n e] rest IH]; [reflexivity|].
      cbn [assign]. destruct (String.eqb n name); cbn [length firstn map fst].
      - now rewrite firstn_all.
      - now rewrite IH. }
    assert (Hlen : length services
                   <= length (assign name (Started service) services)).
    { clear. induction services as [|[n e] rest IH]; simpl; [lia|].
      destruct (String.eqb n name); simpl; lia. }
    apply (f_equal (firstn (length services))) in Hkeep.
    rewrite <- !firstn_map in *. rewrite firstn_firstn in Hkeep.
    replace (Nat.min (length services)
               (length (assign name (Started service) services)))
      with (length services) in Hkeep by lia.
    rewrite Hkeep. rewrite firstn_map. apply Hassign.
Qed.

(** In a call that mounts a view, every service function of the view runs
    before the template is initialised, every before-connect callback runs
    between the initialisation and the connection, and every after-connect
    callback after the connection.  The callbacks of a service run in the
    order of their registration, and the services in the order of the
    loop over the [services] object: first the services whose name is an
    array index, in ascending order, then the others in the order of their
    creation, the four built-in ones before the view's own.  The service
    functions are called in the order of the loop over the view's
    services. *)
Theorem setActiveView_runs_hooks_around_connect
    (wanted : nat) (f : Frame) (found : View)
    (started : list (string * Entry)) (evs1 : list Event) :
  findView (collections f) wanted = Some found ->
  startServices (forIn (services found)) builtIns = (evs1, Ok started) ->
  exists pre post ints others,
    setActiveView (Some wanted) f
      = ({| collections := collections f; mounted := Some (nextInstance f);
            nextInstance := S (nextInstance f) |},
         pre ++ [Initialized (template found) (nextInstance f)]
         ++ hooks onBeforeConnect (ints ++ others)
         ++ [Connected (nextInstance f)] ++ post, None) /\
    pre = match mounted f with Some m => [Disconnected m] | None => [] end
          ++ map ServiceCalled (map fst (forIn (services found))) /\
    post = hooks onAfterConnect (ints ++ others) /\
    calledIn pre = [] /\
    calledIn (hooks onBeforeConnect (ints ++ others))
      = flat_map (fun named => match snd named with
                               | BuiltIn => []
                               | Started service => onBeforeConnect service
                               end) (ints ++ others) /\
    calledIn post
      = flat_map (fun named => match snd named with
                               | BuiltIn => []
                               | Started service => onAfterConnect service
                               end) (ints ++ others) /\
    Forall (fun e => isArrayIndex (fst e) = true) ints /\
    Sorted indexOrder ints /\
    others = filter (fun e => negb (isArrayIndex (fst e))) started /\
    map fst (firstn 4 others) = map fst builtIns /\
    Permutation (ints ++ others) started.
Proof.
  intros Hfound Hstart. unfold setActiveView. rewrite Hfound, Hstart.
  destruct (forIn_order started)
    as [ints [others [Hfor [Hints [Hsorted [Hothers Hperm]]]]]].
  destruct (startServices_started _ _ Hstart) as [Hevs Hkeep].
  exists (match mounted f with Some m => [Disconnected m] | None => [] end ++ evs1),
         (hooks onAfterConnect (forIn started)), ints, others.
  rewrite <- Hfor.
  split; [now rewrite <- app_assoc|].
  split; [now rewrite Hevs|]. split; [reflexivity|].
  pose proof (startServices_quiet (forIn (services found)) builtIns) as Hq.
  rewrite Hstart in Hq. cbn [fst] in Hq. destruct Hq as [_ [_ [_ Hcalled]]].
  destruct (hooks_quiet onBeforeConnect (forIn started)) as [_ [_ [_ Hb]]].
  destruct (hooks_quiet onAfterConnect (forIn started)) as [_ [_ [_ Ha]]].
  split.
  { unfold calledIn in *. rewrite flat_map_app, Hcalled.
    destruct (mounted f); reflexivity. }
  split; [exact Hb|]. split; [exact Ha|].
  split; [exact Hints|]. split; [exact Hsorted|]. split; [exact Hothers|].
  split; [|now rewrite <- Hfor in Hperm].
  subst others. cbn [length builtIns] in Hkeep.
  destruct started as [|[n1 e1] [|[n2 e2] [|[n3 e3] [|[n4 e4] rest]]]];
    try discriminate Hkeep.
  cbn [firstn map fst builtIns] in Hkeep. injection Hkeep as H1 H2 H3 H4.
  subst n1 n2 n3 n4. reflexivity.
Qed.

End SetActiveView.

(** ** The second theorem at a view with three services *)

(** The service function [fn] registers the before-connect callback
    [10 + fn] and the after-connect callback [20 + fn], and returns an
    object. *)
Definition exampleBody (fn : nat) (options : option nat) : ServiceBody :=
  {| registersBefore := [10 + fn]; registersAfter := [20 + fn];
     returnsOther := None |}.

(** A view with the services [store] and [0] of its own and an object in
    the place of the mock router. *)
Definition exampleView : View :=
  {| id := 0; path := "/button"%string; name := "Button"%string;
     description := None; attributes := [];
     services := [("store"%string, ServiceFn 1 None);
                  ("0"%string, ServiceFn 2 None);
                  ("@router"%string, ServiceConst 3)];
     actions := []; template := {| template_id := 5 |} |}.

Definition exampleFrame : Frame :=
  {| collections := [{| collection_path := "/button"%string;
                        views := [exampleView] |}];
     mounted := Some 7; nextInstance := 8 |}.

(** The service [0] is started first and its callbacks run first, before
    those of the built-in services and of [store]. *)
Lemma setActiveView_runs_hooks_around_connect_at_example :
  findView (collections exampleFrame) 0 = Some exampleView /\
  exists started,
    startServices exampleBody (forIn (services exampleView)) builtIns
      = ([ServiceCalled "0"; ServiceCalled "store"; ServiceCalled "@router"],
         Ok started) /\
    map fst started
      = ["@app"; "@debug"; "@router"; "@page"; "0"; "store"]%string /\
    map fst (forIn started)
      = ["0"; "@app"; "@debug"; "@router"; "@page"; "store"]%string /\
    snd (fst (setActiveView exampleBody (Some 0) exampleFrame))
      = [Disconnected 7;
         ServiceCalled "0"; ServiceCalled "store"; ServiceCalled "@router";
         Initialized {| template_id := 5 |} 8; Called 12; Called 11;
         Connected 8; Called 22; Called 21].
Proof.
  split; [reflexivity|].
  destruct (startServices exampleBody (forIn (services exampleView)) builtIns)
    as [evs1 [started|e]] eqn:Hstart; [|vm_compute in Hstart; discriminate Hstart].
  destruct (@setActiveView_runs_hooks_around_connect exampleBody 0 exampleFrame
              exampleView started evs1 eq_refl Hstart)
    as [pre [post [ints [others [Hrun _]]]]].
  vm_compute in Hstart. injection Hstart as Hevs Hstarted. subst evs1 started.
  eexists. split; [reflexivity|]. split; [reflexivity|].
  split; [reflexivity|]. reflexivity.
Defined.

End SetActiveView.

(* ===================================================================== *)
(** * The watch component and the helpers built on it: [when], [unless] *)
(* ===================================================================== *)

Module WatchComponent.

Import Js.

(** What a render function returns: [null] or [undefined], a template, a
    function (with what it returns when called), or anything else (with
    the text that a template literal gives for it). *)
Inductive Rendered : Type :=
| Nullish
| Template (template : nat)
| Function (returns : Rendered)
| Other (text : string).

Inductive Event : Type :=
| Disconnected (instance : nat)
| Initialized (template : nat) (instance : nat)
| Connected (instance : nat).

(** The closure variable [current] of the component; [nextInstance] is the
    identity of the component that the next [init] makes. *)
Record Watch : Type := {
  current : option nat;
  nextInstance : nat
}.

Definition show (x : Rendered) : string :=
  match x with
  | Nullish => "null"
  | Template _ => "[object Object]"
  | Function _ => "<function>"
  | Other text => text
  end.

Section Update.

(** The watched values, and which of them are truthy. *)
Variable V : Type.
Variable truthy : V -> bool.

(** [update(value)] of components/Watch.js for the render function
    [render]. *)
Definition update (render : V -> Rendered) (value : V) (w : Watch)
    : result (Watch * list Event) :=
  let newItem := render value in
  let newItem :=
    match newItem with
    | Function returns => returns
    | _ => newItem
    end in
  let disconnected :=
    match current w with
    | Some c => [Disconnected c]
    | None => []
    end in
  match newItem with
  | Nullish =>
      Ok ({| current := None; nextInstance := nextInstance w |}, disconnected)
  | Template t =>
      Ok ({| current := Some (nextInstance w); nextInstance := S (nextInstance w) |},
          disconnected ++ [Initialized t (nextInstance w); Connected (nextInstance w)])
  | _ =>
      Throw (TypeError ("Watch: render function should return a view or null. Got: "
                        ++ show newItem)%string)
  end.

(** The callback given to [self.afterDisconnect]. *)
Definition afterDisconnect (w : Watch) : Watch * list Event :=
  match current w with
  | Some c => ({| current := None; nextInstance := nextInstance w |}, [Disconnected c])
  | None => (w, [])
  end.

(** The changes of the watched value, one after the other; an update that
    throws leaves the component as it was. *)
Fixpoint updates (render : V -> Rendered) (values : list V) (w : Watch)
    : Watch * list Event :=
  match values with
  | [] => (w, [])
  | value :: rest =>
      match update render value w with
      | Ok (w1, evs1) =>
          let '(w2, evs2) := updates render rest w1 in (w2, evs1 ++ evs2)
      | Throw _ => updates render rest w
      end
  end.

(** ** h.js: [when] and [unless] *)

(** The render functions that [when($condition, element)] and
    [unless($condition, element)] hand to the watch component. *)
Definition whenRender (element : Rendered) (value : V) : Rendered :=
  if truthy value then element else Nullish.

Definition unlessRender (element : Rendered) (value : V) : Rendered :=
  if truthy value then Nullish else element.

(** ** Notions used in the statements *)

Definition connectedIn (evs : list Event) : list nat :=
  flat_map (fun e => match e with Connected i => [i] | _ => [] end) evs.

Definition disconnectedIn (evs : list Event) : list nat :=
  flat_map (fun e => match e with Disconnected i => [i] | _ => [] end) evs.

Definition shown (w : Watch) : list nat :=
  match current w with Some c => [c] | None => [] end.

Definition isShown (w : Watch) : bool :=
  match current w with Some _ => true | None => false end.

Lemma update_account (render : V -> Rendered) (value : V) (w : Watch) :
  match update render value w with
  | Ok (w1, evs) =>
      shown w ++ connectedIn evs = disconnectedIn evs ++ shown w1 /\
      disconnectedIn evs = shown w /\
      length (connectedIn evs) = length (shown w1)
  | Throw _ => True
  end.
Proof.
  unfold update, shown.
  destruct (render value) as [|t|[|t|r|text]|text]; try exact I;
    destruct (current w) as [c|]; cbn; repeat split.
Qed.

(** Whatever the render function returns, over any sequence of changes of
    the watched value: a component that was connected is the one shown now
    or was disconnected, once, before the next one was connected; each
    update that does not throw disconnects what was shown before, also
    when it shows the same template again; and after the component itself
    is disconnected nothing is shown. *)
Theorem watch_shows_one_item_at_a_time
    (render : V -> Rendered) (values : list V) (w : Watch) :
  shown w ++ connectedIn (snd (updates render values w))
    = disconnectedIn (snd (updates render values w))
      ++ shown (fst (updates render values w)) /\
  (forall value,
     match update render value w with
     | Ok (w1, evs) => disconnectedIn evs = shown w
     | Throw _ => True
     end) /\
  shown (fst (afterDisconnect (fst (updates render values w)))) = [] /\
  snd (afterDisconnect (fst (updates render values w)))
    = map Disconnected (shown (fst (updates render values w))).
Proof.
  split; [|split; [|split]].
  - revert w. induction values as [|value rest IH]; intros w.
    + simpl. now rewrite app_nil_r.
    + cbn [updates]. pose proof (update_account render value w) as H.
      destruct (update render value w) as [[w1 evs1]|e]; [|apply IH].
      destruct H as [H1 _]. specialize (IH w1).
      destruct (updates render rest w1) as [w2 evs2]. cbn [fst snd] in *.
      unfold connectedIn, disconnectedIn in *. rewrite !flat_map_app.
      rewrite app_assoc, H1, <- app_assoc, IH, app_assoc. reflexivity.
  - intros value. pose proof (update_account render value w) as H.
    destruct (update render value w) as [[w1 evs1]|e]; [|exact I].
    now destruct H as [_ [H2 _]].
  - unfold afterDisconnect, shown.
    destruct (current (fst (updates render values w))) eqn:Hc; cbn [fst current];
      [reflexivity | now rewrite Hc].
  - unfold afterDisconnect, shown.
    destruct (current (fst (updates render values w))); reflexivity.
Qed.

(** [when] and [unless] of the same condition and of a template never
    throw, and after every change of the condition exactly one of the two
    shows its element: [when] if the last value is truthy, [unless] if it
    is not.  Every truthy value makes [when] initialise the template
    anew. *)
Theorem when_and_unless_show_exactly_one
    (template : nat) (value : V) (values : list V) (w u : Watch) :
  isShown (fst (updates (whenRender (Template template)) (values ++ [value]) w))
    = truthy value /\
  isShown (fst (updates (unlessRender (Template template)) (values ++ [value]) u))
    = negb (truthy value) /\
  length (connectedIn (snd (updates (whenRender (Template template)) values w)))
    = length (filter truthy values) /\
  (forall v w0, exists r,
     update (whenRender (Template template)) v w0 = Ok r /\
     isShown (fst r) = truthy v) /\
  (forall v u0, exists r,
     update (unlessRender (Template template)) v u0 = Ok r /\
     isShown (fst r) = negb (truthy v)).
Proof.
  assert (Hwhen : forall v w0, exists r,
             update (whenRender (Template template)) v w0 = Ok r /\
             isShown (fst r) = truthy v /\
             length (connectedIn (snd r)) = (if truthy v then 1 else 0)).
  { intros v w0. unfold update, whenRender.
    destruct (truthy v); eexists; (split; [reflexivity|]);
      destruct (current w0); split; reflexivity. }
  assert (Hunless : forall v u0, exists r,
             update (unlessRender (Template template)) v u0 = Ok r /\
             isShown (fst r) = negb (truthy v)).
  { intros v u0. unfold update, unlessRender.
    destruct (truthy v); eexists; (split; [reflexivity|]); reflexivity. }
  assert (Hlast : forall (render : V -> Rendered) (expected : V -> bool),
             (forall v w0, exists r, update render v w0 = Ok r /\
                                     isShown (fst r) = expected v) ->
             forall vs w0,
               isShown (fst (updates render (vs ++ [value]) w0)) = expected value).
  { intros render expected Hone vs. induction vs as [|v rest IH]; intros w0.
    - cbn [app updates]. destruct (Hone value w0) as [[w1 evs1] [Hr Hs]].
      rewrite Hr. exact Hs.
    - cbn [app updates]. destruct (Hone v w0) as [[w1 evs1] [Hr _]].
      rewrite Hr. specialize (IH w1).
      destruct (updates render (rest ++ [value]) w1) as [w2 evs2]. exact IH. }
  split.
  { apply (Hlast (whenRender (Template template)) truthy).
    intros v w0. destruct (Hwhen v w0) as [r [Hr [Hs _]]].
    exists r. now split. }
  split.
  { exact (Hlast (unlessRender (Template template))
                 (fun v => negb (truthy v)) Hunless values u). }
  split.
  { revert w. induction values as [|v rest IH]; intros w; [reflexivity|].
    cbn [updates filter]. destruct (Hwhen v w) as [[w1 evs1] [Hr [_ Hn]]].
    rewrite Hr. specialize (IH w1).
    destruct (updates (whenRender (Template template)) rest w1) as [w2 evs2].
    cbn [fst snd] in *. unfold connectedIn in *.
    rewrite flat_map_app, length_app, Hn, IH.
    destruct (truthy v); reflexivity. }
  split; [|exact Hunless].
  intros v w0. destruct (Hwhen v w0) as [r [Hr [Hs _]]]. exists r. now split.
Qed.

End Update.

End WatchComponent.

(* ===================================================================== *)
(** * Mapped and filtered states: [state.map], [state.filter] *)
(* ===================================================================== *)

Module StateMap.

Import Js.

(** A listener of the source state: a function given to the source
    itself, or the wrapper that the mapped state made for one of its own
    listeners.  Listeners are known by their identity. *)
Inductive Listener : Type :=
| Plain (listener : nat)
| Wrapper (listener : nat).

Definition Listener_eqb (a b : Listener) : bool :=
  match a, b with
  | Plain x, Plain y => Nat.eqb x y
  | Wrapper x, Wrapper y => Nat.eqb x y
  | _, _ => false
  end.

(** [listeners.indexOf(arg)]. *)
Fixpoint indexOf (l : Listener) (ls : list Listener) : option nat :=
  match ls with
  | [] => None
  | x :: rest =>
      if Listener_eqb x l then Some 0
      else option_map S (indexOf l rest)
  end.

Fixpoint removeAt (i : nat) (ls : list Listener) {struct ls} : list Listener :=
  match ls, i with
  | [], _ => []
  | _ :: rest, 0 => rest
  | x :: rest, S j => x :: removeAt j rest
  end.

(** [listeners.splice(listeners.indexOf(arg), 1)], on the array itself;
    the index -1 removes the last element. *)
Definition splice (l : Listener) (ls : list Listener) : list Listener :=
  match indexOf l ls with
  | Some i => removeAt i ls
  | None => removelast ls
  end.

Definition includes (x : Listener) (xs : list Listener) : bool :=
  existsb (Listener_eqb x) xs.

(** The closure variables of the source ([value], [listeners]) and of the
    mapped state ([stored]; [None] is [undefined]). *)
Record State (V W : Type) : Type := {
  value : V;
  listeners : list Listener;
  stored : option W
}.

Arguments value {V W} s.
Arguments listeners {V W} s.
Arguments stored {V W} s.

(** The variables of one notification: the array [listeners] that the
    loop iterates and the cancel functions splice, the local [cancelled],
    [stored], the listeners called so far and the values handed to the
    listeners of the mapped state. *)
Record Loop (W : Type) : Type := {
  loop_listeners : list Listener;
  loop_cancelled : list Listener;
  loop_stored : option W;
  loop_called : list Listener;
  loop_delivered : list (nat * W)
}.

Arguments loop_listeners {W} l.
Arguments loop_cancelled {W} l.
Arguments loop_stored {W} l.
Arguments loop_called {W} l.
Arguments loop_delivered {W} l.

Section Map.

Variables V W : Type.

(** [a === b] on the values of the source. *)
Variable strictEq : V -> V -> bool.

(** [transform]; [None] when it returns [undefined]. *)
Variable transform : V -> option W.

(** [plainCancels l v]: the listener [l] of the source, called with [v],
    calls the cancel function it is given (the one that records it in
    [cancelled]).  [mappedCancels l t]: the listener [l] of the mapped
    state, called with [t], calls the cancel function it is given (the one
    that the source returned for its wrapper, which splices [listeners]). *)
Variable plainCancels : nat -> V -> bool.
Variable mappedCancels : nat -> W -> bool.

(** One iteration of [for (const listener of listeners)] in the source,
    for the new value [v]. *)
Definition callListener (v : V) (l : Listener) (a : Loop W) : Loop W :=
  match l with
  | Plain p =>
      {| loop_listeners := loop_listeners a;
         loop_cancelled :=
           if plainCancels p v then loop_cancelled a ++ [l] else loop_cancelled a;
         loop_stored := loop_stored a;
         loop_called := loop_called a ++ [l];
         loop_delivered := loop_delivered a |}
  | Wrapper m =>
      match transform v with
      | None =>
          {| loop_listeners := loop_listeners a;
             loop_cancelled := loop_cancelled a;
             loop_stored := loop_stored a;
             loop_called := loop_called a ++ [l];
             loop_delivered := loop_delivered a |}
      | Some t =>
          {| loop_listeners :=
               if mappedCancels m t then splice l (loop_listeners a)
               else loop_listeners a;
             loop_cancelled := loop_cancelled a;
             loop_stored := Some t;
             loop_called := loop_called a ++ [l];
             loop_delivered := loop_delivered a ++ [(m, t)] |}
      end
  end.

(** The loop from the index [i] on.  The array iterator reads the array
    anew at every step; [fuel] bounds the number of steps. *)
Fixpoint loop (fuel : nat) (i : nat) (v : V) (a : Loop W) : Loop W :=
  match fuel with
  | 0 => a
  | S fuel' =>
      match nth_error (loop_listeners a) i with
      | None => a
      | Some l => loop fuel' (S i) v (callListener v l a)
      end
  end.

(** The notification of a set: the loop, with as many steps allowed as
    there are listeners. *)
Definition notify (v : V) (s : State V W) : Loop W :=
  loop (length (listeners s)) 0 v
       {| loop_listeners := listeners s; loop_cancelled := [];
          loop_stored := stored s; loop_called := []; loop_delivered := [] |}.

(** [source(v)] for a value [v] that is not [undefined], on a source that
    takes the set (it is not immutable, or one of its methods sets it). *)
Definition setSource (v : V) (s : State V W) : State V W * Loop W :=
  if strictEq v (value s) then
    (s, {| loop_listeners := listeners s; loop_cancelled := [];
           loop_stored := stored s; loop_called := []; loop_delivered := [] |})
  else
    let a := notify v s in
    ({| value := v;
        listeners := filter (fun x => negb (includes x (loop_cancelled a)))
                            (loop_listeners a);
        stored := loop_stored a |}, a).

(** [mapped(listener)] for a function: the wrapper is subscribed to the
    source. *)
Definition subscribe (listener : nat) (s : State V W) : State V W :=
  {| value := value s; listeners := listeners s ++ [Wrapper listener];
     stored := stored s |}.

(** [mapped()]: the new state and the value returned. *)
Definition read (s : State V W) : State V W * option W :=
  match transform (value s) with
  | Some t => ({| value := value s; listeners := listeners s; stored := Some t |},
               Some t)
  | None => (s, stored s)
  end.

(** [mapped(arg)] for an argument that is neither a function nor
    [undefined]. *)
Definition set (text : string) : JsError :=
  Error ("Read only state cannot be set. Received: " ++ text)%string.

(** The calls that change the state. *)
Inductive Op : Type :=
| OpSetSource (v : V)
| OpRead
| OpSubscribe (listener : nat).

Definition applyOp (s : State V W) (op : Op) : State V W * list (nat * W) * option W :=
  match op with
  | OpSetSource v =>
      let '(s', a) := setSource v s in (s', loop_delivered a, None)
  | OpRead => let '(s', r) := read s in (s', [], r)
  | OpSubscribe l => (subscribe l s, [], None)
  end.

Definition isRead (op : Op) : bool :=
  match op with
  | OpRead => true
  | _ => false
  end.

(** The state after the calls, every value handed to a listener of the
    mapped state, and what every read returned, [None] for [undefined]. *)
Fixpoint runOps (ops : list Op) (s : State V W)
    : State V W * list W * list (option W) :=
  match ops with
  | [] => (s, [], [])
  | op :: rest =>
      let '(s1, delivered, returned) := applyOp s op in
      let '(s2, ds, rs) := runOps rest s1 in
      (s2, map snd delivered ++ ds,
       if isRead op then returned :: rs else rs)
  end.

(** ** The loop ends within its fuel *)

Lemma length_removeAt (i : nat) (ls : list Listener) :
  length (removeAt i ls) <= length ls.
Proof.
  revert i. induction ls as [|x rest IH]; intros i; simpl; [lia|].
  destruct i as [|j]; simpl; [lia|]. specialize (IH j). lia.
Qed.

Lemma length_splice (l : Listener) (ls : list Listener) :
  length (splice l ls) <= length ls.
Proof.
  unfold splice. destruct (indexOf l ls); [apply length_removeAt|].
  destruct ls as [|x rest]; [simpl; lia|].
  rewrite removelast_firstn_len, length_firstn. lia.
Qed.

Lemma length_callListener (v : V) (l : Listener) (a : Loop W) :
  length (loop_listeners (callListener v l a)) <= length (loop_listeners a).
Proof.
  unfold callListener. destruct l as [p|m]; cbn [loop_listeners]; [lia|].
  destruct (transform v) as [t|]; cbn [loop_listeners]; [|lia].
  destruct (mappedCancels m t); [apply length_splice | lia].
Qed.

(** With the listeners from [i] on as fuel the loop has reached the end
    of the array: more fuel changes nothing. *)
Lemma loop_fuel (fuel extra i : nat) (v : V) (a : Loop W) :
  length (loop_listeners a) <= i + fuel ->
  loop (fuel + extra) i v a = loop fuel i v a.
Proof.
  revert i a. induction fuel as [|fuel IH]; intros i a Hlen.
  - cbn [Nat.add loop]. destruct extra as [|extra]; [reflexivity|].
    cbn [loop]. assert (H : nth_error (loop_listeners a) i = None)
      by (apply nth_error_None; lia).
    now rewrite H.
  - cbn [Nat.add loop]. destruct (nth_error (loop_listeners a) i) as [l|];
      [|reflexivity].
    apply IH. pose proof (length_callListener v l a). lia.
Qed.

(** ** What the mapped state holds *)

Section Invariant.

(** A property that every result of [transform] has. *)
Variable P : W -> Prop.
Hypothesis transform_P : forall v t, transform v = Some t -> P t.

Definition holds (o : option W) : Prop :=
  match o with
  | Some t => P t
  | None => True
  end.

Lemma callListener_holds (v : V) (l : Listener) (a : Loop W) :
  holds (loop_stored a) -> Forall (fun d => P (snd d)) (loop_delivered a) ->
  holds (loop_stored (callListener v l a)) /\
  Forall (fun d => P (snd d)) (loop_delivered (callListener v l a)).
Proof.
  intros Hs Hd. unfold callListener. destruct l as [p|m]; [now split|].
  destruct (transform v) as [t|] eqn:Ht; [|now split].
  cbn [loop_stored loop_delivered holds]. split; [now apply transform_P with v|].
  apply Forall_app. split; [exact Hd|]. constructor; [|constructor].
  now apply transform_P with v.
Qed.

Lemma loop_holds (fuel i : nat) (v : V) (a : Loop W) :
  holds (loop_stored a) -> Forall (fun d => P (snd d)) (loop_delivered a) ->
  holds (loop_stored (loop fuel i v a)) /\
  Forall (fun d => P (snd d)) (loop_delivered (loop fuel i v a)).
Proof.
  revert i a. induction fuel as [|fuel IH]; intros i a Hs Hd; [now split|].
  cbn [loop]. destruct (nth_error (loop_listeners a) i) as [l|]; [|now split].
  destruct (callListener_holds v l a Hs Hd) as [Hs' Hd']. now apply IH.
Qed.

Lemma applyOp_holds (s : State V W) (op : Op) :
  holds (stored s) ->
  holds (stored (fst (fst (applyOp s op)))) /\
  Forall (fun d => P (snd d)) (snd (fst (applyOp s op))) /\
  holds (snd (applyOp s op)).
Proof.
  intros Hs. destruct op as [v| |l]; cbn [applyOp].
  - unfold setSource. destruct (strictEq v (value s)); cbn [fst snd stored loop_delivered holds].
    + repeat split; [exact Hs | constructor].
    + destruct (@loop_holds (length (listeners s)) 0 v
                  {| loop_listeners := listeners s; loop_cancelled := [];
                     loop_stored := stored s; loop_called := [];
                     loop_delivered := [] |} Hs (Forall_nil _)) as [H1 H2].
      repeat split; assumption.
  - unfold read. destruct (transform (value s)) as [t|] eqn:Ht;
      cbn [fst snd stored holds].
    + repeat split; [now apply transform_P with (value s) | constructor
                    | now apply transform_P with (value s)].
    + repeat split; [exact Hs | constructor | exact Hs].
  - cbn [fst snd subscribe stored holds]. repeat split; [exact Hs | constructor].
Qed.

Lemma runOps_holds (ops : list Op) (s : State V W) :
  holds (stored s) ->
  holds (stored (fst (fst (runOps ops s)))) /\
  Forall P (snd (fst (runOps ops s))) /\
  Forall holds (snd (runOps ops s)).
Proof.
  revert s. induction ops as [|op rest IH]; intros s Hs.
  - simpl. repeat split; [exact Hs | constructor | constructor].
  - cbn [runOps]. destruct (applyOp_holds s op Hs) as [H1 [H2 H3]].
    destruct (applyOp s op) as [[s1 delivered] returned]. cbn [fst snd] in *.
    destruct (IH s1 H1) as [I1 [I2 I3]].
    destruct (runOps rest s1) as [[s2 ds] rs]. cbn [fst snd] in *.
    split; [exact I1|]. split.
    + apply Forall_app. split; [|exact I2].
      apply Forall_forall. intros x Hx. apply in_map_iff in Hx.
      destruct Hx as [d [<- Hd]]. rewrite Forall_forall in H2. now apply H2.
    + destruct (isRead op); [|exact I3]. constructor; assumption.
Qed.

End Invariant.

(** ** Once a value is stored *)

Definition defined (o : option W) : Prop := o <> None.

Lemma callListener_defined (v : V) (l : Listener) (a : Loop W) :
  defined (loop_stored a) -> defined (loop_stored (callListener v l a)).
Proof.
  intros Hs. unfold callListener. destruct l as [p|m]; [exact Hs|].
  destruct (transform v) as [t|]; [|exact Hs]. cbn [loop_stored]. discriminate.
Qed.

Lemma loop_defined (fuel i : nat) (v : V) (a : Loop W) :
  defined (loop_stored a) -> defined (loop_stored (loop fuel i v a)).
Proof.
  revert i a. induction fuel as [|fuel IH]; intros i a Hs; [exact Hs|].
  cbn [loop]. destruct (nth_error (loop_listeners a) i) as [l|]; [|exact Hs].
  apply IH. now apply callListener_defined.
Qed.

Lemma applyOp_defined (s : State V W) (op : Op) :
  defined (stored s) ->
  defined (stored (fst (fst (applyOp s op)))) /\
  (isRead op = true -> defined (snd (applyOp s op))).
Proof.
  intros Hs. destruct op as [v| |l]; cbn [applyOp isRead].
  - unfold setSource. destruct (strictEq v (value s)); cbn [fst snd stored].
    + split; [exact Hs | discriminate].
    + split; [|discriminate]. unfold notify. now apply loop_defined.
  - unfold read. destruct (transform (value s)) as [t|]; cbn [fst snd stored].
    + split; [discriminate | intros _; discriminate].
    + split; [exact Hs | intros _; exact Hs].
  - cbn [fst snd subscribe stored]. split; [exact Hs | discriminate].
Qed.

(** Once a value is stored, one stays stored and no read returns
    [undefined]. *)
Lemma runOps_defined (ops : list Op) (s : State V W) :
  defined (stored s) ->
  defined (stored (fst (fst (runOps ops s)))) /\
  Forall defined (snd (runOps ops s)).
Proof.
  revert s. induction ops as [|op rest IH]; intros s Hs.
  - simpl. split; [exact Hs | constructor].
  - cbn [runOps]. destruct (applyOp_defined s op Hs) as [H1 H2].
    destruct (applyOp s op) as [[s1 delivered] returned]. cbn [fst snd] in *.
    destruct (IH s1 H1) as [I1 I2].
    destruct (runOps rest s1) as [[s2 ds] rs]. cbn [fst snd] in *.
    split; [exact I1|]. destruct (isRead op); [|exact I2].
    constructor; [now apply H2 | exact I2].
Qed.

(** Every read has its entry in the list of what the reads returned. *)
Lemma runOps_reads (ops : list Op) (s : State V W) :
  length (snd (runOps ops s)) = length (filter isRead ops).
Proof.
  revert s. induction ops as [|op rest IH]; intros s; [reflexivity|].
  cbn [runOps filter]. destruct (applyOp s op) as [[s1 delivered] returned].
  specialize (IH s1). destruct (runOps rest s1) as [[s2 ds] rs].
  cbn [snd] in *. destruct (isRead op); cbn [length]; now rewrite IH.
Qed.

(** ** Cancelling from inside a listener of the mapped state *)

(** The listener does not splice the array when it is called with [v]. *)
Definition quiet (v : V) (l : Listener) : bool :=
  match l with
  | Plain _ => true
  | Wrapper m =>
      match transform v with
      | Some t => negb (mappedCancels m t)
      | None => true
      end
  end.

Definition callAll (v : V) (run : list Listener) (a : Loop W) : Loop W :=
  fold_left (fun a l => callListener v l a) run a.

Lemma callListener_quiet (v : V) (l : Listener) (a : Loop W) :
  quiet v l = true ->
  loop_listeners (callListener v l a) = loop_listeners a /\
  loop_called (callListener v l a) = loop_called a ++ [l].
Proof.
  unfold quiet, callListener. destruct l as [p|m]; [now split|].
  destruct (transform v) as [t|]; [|now split].
  destruct (mappedCancels m t); [discriminate | now split].
Qed.

Lemma callAll_quiet (v : V) (run : list Listener) (a : Loop W) :
  Forall (fun l => quiet v l = true) run ->
  loop_listeners (callAll v run a) = loop_listeners a /\
  loop_called (callAll v run a) = loop_called a ++ run.
Proof.
  intros Hq. revert a. induction Hq as [|l run Hl _ IH]; intros a.
  - simpl. now rewrite app_nil_r.
  - cbn [callAll fold_left]. destruct (callListener_quiet v l a Hl) as [H1 H2].
    destruct (IH (callListener v l a)) as [I1 I2]. unfold callAll in *.
    rewrite I1, I2, H1, H2, <- app_assoc. now split.
Qed.

(** Over listeners that do not splice, the loop calls one after the
    other. *)
Lemma loop_quiet (v : V) (run done rest : list Listener) (fuel : nat) (a : Loop W) :
  loop_listeners a = done ++ run ++ rest ->
  Forall (fun l => quiet v l = true) run ->
  loop (length run + fuel) (length done) v a
  = loop fuel (length done + length run) v (callAll v run a).
Proof.
  intros Hls Hq. revert done a Hls.
  induction Hq as [|l run Hl _ IH]; intros done a Hls.
  - cbn [length Nat.add callAll fold_left]. now rewrite Nat.add_0_r.
  - cbn [length Nat.add loop]. rewrite Hls.
    rewrite nth_error_app2 by lia. rewrite Nat.sub_diag. cbn [app nth_error].
    destruct (callListener_quiet v l a Hl) as [H1 _].
    specialize (IH (done ++ [l]) (callListener v l a)).
    rewrite length_app in IH. cbn [length] in IH.
    replace (length done + 1) with (S (length done)) in IH by lia.
    rewrite IH.
    + cbn [callAll fold_left]. f_equal. lia.
    + rewrite H1, Hls, <- app_assoc. reflexivity.
Qed.

Lemma Listener_eqb_eq (a b : Listener) : Listener_eqb a b = true <-> a = b.
Proof.
  destruct a as [x|x], b as [y|y]; simpl; split; intros H;
    try discriminate H; try (apply Nat.eqb_eq in H; now subst);
    inversion H; apply Nat.eqb_refl.
Qed.

Lemma splice_own (l : Listener) (pre rest : list Listener) :
  ~ In l pre -> splice l (pre ++ l :: rest) = pre ++ rest.
Proof.
  intros Hnot. unfold splice.
  assert (Hidx : indexOf l (pre ++ l :: rest) = Some (length pre)).
  { induction pre as [|x pre IH]; simpl.
    - assert (H : Listener_eqb l l = true) by now apply Listener_eqb_eq.
      now rewrite H.
    - destruct (Listener_eqb x l) eqn:Hx.
      + apply Listener_eqb_eq in Hx. exfalso. apply Hnot. now left.
      + rewrite IH; [reflexivity|]. intros H. apply Hnot. now right. }
  rewrite Hidx. clear. induction pre as [|x pre IH]; simpl; [reflexivity|].
  now rewrite IH.
Qed.

(** A listener of the mapped state that calls its cancel function while it
    is notified removes its wrapper from the array that the source is
    iterating: the listener that follows the wrapper moves into its place
    and is not called for this value, although it stays subscribed. *)
Theorem cancel_inside_mapped_listener_skips_next
    (v : V) (t : W) (m : nat) (next : Listener) (pre post : list Listener)
    (s : State V W) :
  listeners s = pre ++ Wrapper m :: next :: post ->
  Forall (fun l => quiet v l = true) pre ->
  Forall (fun l => quiet v l = true) post ->
  ~ In (Wrapper m) pre ->
  transform v = Some t -> mappedCancels m t = true ->
  loop_called (notify v s) = pre ++ Wrapper m :: post /\
  loop_listeners (notify v s) = pre ++ next :: post /\
  In (m, t) (loop_delivered (notify v s)).
Proof.
  intros Hls Hpre Hpost Hnot Ht Hcancel. unfold notify. rewrite Hls.
  set (a0 := {| loop_listeners := pre ++ Wrapper m :: next :: post;
                loop_cancelled := []; loop_stored := stored s;
                loop_called := []; loop_delivered := [] |}).
  assert (Hstep : forall fuel i l a,
             nth_error (loop_listeners a) i = Some l ->
             loop (S fuel) i v a = loop fuel (S i) v (callListener v l a)).
  { intros fuel i l a H. cbn [loop]. now rewrite H. }
  assert (Hstop : forall fuel i a,
             nth_error (loop_listeners a) i = None -> loop fuel i v a = a).
  { intros [|fuel] i a H; [reflexivity|]. cbn [loop]. now rewrite H. }
  replace (length (pre ++ Wrapper m :: next :: post))
    with (length pre + S (S (length post)))
    by (rewrite length_app; simpl; lia).
  rewrite (@loop_quiet v pre [] (Wrapper m :: next :: post) _ a0 eq_refl Hpre).
  destruct (callAll_quiet v a0 Hpre) as [H1 H2].
  set (a1 := callAll v pre a0) in *.
  assert (Hat : nth_error (loop_listeners a1) (length (@nil Listener) + length pre)
                = Some (Wrapper m)).
  { rewrite H1. cbn [a0 loop_listeners length Nat.add].
    rewrite nth_error_app2 by lia. now rewrite Nat.sub_diag. }
  rewrite (Hstep _ _ _ _ Hat).
  set (a2 := callListener v (Wrapper m) a1).
  assert (Hl2 : loop_listeners a2 = (pre ++ [next]) ++ post ++ []).
  { unfold a2, callListener. rewrite Ht, Hcancel. cbn [loop_listeners].
    rewrite H1. cbn [a0 loop_listeners]. rewrite splice_own by exact Hnot.
    now rewrite app_nil_r, <- app_assoc. }
  assert (Hc2 : loop_called a2 = pre ++ [Wrapper m]).
  { unfold a2, callListener. rewrite Ht. cbn [loop_called]. now rewrite H2. }
  assert (Hd2 : In (m, t) (loop_delivered a2)).
  { unfold a2, callListener. rewrite Ht. cbn [loop_delivered].
    apply in_or_app. right. now left. }
  replace (S (length post)) with (length post + 1) by lia.
  replace (S (length (@nil Listener) + length pre)) with (length (pre ++ [next]))
    by (rewrite length_app; simpl; lia).
  rewrite (@loop_quiet v post (pre ++ [next]) [] 1 a2 Hl2 Hpost).
  destruct (callAll_quiet v a2 Hpost) as [H3 H4].
  rewrite Hstop.
  2:{ rewrite H3, Hl2. apply nth_error_None. rewrite !length_app. simpl. lia. }
  rewrite H3, H4, Hl2, Hc2.
  split; [now rewrite <- app_assoc|]. split; [now rewrite app_nil_r, <- app_assoc|].
  clear - Hd2 Hpost.
  assert (Hgrow : forall run a, In (m, t) (loop_delivered a) ->
                                In (m, t) (loop_delivered (callAll v run a))).
  { induction run as [|l run IH]; intros a Ha; [exact Ha|].
    cbn [callAll fold_left]. apply IH. unfold callListener.
    destruct l as [p|ml]; [exact Ha|].
    destruct (transform v); [|exact Ha].
    cbn [loop_delivered]. apply in_or_app. now left. }
  now apply Hgrow.
Qed.

End Map.

(** ** [state.filter] *)

(** The function that [state.filter] hands to [map]: the value itself when
    the condition holds, else [undefined]. *)
Definition filterTransform {V : Type} (condition : V -> bool) (v : V) : option V :=
  if condition v then Some v else None.

(** A filtered state only ever holds and hands to its listeners values
    for which the condition holds, whatever the source is set to and
    whoever subscribes, in whatever order.  Every read returns either
    [undefined] or a value for which the condition holds: the value of the
    source when the condition holds for it, and else the value that was
    accepted last.  It returns [undefined] when no value was accepted yet,
    as the first read does when the condition fails for the initial value;
    from a state that has stored a value on, no read returns
    [undefined]. *)
Theorem filtered_state_only_passes_accepted_values
    (V : Type) (strictEq : V -> V -> bool) (accept : V -> bool)
    (plainCancels mappedCancels : nat -> V -> bool)
    (initialValue : V) (subscribed : list Listener) (ops : list (Op V)) :
  let s := {| value := initialValue; listeners := subscribed; stored := None |} in
  let runFrom := runOps strictEq (filterTransform accept)
                        plainCancels mappedCancels ops in
  let accepted := fun r : option V =>
                    match r with Some x => accept x = true | None => True end in
  Forall (fun x => accept x = true) (snd (fst (runFrom s))) /\
  Forall accepted (snd (runFrom s)) /\
  length (snd (runFrom s)) = length (filter (@isRead V) ops) /\
  accepted (stored (fst (fst (runFrom s)))) /\
  (forall s0 : State V V,
     snd (read (filterTransform accept) s0)
     = if accept (value s0) then Some (value s0) else stored s0) /\
  (accept initialValue = false ->
   runOps strictEq (filterTransform accept) plainCancels mappedCancels
          (OpRead V :: ops) s
   = (fst (fst (runFrom s)), snd (fst (runFrom s)), None :: snd (runFrom s))) /\
  (forall s0 : State V V,
     stored s0 <> None ->
     stored (fst (fst (runFrom s0))) <> None /\
     Forall (fun r => exists x, r = Some x) (snd (runFrom s0))).
Proof.
  intros s runFrom accepted.
  assert (HP : forall v t, filterTransform accept v = Some t -> accept t = true).
  { intros v t. unfold filterTransform. destruct (accept v) eqn:Hv; [|discriminate].
    intros H. now inversion H; subst. }
  destruct (@runOps_holds V V strictEq
              (filterTransform accept) plainCancels mappedCancels
              (fun x => accept x = true) HP ops s I) as [H1 [H2 H3]].
  split; [exact H2|]. split; [exact H3|].
  split; [apply runOps_reads|]. split; [exact H1|].
  split.
  { intros s0. unfold read, filterTransform. now destruct (accept (value s0)). }
  split.
  { intros Hinit. cbn [runOps applyOp isRead]. unfold read, filterTransform.
    cbn [value s]. rewrite Hinit.
    change (fun v : V => if accept v then Some v else None)
      with (filterTransform accept).
    fold runFrom. now destruct (runFrom s) as [[s2 ds] rs]. }
  intros s0 Hs0.
  destruct (@runOps_defined V V strictEq (filterTransform accept)
              plainCancels mappedCancels ops s0 Hs0) as [D1 D2].
  split; [exact D1|]. apply Forall_forall. intros r Hr.
  rewrite Forall_forall in D2. specialize (D2 r Hr).
  destruct r as [x|]; [now exists x | now elim D2].
Qed.

(** The reads of a state that keeps the even numbers, the source at 1:
    the first read returns [undefined], the read after the source was set
    to 4 returns 4, and the read after it was set to 7 returns 4 again. *)
Example filtered_reads :
  snd (runOps Nat.eqb (filterTransform Nat.even)
              (fun _ _ => false) (fun _ _ => false)
              [OpRead nat; OpSetSource 4; OpRead nat; OpSetSource 7; OpRead nat]
              {| value := 1; listeners := []; stored := None |})
  = [None; Some 4; Some 4].
Proof. reflexivity. Qed.

(** ** The theorem on cancelling at a source with four listeners *)

(** The source holds 0; its listeners are a plain one, the wrapper of the
    listener 2 of the mapped state, and two more plain ones.  The listener
    2 cancels as soon as it is called. *)
Definition exampleState : State nat nat :=
  {| value := 0; listeners := [Plain 1; Wrapper 2; Plain 3; Plain 4];
     stored := None |}.

Definition identity (v : nat) : option nat := Some v.
Definition neverCancels (l v : nat) : bool := false.
Definition secondCancels (l t : nat) : bool := Nat.eqb l 2.

Lemma cancel_inside_mapped_listener_skips_next_at_example :
  loop_called (notify identity neverCancels secondCancels 5 exampleState)
    = [Plain 1; Wrapper 2; Plain 4] /\
  loop_listeners (notify identity neverCancels secondCancels 5 exampleState)
    = [Plain 1; Plain 3; Plain 4].
Proof.
  assert (Hnot : ~ In (Wrapper 2) [Plain 1])
    by (intros [H | []]; discriminate H).
  assert (Hpre : Forall (fun l => quiet identity secondCancels 5 l = true) [Plain 1])
    by (repeat constructor).
  assert (Hpost : Forall (fun l => quiet identity secondCancels 5 l = true) [Plain 4])
    by (repeat constructor).
  destruct (@cancel_inside_mapped_listener_skips_next nat nat identity
              neverCancels secondCancels 5 5 2 (Plain 3) [Plain 1] [Plain 4]
              exampleState eq_refl Hpre Hpost Hnot eq_refl eq_refl)
    as [Hcalled [Hlisteners _]].
  split; [exact Hcalled | exact Hlisteners].
Defined.

End StateMap.
